(** * ratarmountcore: the AR and HTML mount sources

    A shallow embedding of
    [core/ratarmountcore/mountsource/formats/ar.py] and
    [core/ratarmountcore/mountsource/formats/html.py].

    Python values are represented as follows.
    - [int] is [Z].
    - [bytes] is [list byte].
    - [str] is [list ascii]: one element per character, characters being
      restricted to the code points 0..255.
    - An exception is a value of [exn]; code that may raise returns a
      [result].
    - File objects are records holding the underlying buffer and the current
      position; every method returns the new file object next to its value.
    - The calls into Python's standard library and into the index are the
      fields of the class [Environment]; the properties hold for every
      environment, and [example_environment] serves the examples.

    The first part holds the definitions: the Python operations, the
    matcher of [re], the two modules, and the notions that the properties
    are stated with.  The second part holds the properties. *)

From Stdlib Require Import Strings.String Strings.Ascii Strings.Byte.
From Stdlib Require Import List ZArith Lia Bool.
From Stdlib Require Import Sorted.
Import ListNotations.

Local Open Scope Z_scope.

(** ** Exceptions and the error monad *)

Inductive exn : Type :=
| ValueError
| BinasciiError
| UnicodeEncodeError
| UnicodeDecodeError
| LookupError
| RatarmountError (message : string).

Inductive result (A : Type) : Type :=
| Ok (value : A)
| Raise (e : exn).

Arguments Ok {A} value.
Arguments Raise {A} e.

Definition bind {A B : Type} (m : result A) (k : A -> result B) : result B :=
  match m with
  | Ok a => k a
  | Raise e => Raise e
  end.

Notation "x <- m ;; k" := (bind m (fun x => k))
  (at level 61, m at next level, right associativity).
Notation "' p <- m ;; k" := (bind m (fun p => k))
  (at level 61, p pattern, m at next level, right associativity).

(** ** Python sequence operations

    The operations are shared by [str] and [bytes]; [eqb] is the equality of
    the element type. *)

Section Sequences.
Context {A : Type} (eqb : A -> A -> bool).

Definition len (s : list A) : Z := Z.of_nat (length s).

Fixpoint takeWhile (p : A -> bool) (s : list A) : list A :=
  match s with
  | [] => []
  | c :: t => if p c then c :: takeWhile p t else []
  end.

Fixpoint dropWhile (p : A -> bool) (s : list A) : list A :=
  match s with
  | [] => []
  | c :: t => if p c then dropWhile p t else s
  end.

Fixpoint seq_eqb (s t : list A) : bool :=
  match s, t with
  | [], [] => true
  | c :: s', d :: t' => eqb c d && seq_eqb s' t'
  | _, _ => false
  end.

Definition contains (c : A) (s : list A) : bool := existsb (eqb c) s.

(** [s.startswith(prefix)] *)
Fixpoint startswith (prefix s : list A) : bool :=
  match prefix, s with
  | [], _ => true
  | p :: ps, c :: cs => eqb p c && startswith ps cs
  | _ :: _, [] => false
  end.

(** [s.endswith(suffix)] *)
Definition endswith (suffix s : list A) : bool :=
  startswith (rev suffix) (rev s).

(** [s[i:]] and [s[:i]] for [0 <= i]. *)
Definition slice_from (i : Z) (s : list A) : list A := skipn (Z.to_nat i) s.
Definition slice_to (i : Z) (s : list A) : list A := firstn (Z.to_nat i) s.
(** [s[i:j]] for [0 <= i] and [0 <= j]. *)
Definition slice (i j : Z) (s : list A) : list A :=
  slice_from i (slice_to j s).

Fixpoint find_go (sub s : list A) (i : Z) : Z :=
  if startswith sub s then i
  else match s with
       | [] => -1
       | _ :: t => find_go sub t (i + 1)
       end.

(** [s.find(sub, start)] for [0 <= start]: the lowest index at or after
    [start] where [sub] occurs, [-1] when there is none. *)
Definition find (sub s : list A) (start : Z) : Z :=
  if len s <? start then -1 else find_go sub (slice_from start s) start.

Fixpoint split_go (sep s cur : list A) (skip : nat) : list (list A) :=
  match s with
  | [] => [rev cur]
  | c :: t =>
      match skip with
      | S k => split_go sep t cur k
      | O =>
          if startswith sep s
          then rev cur :: split_go sep t [] (length sep - 1)
          else split_go sep t (c :: cur) 0
      end
  end.

(** [s.split(sep)] for a non-empty separator. *)
Definition split (sep s : list A) : list (list A) := split_go sep s [] 0.

(** [s.split(c, 1)] for a one-character separator that occurs in [s]: the
    part before the first [c] and the part after it. *)
Definition split_once (c : A) (s : list A) : list A * list A :=
  (takeWhile (fun x => negb (eqb c x)) s,
   tl (dropWhile (fun x => negb (eqb c x)) s)).

Definition lstrip_of (p : A -> bool) (s : list A) : list A := dropWhile p s.
Definition rstrip_of (p : A -> bool) (s : list A) : list A :=
  rev (dropWhile p (rev s)).
Definition strip_of (p : A -> bool) (s : list A) : list A :=
  rstrip_of p (lstrip_of p s).
End Sequences.

(** An octal literal, as [0o660]. *)
Definition oct (digits : string) : Z :=
  fold_left (fun acc c => acc * 8 + (Z.of_nat (nat_of_ascii c) - 48))
    (list_ascii_of_string digits) 0.

(** ** [str] *)

Definition str : Type := list ascii.
Definition lit (s : string) : str := list_ascii_of_string s.
Definition code (c : ascii) : Z := Z.of_nat (nat_of_ascii c).
Definition chr (n : Z) : ascii := ascii_of_nat (Z.to_nat n).

Definition str_eqb : str -> str -> bool := seq_eqb Ascii.eqb.

(** [c.isspace()] on the first 256 code points. *)
Definition isspace (c : ascii) : bool :=
  let n := code c in
  ((9 <=? n) && (n <=? 13)) || ((28 <=? n) && (n <=? 32))
  || (n =? 133) || (n =? 160).

(** [c.lower()] on the first 256 code points. *)
Definition lower_char (c : ascii) : ascii :=
  let n := code c in
  if ((65 <=? n) && (n <=? 90))
     || ((192 <=? n) && (n <=? 222) && negb (n =? 215))
  then chr (n + 32) else c.

Definition lower (s : str) : str := map lower_char s.
Definition strip (s : str) : str := strip_of isspace s.

(** ** [bytes] *)

Definition bytes : Type := list byte.
Definition blit (s : string) : bytes := list_byte_of_string s.
Definition ord (b : byte) : Z := Z.of_N (Byte.to_N b).

Definition bytes_eqb : bytes -> bytes -> bool := seq_eqb Byte.eqb.

Definition is_digit_byte (b : byte) : bool := (48 <=? ord b) && (ord b <=? 57).

(** [b.isdigit()]: non-empty and ASCII digits only. *)
Definition isdigit (s : bytes) : bool :=
  match s with
  | [] => false
  | _ => forallb is_digit_byte s
  end.

(** The whitespace of [bytes.strip()] and of [int()]. *)
Definition is_ascii_space (b : byte) : bool :=
  let n := ord b in (n =? 32) || ((9 <=? n) && (n <=? 13)).

Definition bytes_strip (s : bytes) : bytes := strip_of is_ascii_space s.

(** [int(b, base)] on a byte string, for the bases 8 and 10 and a string
    without a base prefix: optional surrounding whitespace, an optional
    sign, then digits of the base, single underscores being allowed between
    digits.  [ValueError] is [None]. *)
Fixpoint int_digits (base : Z) (s : bytes) (acc : Z) (after_digit : bool)
  : option Z :=
  match s with
  | [] => if after_digit then Some acc else None
  | c :: t =>
      if is_digit_byte c && (ord c - 48 <? base)
      then int_digits base t (acc * base + (ord c - 48)) true
      else if (ord c =? 95) && after_digit
           then match t with
                | [] => None
                | d :: _ =>
                    if is_digit_byte d then int_digits base t acc false
                    else None
                end
           else None
  end.

Definition int (s : bytes) (base : Z) : option Z :=
  match bytes_strip s with
  | c :: t =>
      if ord c =? 45 then option_map Z.opp (int_digits base t 0 false)
      else if ord c =? 43 then int_digits base t 0 false
      else int_digits base (c :: t) 0 false
  | [] => None
  end.

(** ** Regular expressions

    The patterns of the sources use literals, negated character classes and
    ranges of characters, sequencing, greedy [?], [*] and [+], and named
    groups.  [backtrack] is the backtracking matcher of [re], written with
    a continuation [k] for the rest of the pattern: greedy operators try the
    longest alternative first and give characters back when the rest of the
    pattern fails; a group that did not take part in the match has no
    entry. *)

Inductive regex : Type :=
| Epsilon
| Class (p : ascii -> bool)
| Seq (r1 r2 : regex)
| Optional (r : regex)
| Star (r : regex)
| Plus (r : regex)
| Named (name : string) (r : regex).

(** A literal character, a negated set and a range of characters. *)
Definition Char (c : ascii) : regex := Class (Ascii.eqb c).
Definition NoneOf (cs : list ascii) : regex :=
  Class (fun x => negb (contains Ascii.eqb x cs)).
Definition Range (lo hi : ascii) : regex :=
  Class (fun x => (code lo <=? code x) && (code x <=? code hi)).

Definition groups : Type := list (string * str).

Fixpoint group_lookup (name : string) (g : groups) : option str :=
  match g with
  | [] => None
  | (n, v) :: g' => if String.eqb n name then Some v else group_lookup name g'
  end.

Definition orelse {R : Type} (a b : option R) : option R :=
  match a with
  | Some x => Some x
  | None => b
  end.

Section Matcher.
Context {R : Type}.

Definition cont : Type := str -> groups -> option R.

(** [step] zero or more times, as often as possible; a round has to take at
    least one character, so the length of the text bounds the rounds. *)
Fixpoint star (step : str -> groups -> cont -> option R) (fuel : nat)
  (s : str) (g : groups) (k : cont) : option R :=
  match fuel with
  | O => k s g
  | S fuel' =>
      orelse
        (step s g (fun s1 g1 =>
           if (length s1 <? length s)%nat then star step fuel' s1 g1 k
           else None))
        (k s g)
  end.

Fixpoint backtrack (r : regex) (s : str) (g : groups) (k : cont)
  : option R :=
  match r with
  | Epsilon => k s g
  | Class p =>
      match s with
      | x :: t => if p x then k t g else None
      | [] => None
      end
  | Seq r1 r2 => backtrack r1 s g (fun s1 g1 => backtrack r2 s1 g1 k)
  | Optional r1 => orelse (backtrack r1 s g k) (k s g)
  | Star r1 => star (backtrack r1) (length s) s g k
  | Plus r1 =>
      backtrack r1 s g (fun s1 g1 => star (backtrack r1) (length s1) s1 g1 k)
  | Named name r1 =>
      backtrack r1 s g (fun s1 g1 =>
        k s1 ((name, firstn (length s - length s1) s) :: g1))
  end.
End Matcher.

(** A match object: [m.end()] and the named groups. *)
Record Match : Type := { match_end : Z; match_groups : groups }.

Definition group (m : Match) (name : string) : option str :=
  group_lookup name (match_groups m).

(** [pattern.match(s)]: the pattern is anchored at the start of [s]. *)
Definition re_match (r : regex) (s : str) : option Match :=
  backtrack r s []
    (fun rest g => Some {| match_end := len s - len rest; match_groups := g |}).

(** [pattern.fullmatch(s)], as a truth value: the pattern has to take the
    whole of [s]. *)
Definition fullmatch (r : regex) (s : str) : bool :=
  match backtrack r s []
          (fun rest _ => match rest with [] => Some tt | _ => None end) with
  | Some _ => true
  | None => false
  end.

(** A pattern over [bytes] sees each byte as one character. *)
Definition str_of_bytes (s : bytes) : str := map ascii_of_byte s.

Fixpoint literal (s : str) : regex :=
  match s with
  | [] => Epsilon
  | c :: t => Seq (Char c) (literal t)
  end.

(** ** The standard library and the index, as used by the mount sources

    The sources call into Python's standard library and into the index of
    [ratarmountcore]; these calls are the fields of [Environment].
    - [unescape] is [html.unescape], [unquote] is [urllib.parse.unquote].
    - [search_function name] is the [name] attribute of the codec that
      [encodings.search_function] finds, [None] when it finds none.
    - [b64decode] is [base64.b64decode], [encode data encoding] is
      [data.encode(encoding)].
    - [decode_chars raw n] is what the incremental decoder of a text stream
      yields when asked for [n] characters of [raw]: the characters and the
      number of bytes they took.
    - [guess_extension], [sha256_hexdigest] and [splitext_ext] are
      [mimetypes.guess_extension], [hashlib.sha256(...).hexdigest()] and
      [os.path.splitext(...)[1]].
    - [split_path p] is
      [SQLiteIndex.normpath(self.transform(p)).rsplit("/", 1)].
    - [decode b] is [b.decode(self.index.encoding)]. *)

Class Environment : Type := {
  unescape : str -> str;
  unquote : str -> str;
  search_function : str -> option str;
  b64decode : str -> result bytes;
  encode : str -> str -> result bytes;
  decode_chars : bytes -> Z -> result (str * Z);
  guess_extension : str -> option str;
  sha256_hexdigest : bytes -> str;
  splitext_ext : str -> str;
  split_path : str -> str * str;
  decode : bytes -> result str
}.

(** ** Rows and file infos *)

Module Row.
(** The positional tuple that [_convert_to_row] builds, by column. *)
Record t : Type := {
  path : str;
  name : str;
  offsetheader : Z;
  offset : Z;
  size : Z;
  mtime : Z;
  mode : Z;
  type : Z;
  linkname : str;
  uid : Z;
  gid : Z;
  istar : bool;
  issparse : bool;
  isgenerated : bool;
  recursiondepth : Z
}.
End Row.

Module UserData.
(** Modelled from the spec: the userdata of the index, which
    [SQLiteIndex.get_index_userdata] decodes into the header offset and the
    data offset of the row (the classes [SQLiteIndex] and [FileInfo] are not
    part of the sources at hand). *)
Record t : Type := { offsetheader : Z; offset : Z }.
End UserData.

Module FileInfo.
(** Modelled from the spec: the exposed record of an entry, with the byte
    size, the modification time, the mode bits, the link target, the owner
    and group ids and the userdata. *)
Record t : Type := {
  size : Z;
  mtime : Z;
  mode : Z;
  linkname : str;
  uid : Z;
  gid : Z;
  userdata : UserData.t
}.
End FileInfo.

(** Modelled from the spec: [SQLiteIndex.get_index_userdata] decodes the
    userdata of a file info into the locator of the index. *)
Definition get_index_userdata (userdata : UserData.t) : UserData.t := userdata.

(** Modelled from the spec: the file info that the index serves for a stored
    row; size and mode are those of the row, the userdata holds its two
    offsets. *)
Definition file_info_of_row (row : Row.t) : FileInfo.t :=
  {| FileInfo.size := Row.size row;
     FileInfo.mtime := Row.mtime row;
     FileInfo.mode := Row.mode row;
     FileInfo.linkname := Row.linkname row;
     FileInfo.uid := Row.uid row;
     FileInfo.gid := Row.gid row;
     FileInfo.userdata :=
       {| UserData.offsetheader := Row.offsetheader row;
          UserData.offset := Row.offset row |} |}.

(** Constants and tests of the module [stat]. *)
Definition S_IFMT : Z := oct "170000".
Definition S_IFREG : Z := oct "100000".
Definition S_IFLNK : Z := oct "120000".
Definition S_IFDIR : Z := oct "040000".
Definition S_ISLNK (mode : Z) : bool := Z.land mode S_IFMT =? S_IFLNK.
Definition S_ISDIR (mode : Z) : bool := Z.land mode S_IFMT =? S_IFDIR.
Definition S_ISREG (mode : Z) : bool := Z.land mode S_IFMT =? S_IFREG.

(** ** html.py *)

Module LineOffset.
Record t : Type := { line : Z; offset : Z }.

Definition eqb (a b : t) : bool :=
  (line a =? line b) && (offset a =? offset b).
End LineOffset.

Module EmbeddedFileCandidate.
Record t : Type := {
  original_url : str;
  attribute : str;
  start : LineOffset.t;
  next : option LineOffset.t
}.
End EmbeddedFileCandidate.

(** The character class of the data URL patterns: any character but a
    semicolon, a comma, a double quote or a single quote. *)
Definition DATA_URL_CLASS : regex :=
  NoneOf [";"%char; ","%char; "034"%char; "'"%char].

Definition DATA_URL_MIME_TYPE : regex :=
  Named "mime_type"
    (Seq (Plus DATA_URL_CLASS) (Seq (Char "/") (Plus DATA_URL_CLASS))).

(** The inner group of the parameters has no name and is not recorded. *)
Definition DATA_URL_PARAMETERS : regex :=
  Named "parameters" (Star (Seq (Char ";") (Star DATA_URL_CLASS))).

(** [DATA_URL_PREFIX] opens the group [data_url], which [DATA_URL_REGEX]
    closes right behind it. *)
Definition DATA_URL_REGEX : regex :=
  Named "data_url"
    (Seq (literal (lit "data:"))
       (Seq (Optional DATA_URL_MIME_TYPE)
          (Seq DATA_URL_PARAMETERS (Char ",")))).

(** A Python [dict] built from a list of pairs: a key keeps the place of its
    first occurrence and the value of its last. *)
Fixpoint dict_set (d : list (str * str)) (k v : str) : list (str * str) :=
  match d with
  | [] => [(k, v)]
  | (k', v') :: d' =>
      if str_eqb k' k then (k', v) :: d' else (k', v') :: dict_set d' k v
  end.

Definition dict (pairs : list (str * str)) : list (str * str) :=
  fold_left (fun d kv => dict_set d (fst kv) (snd kv)) pairs [].

Fixpoint dict_get (d : list (str * str)) (k default : str) : str :=
  match d with
  | [] => default
  | (k', v) :: d' => if str_eqb k' k then v else dict_get d' k default
  end.

Module HTMLDataURLParser.
(** [getpos] is the position the tokenizer of [html.parser] reports for
    the construct being handled. *)
Record t : Type := {
  files : list EmbeddedFileCandidate.t;
  _char_refs : list LineOffset.t;
  _entity_refs : list LineOffset.t;
  getpos : LineOffset.t
}.

Definition set_files (self : t) (fs : list EmbeddedFileCandidate.t) : t :=
  {| files := fs;
     _char_refs := _char_refs self;
     _entity_refs := _entity_refs self;
     getpos := getpos self |}.

Definition _update_end_offset (self : t) : t :=
  match rev (files self) with
  | [] => self
  | file :: _ =>
      if match EmbeddedFileCandidate.next file with
         | Some _ => true
         | None => false
         end
         || LineOffset.eqb (getpos self) (EmbeddedFileCandidate.start file)
      then self
      else
        set_files self
          (removelast (files self) ++
           [ {| EmbeddedFileCandidate.original_url :=
                  EmbeddedFileCandidate.original_url file;
                EmbeddedFileCandidate.attribute :=
                  EmbeddedFileCandidate.attribute file;
                EmbeddedFileCandidate.start :=
                  EmbeddedFileCandidate.start file;
                EmbeddedFileCandidate.next := Some (getpos self) |} ])
  end.

(** The body of the loop over [attributes.items()]. *)
Definition visit_attribute (attributes : list (str * str)) (self : t)
  (item : str * str) : t :=
  let (attribute, value) := item in
  if negb (startswith Ascii.eqb (lit "data:") value) then self
  else
    let comma := find Ascii.eqb (lit ",") value 0 in
    if (comma <? 0) || (comma + 1 >=? len value) then self
    else
      set_files self
        (files self ++
         [ {| EmbeddedFileCandidate.original_url :=
                dict_get attributes (lit "data-savepage-" ++ attribute) [];
              EmbeddedFileCandidate.attribute := attribute;
              EmbeddedFileCandidate.start := getpos self;
              EmbeddedFileCandidate.next := None |} ]).

(** [attrs] has the declared type [list[tuple[str, str]]]; an attribute
    without a value, which the tokenizer reports with [None], lies outside
    of it. *)
Definition handle_starttag (self : t) (tag : str) (attrs : list (str * str))
  : t :=
  let self := _update_end_offset self in
  if negb (existsb (fun kv => startswith Ascii.eqb (lit "data:") (snd kv))
             attrs)
  then self
  else
    let attributes := dict attrs in
    fold_left (visit_attribute attributes) attributes self.

Definition handle_endtag (self : t) (tag : str) : t :=
  _update_end_offset self.

Definition handle_decl (self : t) (data : str) : t :=
  _update_end_offset self.
End HTMLDataURLParser.

Module DataURLFile.
(** A [DataURLFile] is an [io.BytesIO]; [getvalue] is its whole content. *)
Record t : Type := {
  mime_type : str;
  valid : bool;
  encoding : str;
  is_base64 : bool;
  getvalue : bytes
}.

Section Init.
Context `{Environment}.

(** The body of the loop over [parameters.split(';')]; the result is
    [self.encoding] after the iteration. *)
Definition visit_parameter (encoding : str) (parameter : str) : str :=
  let parameter := lower (strip parameter) in
  if str_eqb parameter (lit "utf-8") || str_eqb parameter (lit "utf8")
  then lit "utf8"
  else if negb (contains Ascii.eqb "="%char parameter) then encoding
  else
    let (key, value) := split_once Ascii.eqb "="%char parameter in
    if negb (str_eqb (strip key) (lit "charset")) then encoding
    else
      let encoding :=
        if str_eqb (strip value) (lit "us-ascii") then lit "ascii"
        else encoding in
      match search_function (strip value) with
      | Some name => name
      | None => encoding
      end.

Definition __init__ (data_url : option str) : result t :=
  let mime_type := lit "text/plain" in
  let valid := false in
  let encoding := lit "ascii" in
  let is_base64 := false in
  let data :=
    unquote (unescape (match data_url with Some u => u | None => [] end)) in
  match re_match DATA_URL_REGEX data with
  | None =>
      Ok {| mime_type := mime_type; valid := valid; encoding := encoding;
            is_base64 := is_base64; getvalue := [] |}
  | Some m =>
      let mime_type :=
        match group m "mime_type" with
        | Some (c :: t) => c :: t
        | _ => mime_type
        end in
      let '(is_base64, encoding) :=
        match group m "parameters" with
        | Some (c :: t) =>
            let parameters := c :: t in
            (if endswith Ascii.eqb (lit ";base64") parameters then true
             else is_base64,
             fold_left visit_parameter
               (split Ascii.eqb (lit ";") parameters) encoding)
        | _ => (is_base64, encoding)
        end in
      let data := slice_from (match_end m) data in
      decoded <- (if is_base64 then b64decode data
                  else encode data encoding) ;;
      Ok {| mime_type := mime_type; valid := valid; encoding := encoding;
            is_base64 := is_base64; getvalue := decoded |}
  end.
End Init.
End DataURLFile.

Module TextIOWrapper.
(** A text stream over [buffer]; [cookie] is the position that [tell]
    reports and [seek] accepts, an offset in bytes. *)
Record t : Type := { buffer : bytes; cookie : Z }.

Definition seek (f : t) (pos : Z) : result t :=
  if pos <? 0 then Raise ValueError
  else Ok {| buffer := buffer f; cookie := pos |}.

Definition tell (f : t) : Z := cookie f.

(** [f.read(n)]: up to [n] characters from the current position. *)
Definition read `{Environment} (f : t) (n : Z) : result (str * t) :=
  '(text, consumed) <- decode_chars (slice_from (cookie f) (buffer f)) n ;;
  Ok (text, {| buffer := buffer f; cookie := cookie f + consumed |}).
End TextIOWrapper.

Module EmbeddedFile.
Record t : Type := { original_url : str; span : Z * Z }.
End EmbeddedFile.

Module HTMLMountSource.
Record t : Type := { mtime : Z; fileObject : TextIOWrapper.t }.

Definition set_fileObject (self : t) (f : TextIOWrapper.t) : t :=
  {| mtime := mtime self; fileObject := f |}.

Section Methods.
Context `{Environment}.

Definition _open_with_span (self : t) (start end_ : Z)
  : result (DataURLFile.t * t) :=
  if end_ <=? start then
    file <- DataURLFile.__init__ None ;;
    Ok (file, self)
  else
    f <- TextIOWrapper.seek (fileObject self) start ;;
    '(text, f) <- TextIOWrapper.read f (end_ - start) ;;
    file <- DataURLFile.__init__ (Some text) ;;
    Ok (file, set_fileObject self f).

Definition _convert_to_row (self : t) (file : EmbeddedFile.t)
  : result (Row.t * t) :=
  '(url_file, self) <-
    _open_with_span self (fst (EmbeddedFile.span file))
      (snd (EmbeddedFile.span file)) ;;
  let contents := DataURLFile.getvalue url_file in
  let virtual_path := EmbeddedFile.original_url file in
  let extension :=
    if endswith Ascii.eqb (lit "/javascript")
         (DataURLFile.mime_type url_file)
    then lit ".js"
    else match guess_extension (DataURLFile.mime_type url_file) with
         | Some e => e
         | None => []
         end in
  let virtual_path :=
    match virtual_path with
    | [] => sha256_hexdigest contents ++ extension
    | _ => if startswith Ascii.eqb (lit "data:") virtual_path
           then sha256_hexdigest contents ++ extension
           else virtual_path
    end in
  let virtual_path :=
    if negb (str_eqb (lower (splitext_ext virtual_path)) (lower extension))
    then virtual_path ++ extension
    else virtual_path in
  let (path, name) := split_path virtual_path in
  let mode := Z.lor S_IFREG (oct "777") in
  Ok ({| Row.path := path;
         Row.name := name;
         Row.offsetheader := fst (EmbeddedFile.span file);
         Row.offset := snd (EmbeddedFile.span file);
         Row.size := len contents;
         Row.mtime := mtime self;
         Row.mode := mode;
         Row.type := 0;
         Row.linkname := [];
         Row.uid := 0;
         Row.gid := 0;
         Row.istar := false;
         Row.issparse := false;
         Row.isgenerated := false;
         Row.recursiondepth := 0 |}, self).

Definition open (self : t) (fileInfo : FileInfo.t)
  : result (DataURLFile.t * t) :=
  let userdata := get_index_userdata (FileInfo.userdata fileInfo) in
  _open_with_span self (UserData.offsetheader userdata)
    (UserData.offset userdata).
End Methods.
End HTMLMountSource.

(** ** ar.py *)

Module FileObject.
(** A binary stream: the bytes of the archive and the current position.
    Seeking past the end is allowed and makes the next read empty. *)
Record t : Type := { data : bytes; pos : Z }.

(** [f.read(n)]: up to [n] bytes, everything that is left for a negative
    [n]. *)
Definition read (f : t) (n : Z) : bytes * t :=
  let chunk :=
    if n <? 0 then slice_from (pos f) (data f)
    else slice_to n (slice_from (pos f) (data f)) in
  (chunk, {| data := data f; pos := pos f + len chunk |}).

Definition tell (f : t) : Z := pos f.

(** [f.seek(p)] and [f.seek(d, io.SEEK_CUR)], for targets that are not
    negative. *)
Definition seek (f : t) (p : Z) : t := {| data := data f; pos := p |}.
Definition seek_cur (f : t) (d : Z) : t :=
  {| data := data f; pos := pos f + d |}.
End FileObject.

Inductive tar_type : Type := REGTYPE | SYMTYPE.

Module TarInfo.
Record t : Type := {
  name : bytes;
  linkname : bytes;
  offset : Z;
  offset_data : Z;
  size : Z;
  mtime : Z;
  uid : Z;
  gid : Z;
  mode : Z;
  type : tar_type
}.

Definition issym (info : t) : bool :=
  match type info with SYMTYPE => true | REGTYPE => false end.

(** No code path of the parser makes a directory entry. *)
Definition isdir (info : t) : bool := false.

Definition set_name (info : t) (n : bytes) : t :=
  {| name := n; linkname := linkname info; offset := offset info;
     offset_data := offset_data info; size := size info;
     mtime := mtime info; uid := uid info; gid := gid info;
     mode := mode info; type := type info |}.

Definition set_linkname (info : t) (n : bytes) : t :=
  {| name := name info; linkname := n; offset := offset info;
     offset_data := offset_data info; size := size info;
     mtime := mtime info; uid := uid info; gid := gid info;
     mode := mode info; type := type info |}.
End TarInfo.

(** The table of long names: the raw bytes in a thin archive, the list of
    entries in a regular one. *)
Inductive long_name_table : Type :=
| Raw (table : bytes)
| Entries (names : list bytes).

Definition HEADER_SIZE : Z := 60.
Definition POSIX_SYMBOL_TABLE_NAME : bytes := blit "/".
Definition GNU_INDEX_NAME : bytes := blit "//".
Definition BSD_LONG_NAME_PREFIX : bytes := blit "#1/".

Definition newline : byte := "010"%byte.
Definition nul : byte := "000"%byte.

(** [b"[0-9]* *"] *)
Definition _DECIMAL_NUMBER_REGEX : regex :=
  Seq (Star (Range "0" "9")) (Star (Char " ")).

Definition parse_int (field_bytes : bytes) (base default : Z) : result Z :=
  if negb (fullmatch _DECIMAL_NUMBER_REGEX (str_of_bytes field_bytes))
  then Raise ValueError
  else
    let field_str := bytes_strip field_bytes in
    match field_str with
    | [] => Ok default
    | _ => match int field_str base with
           | Some v => Ok v
           | None => Raise ValueError
           end
    end.

(** The truth value of [long_names]. *)
Definition truthy (long_names : option long_name_table) : bool :=
  match long_names with
  | None | Some (Raw []) | Some (Entries []) => false
  | Some _ => true
  end.

Definition table_len (long_names : option long_name_table) : Z :=
  match long_names with
  | None => 0
  | Some (Raw table) => len table
  | Some (Entries names) => len names
  end.

(** [long_names] is a list exactly when the archive is regular, so the two
    branches that return [name] for the other representation are not
    reached by the parser. *)
Definition get_long_file_name (is_thin : bool)
  (long_names : option long_name_table) (name : bytes) : bytes :=
  if truthy long_names && startswith Byte.eqb (blit "/") name
     && isdigit (tl name)
  then
    match int (tl name) 10 with
    | Some index =>
        if (index >=? 0) && (index <? table_len long_names)
        then
          match long_names with
          | Some (Entries names) =>
              if negb is_thin then nth (Z.to_nat index) names [] else name
          | Some (Raw table) =>
              if negb is_thin then name
              else
                let end_ := find Byte.eqb [x2f; newline] table index in
                if end_ >=? index then slice index end_ table else name
          | None => name
          end
        else name
    | None => name
    end
  else name.

(** [struct.unpack("16s12s6s6s8s10s2s", header_data)] on 60 bytes. *)
Definition unpack_header (header_data : bytes)
  : bytes * bytes * bytes * bytes * bytes * bytes * bytes :=
  (slice 0 16 header_data, slice 16 28 header_data, slice 28 34 header_data,
   slice 34 40 header_data, slice 40 48 header_data, slice 48 58 header_data,
   slice 58 60 header_data).

(** The [except (ValueError, struct.error)] clause around the header fields. *)
Definition reraise_value_error {A : Type} (r : result A) : result A :=
  match r with
  | Raise ValueError => Raise (RatarmountError "Invalid AR archive!")
  | _ => r
  end.

(** The [try] block of the loop: the name and the numeric fields of a
    header of 60 bytes, in the order [name], [mtime], [uid], [gid], [mode],
    [size]. *)
Definition parse_header (is_thin : bool) (header_data : bytes)
  : result (bytes * Z * Z * Z * Z * Z) :=
  let '(f_name, f_mtime, f_uid, f_gid, f_mode, f_size, f_end) :=
    unpack_header header_data in
  if negb (bytes_eqb f_end [x60; newline])
  then Raise (RatarmountError "Invalid AR file header ending characters!")
  else
    let name :=
      rstrip_of (fun b => Byte.eqb b x20 || Byte.eqb b nul) f_name in
    reraise_value_error
      (mtime <- parse_int f_mtime 10 0 ;;
       uid <- parse_int f_uid 10 0 ;;
       gid <- parse_int f_gid 10 0 ;;
       mode <- parse_int f_mode 8 (oct "660") ;;
       size <- parse_int f_size 10 0 ;;
       let mode := Z.lor mode S_IFREG in
       let mode := if is_thin then Z.lor mode S_IFLNK else mode in
       Ok (name, mtime, uid, gid, mode, size)).

(** The variables of the loop of [_parse_ar_archive]. *)
Record ar_state : Type := {
  fileObject : FileObject.t;
  files : list TarInfo.t;
  long_names : option long_name_table
}.

Inductive loop_step : Type :=
| Break
| Continue (st : ar_state)
| Fail (e : exn).

(** The branch for the header named [//]: read the table, then apply it to
    the entries that are already in [files]. *)
Definition read_gnu_index (is_thin : bool) (f : FileObject.t)
  (files : list TarInfo.t) (size : Z) : ar_state :=
  let '(long_names, f) :=
    if is_thin then
      let (table, f) := FileObject.read f size in (Raw table, f)
    else
      let (table, f) := FileObject.read f size in
      let names := split Byte.eqb [x2f; newline] table in
      if size mod 2 =? 0 then
        (Entries
           (match rev names with
            | last_name :: _ =>
                if bytes_eqb last_name [x60] || bytes_eqb last_name [newline]
                then removelast names else names
            | [] => names
            end), f)
      else (Entries names, FileObject.seek_cur f (size mod 2)) in
  {| fileObject := f;
     files :=
       map (fun file =>
              if is_thin
              then TarInfo.set_linkname file
                     (get_long_file_name is_thin (Some long_names)
                        (TarInfo.name file))
              else TarInfo.set_name file
                     (get_long_file_name is_thin (Some long_names)
                        (TarInfo.name file)))
         files;
     long_names := Some long_names |}.

(** One pass through the body of [while header_data := fileObject.read(60)]. *)
Definition iteration (is_thin : bool) (st : ar_state) : loop_step :=
  let (header_data, f) := FileObject.read (fileObject st) HEADER_SIZE in
  match header_data with
  | [] => Break
  | _ =>
      if len header_data <? HEADER_SIZE
      then Fail (RatarmountError "Encountered incomplete AR header")
      else
        let offset := FileObject.tell f in
        match parse_header is_thin header_data with
        | Raise e => Fail e
        | Ok (name, mtime, uid, gid, mode, header_size) =>
            let size := header_size in
            if bytes_eqb name POSIX_SYMBOL_TABLE_NAME then
              Continue
                {| fileObject := FileObject.seek_cur f (size + size mod 2);
                   files := files st;
                   long_names := long_names st |}
            else if bytes_eqb name GNU_INDEX_NAME then
              Continue (read_gnu_index is_thin f (files st) size)
            else
              let bsd :=
                if startswith Byte.eqb BSD_LONG_NAME_PREFIX name then
                  match int (slice_from (len BSD_LONG_NAME_PREFIX) name) 10
                  with
                  | None => Raise ValueError
                  | Some name_size =>
                      let (long_name, f) := FileObject.read f name_size in
                      if negb (len long_name =? name_size)
                      then Raise (RatarmountError
                             "Read insufficient data for BSD long file name")
                      else Ok (long_name, f, offset + name_size,
                               header_size - name_size)
                  end
                else Ok (name, f, offset, header_size) in
              match bsd with
              | Raise e => Fail e
              | Ok (name, f, offset_data, tar_size) =>
                  let '(name, linkname, type) :=
                    if truthy (long_names st) then
                      if is_thin
                      then (name,
                            get_long_file_name is_thin (long_names st) name,
                            SYMTYPE)
                      else (get_long_file_name is_thin (long_names st) name,
                            [], REGTYPE)
                    else (name, [], REGTYPE) in
                  let tar_info :=
                    {| TarInfo.name :=
                         strip_of (fun b => Byte.eqb b nul) name;
                       TarInfo.linkname := linkname;
                       TarInfo.offset := offset - HEADER_SIZE;
                       TarInfo.offset_data := offset_data;
                       TarInfo.size := tar_size;
                       TarInfo.mtime := mtime;
                       TarInfo.uid := uid;
                       TarInfo.gid := gid;
                       TarInfo.mode := mode;
                       TarInfo.type := type |} in
                  Continue
                    {| fileObject :=
                         if is_thin then FileObject.seek f offset
                         else FileObject.seek f (offset + size + size mod 2);
                       files := files st ++ [tar_info];
                       long_names := long_names st |}
              end
        end
  end.

(** The loop, cut off after [fuel] passes: [None] stands for a loop that is
    still running then. *)
Fixpoint parse_loop (is_thin : bool) (fuel : nat) (st : ar_state)
  : option (result (list TarInfo.t)) :=
  match fuel with
  | O => None
  | S fuel' =>
      match iteration is_thin st with
      | Break => Some (Ok (files st))
      | Fail e => Some (Raise e)
      | Continue st' => parse_loop is_thin fuel' st'
      end
  end.

(** Every pass reads a whole header or ends the loop, so the loop makes at
    most one pass per byte of the archive and a last one at its end. *)
Definition _parse_ar_archive_fuel (fileObject : FileObject.t) : nat :=
  S (length (FileObject.data fileObject)).

Definition _parse_ar_archive (fileObject : FileObject.t)
  : option (result (list TarInfo.t)) :=
  let (magic, fileObject) := FileObject.read fileObject 8 in
  let is_thin := bytes_eqb magic (blit "!<thin>" ++ [newline]) in
  if negb (bytes_eqb magic (blit "!<arch>" ++ [newline])) && negb is_thin
  then Some (Raise (RatarmountError "Invalid AR magic bytes"))
  else
    parse_loop is_thin (_parse_ar_archive_fuel fileObject)
      {| fileObject := fileObject; files := []; long_names := None |}.

Module ARMountSource.
(** What [_open_stencil] returns: a raw or a buffered reader over one
    stencil of the archive. *)
Inductive stencil : Type :=
| RawStenciledFile (offset size : Z)
| StenciledFile (offset size bufferSize : Z).

Record t : Type := { blockSize : Z }.

Section Methods.
Context `{Environment}.

Definition _convert_to_row (self : t) (info : TarInfo.t) : result Row.t :=
  let mode := TarInfo.mode info in
  let mode :=
    if mode =? 0 then (if TarInfo.isdir info then oct "770" else oct "660")
    else mode in
  let mode :=
    Z.lor (Z.lor mode (if TarInfo.issym info then S_IFLNK else mode))
      (if TarInfo.isdir info then S_IFDIR else S_IFREG) in
  name <- decode (TarInfo.name info) ;;
  let (path, name) := split_path name in
  linkname <- match TarInfo.linkname info with
              | [] => Ok []
              | l => decode l
              end ;;
  Ok {| Row.path := path;
        Row.name := name;
        Row.offsetheader := TarInfo.offset info;
        Row.offset := TarInfo.offset_data info;
        Row.size := TarInfo.size info;
        Row.mtime := TarInfo.mtime info;
        Row.mode := mode;
        Row.type := 0;
        Row.linkname := linkname;
        Row.uid := TarInfo.uid info;
        Row.gid := TarInfo.gid info;
        Row.istar := false;
        Row.issparse := false;
        Row.isgenerated := false;
        Row.recursiondepth := 0 |}.
End Methods.

Definition _open_stencil (self : t) (offset size buffering : Z) : stencil :=
  if buffering =? 0 then RawStenciledFile offset size
  else StenciledFile offset size
         (if buffering =? -1 then blockSize self else buffering).

Definition open (self : t) (fileInfo : FileInfo.t) (buffering : Z)
  : result stencil :=
  if S_ISLNK (FileInfo.mode fileInfo)
  then Raise (RatarmountError "Cannot read contents of symbolic link!")
  else Ok (_open_stencil self
             (UserData.offset
                (get_index_userdata (FileInfo.userdata fileInfo)))
             (FileInfo.size fileInfo) buffering).
End ARMountSource.

(** ** An environment for the examples

    [example_environment] implements the standard library for documents in
    Latin-1 whose data URLs are written in printable ASCII.  Each function
    agrees with Python's on the domain named in its comment and leaves its
    input as it is outside of it. *)

Module Example.
Definition is_decimal (c : ascii) : bool := (48 <=? code c) && (code c <=? 57).

Definition decimal_value (ds : str) : Z :=
  fold_left (fun acc c => acc * 10 + (code c - 48)) ds 0.

(** What a reference that starts at the ampersand heading [s] stands for,
    and its length: decimal character references to printable ASCII,
    closed by a semicolon, and the entities [amp], [lt], [gt] and [quot]. *)
Definition reference (s : str) : option (ascii * nat) :=
  if startswith Ascii.eqb (lit "&#") s then
    let ds := takeWhile is_decimal (skipn 2 s) in
    match ds, skipn (2 + length ds) s with
    | _ :: _, c :: _ =>
        if Ascii.eqb c ";"
           && (32 <=? decimal_value ds) && (decimal_value ds <=? 126)
           && (length ds <=? 3)%nat
        then Some (chr (decimal_value ds), (3 + length ds)%nat)
        else None
    | _, _ => None
    end
  else if startswith Ascii.eqb (lit "&amp;") s then Some ("&"%char, 5%nat)
  else if startswith Ascii.eqb (lit "&lt;") s then Some ("<"%char, 4%nat)
  else if startswith Ascii.eqb (lit "&gt;") s then Some (">"%char, 4%nat)
  else if startswith Ascii.eqb (lit "&quot;") s then Some ("034"%char, 6%nat)
  else None.

(** [replace_escapes escape s skip] rewrites every escape of [s]; [skip]
    counts the characters of an escape that are still to be dropped. *)
Fixpoint replace_escapes (escape : str -> option (ascii * nat)) (s : str)
  (skip : nat) : str :=
  match s with
  | [] => []
  | c :: t =>
      match skip with
      | S k => replace_escapes escape t k
      | O =>
          match escape s with
          | Some (x, n) => x :: replace_escapes escape t (n - 1)
          | None => c :: replace_escapes escape t 0
          end
      end
  end.

(** [html.unescape], for the references of [reference]. *)
Definition unescape (s : str) : str := replace_escapes reference s 0.

Definition hex_value (c : ascii) : option Z :=
  let n := code c in
  if (48 <=? n) && (n <=? 57) then Some (n - 48)
  else if (65 <=? n) && (n <=? 70) then Some (n - 55)
  else if (97 <=? n) && (n <=? 102) then Some (n - 87)
  else None.

(** A percent escape of an ASCII character. *)
Definition percent_escape (s : str) : option (ascii * nat) :=
  match s with
  | p :: h :: l :: _ =>
      if Ascii.eqb p "%" then
        match hex_value h, hex_value l with
        | Some a, Some b =>
            if a <? 8 then Some (chr (16 * a + b), 3%nat) else None
        | _, _ => None
        end
      else None
  | _ => None
  end.

(** [urllib.parse.unquote], for escapes of ASCII characters. *)
Definition unquote (s : str) : str := replace_escapes percent_escape s 0.

(** The codecs the examples name. *)
Definition search_function (name : str) : option str :=
  if str_eqb name (lit "utf-8") || str_eqb name (lit "utf8")
  then Some (lit "utf-8")
  else if str_eqb name (lit "ascii") || str_eqb name (lit "us-ascii")
  then Some (lit "ascii")
  else if str_eqb name (lit "latin-1") || str_eqb name (lit "iso-8859-1")
  then Some (lit "iso8859-1")
  else None.

Definition byte_of_Z (n : Z) : byte :=
  match Byte.of_N (Z.to_N n) with
  | Some b => b
  | None => x00
  end.

(** [data.encode(encoding)] for the codecs above. *)
Definition encode (data encoding : str) : result bytes :=
  if str_eqb encoding (lit "ascii") then
    if forallb (fun c => code c <? 128) data
    then Ok (map byte_of_ascii data) else Raise UnicodeEncodeError
  else if str_eqb encoding (lit "utf8") || str_eqb encoding (lit "utf-8")
  then
    Ok (flat_map
          (fun c =>
             if code c <? 128 then [byte_of_ascii c]
             else [byte_of_Z (192 + code c / 64);
                   byte_of_Z (128 + code c mod 64)])
          data)
  else if str_eqb encoding (lit "iso8859-1")
  then Ok (map byte_of_ascii data)
  else Raise LookupError.

Definition base64_value (c : ascii) : option Z :=
  let n := code c in
  if (65 <=? n) && (n <=? 90) then Some (n - 65)
  else if (97 <=? n) && (n <=? 122) then Some (n - 71)
  else if (48 <=? n) && (n <=? 57) then Some (n + 4)
  else if n =? 43 then Some 62
  else if n =? 47 then Some 63
  else None.

(** The decoder of [binascii.a2b_base64] in its lenient mode: characters
    outside the alphabet are skipped, padding ends the data once the
    group at hand is complete. *)
Fixpoint a2b_base64 (s : str) (quad_pos leftchar pads : Z) (out : bytes)
  : result bytes :=
  match s with
  | [] => if quad_pos =? 0 then Ok (rev out) else Raise BinasciiError
  | c :: t =>
      if Ascii.eqb c "=" then
        if (2 <=? quad_pos) && (4 <=? quad_pos + (pads + 1))
        then Ok (rev out)
        else a2b_base64 t quad_pos leftchar
               (if 2 <=? quad_pos then pads + 1 else pads) out
      else
        match base64_value c with
        | None => a2b_base64 t quad_pos leftchar pads out
        | Some v =>
            if quad_pos =? 0 then a2b_base64 t 1 v 0 out
            else if quad_pos =? 1 then
              a2b_base64 t 2 (v mod 16) 0
                (byte_of_Z (leftchar * 4 + v / 16) :: out)
            else if quad_pos =? 2 then
              a2b_base64 t 3 (v mod 4) 0
                (byte_of_Z (leftchar * 16 + v / 4) :: out)
            else
              a2b_base64 t 0 0 0 (byte_of_Z (leftchar * 64 + v) :: out)
        end
  end.

(** [base64.b64decode] on a [str]. *)
Definition b64decode (data : str) : result bytes :=
  if forallb (fun c => code c <? 128) data
  then a2b_base64 data 0 0 0 []
  else Raise ValueError.

(** A text stream in Latin-1: one byte per character. *)
Definition decode_chars (raw : bytes) (n : Z) : result (str * Z) :=
  let chunk := if n <? 0 then raw else slice_to n raw in
  Ok (str_of_bytes chunk, len chunk).

Definition decode (b : bytes) : result str := Ok (str_of_bytes b).
End Example.

(** SHA-256 (FIPS 180-4) over words of 32 bits held in [Z]. *)
Module SHA256.
Definition w32 (x : Z) : Z := x mod 2 ^ 32.
Definition rotr (n x : Z) : Z :=
  w32 (Z.lor (Z.shiftr x n) (Z.shiftl x (32 - n))).
Definition add (x y : Z) : Z := w32 (x + y).

(** The largest [r] below [2 ^ bits] with [r ^ 3 <= n]. *)
Fixpoint cube_root (bits : nat) (n r : Z) : Z :=
match bits with
| O => r
| S b =>
    let r' := r + 2 ^ Z.of_nat b in
    cube_root b n (if r' * r' * r' <=? n then r' else r)
end.

Definition is_prime (n : Z) : bool :=
forallb (fun d => negb (n mod Z.of_nat d =? 0))
  (seq 2 (Z.to_nat (Z.sqrt n) - 1)).

Definition primes : list Z :=
filter is_prime (map Z.of_nat (seq 2 310)).

(** The round constants: the first 32 bits of the fractional parts of the
    cube roots of the first 64 primes. *)
Definition K : list Z :=
map (fun p => w32 (cube_root 36 (p * 2 ^ 96) 0)) primes.

(** The initial hash value: the first 32 bits of the fractional parts of
    the square roots of the first 8 primes. *)
Definition H0 : list Z :=
map (fun p => w32 (Z.sqrt (p * 2 ^ 64))) (firstn 8 primes).

(** The message, the bit 1, zeros up to 56 modulo 64, and the length in
    bits on 8 bytes. *)
Definition pad (msg : list Z) : list Z :=
  let n := len msg in
  let zeros := Z.to_nat ((55 - n) mod 64) in
  msg ++ [128] ++ repeat 0 zeros
      ++ map (fun i => (8 * n / 2 ^ (8 * (7 - Z.of_nat i))) mod 256)
           (seq 0 8).

Fixpoint words (bs : list Z) (n : nat) : list Z :=
  match n, bs with
  | S n', a :: b :: c :: d :: t =>
      (((a * 256 + b) * 256 + c) * 256 + d) :: words t n'
  | _, _ => []
  end.

(** The message schedule, newest word first. *)
Fixpoint schedule (n : nat) (w : list Z) : list Z :=
  match n with
  | O => w
  | S n' =>
      let x2 := nth 1 w 0 in
      let x7 := nth 6 w 0 in
      let x15 := nth 14 w 0 in
      let x16 := nth 15 w 0 in
      let s0 :=
        Z.lxor (Z.lxor (rotr 7 x15) (rotr 18 x15)) (Z.shiftr x15 3) in
      let s1 :=
        Z.lxor (Z.lxor (rotr 17 x2) (rotr 19 x2)) (Z.shiftr x2 10) in
      schedule n' (add (add (add s1 x7) s0) x16 :: w)
  end.

Definition round (h : list Z) (kw : Z * Z) : list Z :=
  match h with
  | [a; b; c; d; e; f; g; hh] =>
      let S1 := Z.lxor (Z.lxor (rotr 6 e) (rotr 11 e)) (rotr 25 e) in
      let ch := Z.lxor (Z.land e f) (Z.land (w32 (Z.lnot e)) g) in
      let t1 := add (add (add (add hh S1) ch) (fst kw)) (snd kw) in
      let S0 := Z.lxor (Z.lxor (rotr 2 a) (rotr 13 a)) (rotr 22 a) in
      let maj :=
        Z.lxor (Z.lxor (Z.land a b) (Z.land a c)) (Z.land b c) in
      [add t1 (add S0 maj); a; b; c; add d t1; e; f; g]
  | _ => h
  end.

Definition compress (h : list Z) (block : list Z) : list Z :=
  let w := rev (schedule 48 (rev (words block 16))) in
  map (fun xy => add (fst xy) (snd xy))
    (combine h (fold_left round (combine K w) h)).

Fixpoint blocks (n : nat) (bs : list Z) (h : list Z) : list Z :=
  match n with
  | O => h
  | S n' => blocks n' (skipn 64 bs) (compress h (firstn 64 bs))
  end.

Definition digest (msg : bytes) : list Z :=
  let padded := pad (map ord msg) in
  blocks (length padded / 64) padded H0.

Definition hex_digit (n : Z) : ascii :=
  if n <? 10 then chr (48 + n) else chr (87 + n).

Definition hexdigest (msg : bytes) : str :=
  flat_map
    (fun w =>
       map (fun i => hex_digit ((w / 16 ^ (7 - Z.of_nat i)) mod 16))
         (seq 0 8))
    (digest msg).
End SHA256.

Module ExamplePaths.
(** [mimetypes.guess_extension], for the types of the examples. *)
Definition guess_extension (mime_type : str) : option str :=
  let t := lower mime_type in
  if str_eqb t (lit "text/css") then Some (lit ".css")
  else if str_eqb t (lit "text/plain") then Some (lit ".txt")
  else if str_eqb t (lit "image/png") then Some (lit ".png")
  else if str_eqb t (lit "image/webp") then Some (lit ".webp")
  else None.

Definition is_slash (c : ascii) : bool := Ascii.eqb c "/".
Definition is_dot (c : ascii) : bool := Ascii.eqb c ".".

(** [p.rsplit("/", 1)] for a path with a slash. *)
Definition rsplit_slash (p : str) : str * str :=
  (rev (tl (dropWhile (fun c => negb (is_slash c)) (rev p))),
   rev (takeWhile (fun c => negb (is_slash c)) (rev p))).

(** [os.path.splitext(p)[1]]: the last component from its last dot on,
    leading dots of the component apart. *)
Definition splitext_ext (p : str) : str :=
  let base := dropWhile is_dot (snd (rsplit_slash p)) in
  if contains Ascii.eqb "."%char base
  then "."%char :: rev (takeWhile (fun c => negb (is_dot c)) (rev base))
  else [].

(** Modelled from the spec: [SQLiteIndex.normpath] (not part of the
    sources at hand) collapses repeated separators, resolves [.] and [..],
    strips trailing separators, yields [/] for the root and clamps [..]
    above the root. *)
Definition normpath (p : str) : str :=
  let parts :=
    fold_left
      (fun stack part =>
         match part with
         | [] => stack
         | _ => if str_eqb part (lit ".") then stack
                else if str_eqb part (lit "..") then removelast stack
                else stack ++ [part]
         end)
      (split Ascii.eqb (lit "/") p) [] in
  match parts with
  | [] => lit "/"
  | _ => flat_map (fun part => "/"%char :: part) parts
  end.

(** The default [transform] is the identity. *)
Definition split_path (p : str) : str * str := rsplit_slash (normpath p).
End ExamplePaths.

#[export] Instance example_environment : Environment := {
  unescape := Example.unescape;
  unquote := Example.unquote;
  search_function := Example.search_function;
  b64decode := Example.b64decode;
  encode := Example.encode;
  decode_chars := Example.decode_chars;
  guess_extension := ExamplePaths.guess_extension;
  sha256_hexdigest := SHA256.hexdigest;
  splitext_ext := ExamplePaths.splitext_ext;
  split_path := ExamplePaths.split_path;
  decode := Example.decode
}.

(** ** Direct readings of the patterns

    The functions below say in one pass over the text what the backtracking
    matcher finds for the patterns of the sources; the properties part proves
    that they agree with [backtrack]. *)

Section Greedy.
Context {R : Type}.

(** A starred class with the continuation [k]: the longest run first. *)
Fixpoint greedy (p : ascii -> bool) (s : str) (g : groups) (k : @cont R)
  : option R :=
  match s with
  | c :: t => if p c then orelse (greedy p t g k) (k s g) else k s g
  | [] => k s g
  end.
End Greedy.

Definition not_special (x : ascii) : bool :=
  negb (contains Ascii.eqb x [";"%char; ","%char; "034"%char; "'"%char]).

Definition parameter_char (x : ascii) : bool :=
  negb (contains Ascii.eqb x [","%char; "034"%char; "'"%char]).

(** A slash inside the run of class characters that heads [t], with a class
    character behind it. *)
Fixpoint inner_slash (t : str) : bool :=
  match t with
  | c :: t' =>
      not_special c
      && (inner_slash t'
          || (Ascii.eqb "/" c
              && match t' with
                 | c' :: _ => not_special c'
                 | [] => false
                 end))
  | [] => false
  end.

(** The text behind the parameters that head [s]. *)
Definition parameters_rest (s : str) : str :=
  match s with
  | c :: _ => if Ascii.eqb ";" c then dropWhile parameter_char s else s
  | [] => s
  end.

(** The parameters that head [d] and the text behind their comma. *)
Definition scan_parameters (d : str) : option (str * str) :=
  let parameters :=
    match d with
    | c :: _ => if Ascii.eqb ";" c then takeWhile parameter_char d else []
    | [] => []
    end in
  match skipn (length parameters) d with
  | c :: rest => if Ascii.eqb "," c then Some (parameters, rest) else None
  | [] => None
  end.

(** [DATA_URL_REGEX.match(data)] read from left to right. *)
Definition scan_data_url (data : str) : option Match :=
  if startswith Ascii.eqb (lit "data:") data then
    let s := skipn 5 data in
    let mime :=
      match s with
      | c :: t =>
          if not_special c
          then if inner_slash t then Some (Some (takeWhile not_special s))
               else None
          else Some None
      | [] => Some None
      end in
    match mime with
    | None => None
    | Some mime_type =>
        match scan_parameters (dropWhile not_special s) with
        | None => None
        | Some (parameters, rest) =>
            Some {| match_end := len data - len rest;
                    match_groups :=
                      ("data_url"%string,
                       firstn (length data - length rest) data)
                      :: ("parameters"%string, parameters)
                      :: match mime_type with
                         | Some m => [("mime_type"%string, m)]
                         | None => []
                         end |}
        end
    end
  else None.

(** ** The layout of a header field, said directly

    A numeric field is well formed for a base when it is a run of digits of
    that base followed by space characters only; its value is the number the
    digits write, or the default when there are none. *)

Definition digit_below (base : Z) (b : byte) : bool :=
  is_digit_byte b && (ord b - 48 <? base).

Definition digits_value (base : Z) (ds : bytes) : Z :=
  fold_left (fun acc b => acc * base + (ord b - 48)) ds 0.

Definition well_formed_field (base : Z) (field : bytes) : bool :=
  forallb (Byte.eqb x20) (dropWhile is_digit_byte field)
  && forallb (digit_below base) (takeWhile is_digit_byte field).

Definition field_value (base default : Z) (field : bytes) : Z :=
  match takeWhile is_digit_byte field with
  | [] => default
  | ds => digits_value base ds
  end.

(** The wording of the specification: the digits of a field may have
    whitespace on either side. *)
Definition digits_between_whitespace (field : bytes) : bool :=
  isdigit (bytes_strip field).

(** The numeric fields of a header all have the layout of their base. *)
Definition numeric_fields_well_formed (header_data : bytes) : bool :=
  let '(_, f_mtime, f_uid, f_gid, f_mode, f_size, _) :=
    unpack_header header_data in
  well_formed_field 10 f_mtime && well_formed_field 10 f_uid
  && well_formed_field 10 f_gid && well_formed_field 8 f_mode
  && well_formed_field 10 f_size.

(** A header whose owner id has a blank on either side of its digits. *)
Definition header_with_leading_blank : bytes :=
  blit "bar/            " ++ blit "1700000000  " ++ blit " 1000 "
  ++ blit "1000  " ++ blit "100644  " ++ blit "4         "
  ++ [x60; newline].

(** ** The wording of the specification about data URLs *)

(** The text that [DataURLFile.__init__] matches against the pattern. *)
Definition url_text `{Environment} (data_url : option str) : str :=
  unquote (unescape (match data_url with Some u => u | None => [] end)).

(** A parameter token that equals [utf-8] or [utf8], blanks and case
    apart. *)
Definition is_utf8_token (token : str) : bool :=
  let parameter := lower (strip token) in
  str_eqb parameter (lit "utf-8") || str_eqb parameter (lit "utf8").

(** A parameter token of the form [charset=...], blanks and case apart. *)
Definition is_charset_parameter (token : str) : bool :=
  let parameter := lower (strip token) in
  contains Ascii.eqb "="%char parameter
  && str_eqb (strip (fst (split_once Ascii.eqb "="%char parameter)))
       (lit "charset").

(** The specification's test for base64: the last parameter token, trimmed
    and compared without regard to case, is [base64]. *)
Definition last_parameter_is_base64 (parameters : str) : bool :=
  str_eqb
    (lower (strip (last (split Ascii.eqb (lit ";") parameters) [])))
    (lit "base64").

(** The text behind the last [c] of [s], the whole of [s] when it has none. *)
Definition after_last (c : ascii) (s : str) : str :=
  rev (takeWhile (fun x => negb (Ascii.eqb c x)) (rev s)).

(** The data URLs of the examples. *)
Definition css_url : str :=
  lit "data:text/css;utf8,body {&#37;20font-family: Arial, sans-serif };".
Definition css_latin1_url : str := lit "data:text/css;utf8;charset=latin-1,x".
Definition upper_case_base64_url : str := lit "data:image/png;BASE64,AAAA".
Definition blank_base64_url : str := lit "data:image/png; base64,AAAA".
Definition base64_url : str :=
  lit "data:text/plain;base64,VGVzdCBQYWdlIHdpdGggZW1iZWQu".

(** A file info with the mode of a thin archive member. *)
Definition symlink_file_info : FileInfo.t :=
  {| FileInfo.size := 4;
     FileInfo.mtime := 1700000000;
     FileInfo.mode := oct "120644";
     FileInfo.linkname := lit "bar";
     FileInfo.uid := 1000;
     FileInfo.gid := 1000;
     FileInfo.userdata :=
       {| UserData.offsetheader := 8; UserData.offset := 68 |} |}.

(** ** The wording of the specification about start tags *)

(** A value carries a payload when something follows its first comma. *)
Definition carries_payload (value : str) : bool :=
match dropWhile (fun c => negb (Ascii.eqb "," c)) value with
| _ :: _ :: _ => true
| _ => false
end.

Definition is_data_url_with_payload (value : str) : bool :=
startswith Ascii.eqb (lit "data:") value && carries_payload value.

(** The candidate that [handle_starttag] records for an attribute. *)
Definition candidate_of (attributes : list (str * str)) (pos : LineOffset.t)
  (item : str * str) : EmbeddedFileCandidate.t :=
{| EmbeddedFileCandidate.original_url :=
     dict_get attributes (lit "data-savepage-" ++ fst item) [];
   EmbeddedFileCandidate.attribute := fst item;
   EmbeddedFileCandidate.start := pos;
   EmbeddedFileCandidate.next := None |}.

(** A parser that has seen nothing yet, at the start of the document. *)
Definition fresh_parser : HTMLDataURLParser.t :=
{| HTMLDataURLParser.files := [];
   HTMLDataURLParser._char_refs := [];
   HTMLDataURLParser._entity_refs := [];
   HTMLDataURLParser.getpos :=
     {| LineOffset.line := 1; LineOffset.offset := 0 |} |}.

Definition poster_and_src : list (str * str) :=
[(lit "poster", lit "data:image/png;base64,"); (lit "src", lit "data:,abc");
 (lit "data-savepage-src", lit "a.mp4")].




(** ** The wording of the specification about the rows of an archive *)

(** A fresh binary stream over [data], as [io.BytesIO(data)] or a file that
    was just opened. *)
Definition BytesIO (data : bytes) : FileObject.t :=
{| FileObject.data := data; FileObject.pos := 0 |}.

(** The name field of the header that starts at [offset], as the parser
    reads it. *)
Definition record_name (data : bytes) (offset : Z) : bytes :=
rstrip_of (fun b => Byte.eqb b x20 || Byte.eqb b nul)
  (slice 0 16
     (fst (FileObject.read
             {| FileObject.data := data; FileObject.pos := offset |}
             HEADER_SIZE))).

(** The length [N] that a BSD long name [#1/N] announces. *)
Definition bsd_name_size (name : bytes) : option Z :=
if startswith Byte.eqb BSD_LONG_NAME_PREFIX name
then int (slice_from (len BSD_LONG_NAME_PREFIX) name) 10
else None.

(** The offsets of a row: the header lies in the stream behind the magic
    bytes, the data start behind the header, or behind the long name that
    follows a BSD header, and not beyond the end of the stream. *)
Definition offsets_in_stream (data : bytes) (info : TarInfo.t) : Prop :=
8 <= TarInfo.offset info
/\ TarInfo.offset info < TarInfo.offset_data info
/\ TarInfo.offset_data info <= len data
/\ match bsd_name_size (record_name data (TarInfo.offset info)) with
   | Some N =>
       0 <= N /\ TarInfo.offset_data info - TarInfo.offset info = 60 + N
   | None => TarInfo.offset_data info - TarInfo.offset info = 60
   end.

(** What the record [//] does to a row that is already in [files]. *)
Definition apply_long_names (is_thin : bool) (table : long_name_table)
  (file : TarInfo.t) : TarInfo.t :=
if is_thin
then TarInfo.set_linkname file
       (get_long_file_name is_thin (Some table) (TarInfo.name file))
else TarInfo.set_name file
       (get_long_file_name is_thin (Some table) (TarInfo.name file)).

(** The table that the record [//] of [size] bytes leaves in [long_names],
    read from the stream [f] behind the header. *)
Definition read_long_names (is_thin : bool) (f : FileObject.t) (size : Z)
  : long_name_table :=
let table := fst (FileObject.read f size) in
if is_thin then Raw table
else
  let names := split Byte.eqb [x2f; newline] table in
  if size mod 2 =? 0 then
    Entries
      (match rev names with
       | last_name :: _ =>
           if bytes_eqb last_name [x60] || bytes_eqb last_name [newline]
           then removelast names else names
       | [] => names
       end)
  else Entries names.

(** ** Archives for the examples *)

Definition pad_right (width : nat) (s : bytes) : bytes :=
s ++ repeat x20 (width - length s).

(** A header of 60 bytes with the given fields. *)
Definition ar_header (name mtime uid gid mode size : string) : bytes :=
pad_right 16 (blit name) ++ pad_right 12 (blit mtime)
++ pad_right 6 (blit uid) ++ pad_right 6 (blit gid)
++ pad_right 8 (blit mode) ++ pad_right 10 (blit size) ++ [x60; newline].

(** A thin archive with one member of four bytes, which lie outside the
    archive. *)
Definition thin_archive : bytes :=
blit "!<thin>" ++ [newline]
++ ar_header "bar/" "1700000000" "1000" "1000" "100644" "4".

(** A regular archive that ends in the middle of its only member. *)
Definition truncated_archive : bytes :=
blit "!<arch>" ++ [newline]
++ ar_header "bar/" "1700000000" "1000" "1000" "100644" "100"
++ blit "foo".

(** The rows that the parser makes of the two archives. *)
Definition thin_row : TarInfo.t :=
{| TarInfo.name := blit "bar/"; TarInfo.linkname := [];
   TarInfo.offset := 8; TarInfo.offset_data := 68;
   TarInfo.size := 4; TarInfo.mtime := 1700000000;
   TarInfo.uid := 1000; TarInfo.gid := 1000;
   TarInfo.mode := oct "120644"; TarInfo.type := REGTYPE |}.

Definition truncated_row : TarInfo.t :=
{| TarInfo.name := blit "bar/"; TarInfo.linkname := [];
   TarInfo.offset := 8; TarInfo.offset_data := 68;
   TarInfo.size := 100; TarInfo.mtime := 1700000000;
   TarInfo.uid := 1000; TarInfo.gid := 1000;
   TarInfo.mode := oct "100644"; TarInfo.type := REGTYPE |}.

(** A regular archive with a BSD long name. *)
Definition bsd_archive : bytes :=
blit "!<arch>" ++ [newline]
++ ar_header "#1/20" "1700000000" "1000" "1000" "100644" "24"
++ blit "a-long-bsd-file-name" ++ blit "foo" ++ [newline].

(** A regular archive whose table of long names comes after the member that
    refers to it, and the state of the parser in front of the table. *)
Definition late_index_archive : bytes :=
blit "!<arch>" ++ [newline]
++ ar_header "/0" "1700000000" "1000" "1000" "100644" "2" ++ blit "hi"
++ ar_header "//" "" "" "" "" "24"
++ blit "long-name-number-zero/" ++ [newline; newline].


(** A thin archive whose member states the mode of a directory. *)
Definition thin_archive_with_directory_mode : bytes :=
blit "!<thin>" ++ [newline]
++ ar_header "bar/" "1700000000" "1000" "1000" "40755" "4".

(** A start tag whose data URL has a payload of one character. *)
Definition one_character_payload : list (str * str) :=
[(lit "src", lit "data:,x")].

(** A data URL whose colon is written as a character reference. *)
Definition escaped_colon_url : str := lit "data&#58;text/plain,hi".

(** A thin archive with its table of long names in front, as [llvm-ar]
    writes it; the names of the members are offsets into the table. *)
Definition thin_archive_with_table : bytes :=
blit "!<thin>" ++ [newline]
++ ar_header "//" "" "" "" "" "32"
++ blit "bar/" ++ [newline] ++ blit "1bar/" ++ [newline]
++ blit "folder/nested-file/" ++ [newline; newline]
++ ar_header "/0" "0" "0" "0" "644" "4"
++ ar_header "/5" "0" "0" "0" "644" "5"
++ ar_header "/11" "0" "0" "0" "644" "7".

(** * Further parts of the two modules

    What follows covers code that the definitions above leave out: the
    entries and errors of the loop of [_parse_ar_archive], the patterns of
    [handle_data] and of [_find_tag_attribute_spans] with the spans of
    their groups, the handlers as the tokenizer calls them, and the line
    offsets of [gather_embedded_files]. *)

(** ** The entries of [_parse_ar_archive] *)

(** The entry that a pass of the loop appends for a header named [name]
    whose data, or whose BSD long name [raw_name], start at [offset]. *)
Definition emitted_entry (is_thin : bool)
  (long_names : option long_name_table) (raw_name : bytes)
  (offset offset_data size mtime uid gid mode : Z) : TarInfo.t :=
{| TarInfo.name :=
     strip_of (fun b => Byte.eqb b nul)
       (if truthy long_names && negb is_thin
        then get_long_file_name is_thin long_names raw_name
        else raw_name);
   TarInfo.linkname :=
     if truthy long_names && is_thin
     then get_long_file_name is_thin long_names raw_name
     else [];
   TarInfo.offset := offset;
   TarInfo.offset_data := offset_data;
   TarInfo.size := size;
   TarInfo.mtime := mtime;
   TarInfo.uid := uid;
   TarInfo.gid := gid;
   TarInfo.mode := mode;
   TarInfo.type := if truthy long_names && is_thin then SYMTYPE else REGTYPE |}.

(** Whether the stream starts with the magic bytes of a thin archive. *)
Definition is_thin_archive (data : bytes) : bool :=
startswith Byte.eqb (blit "!<thin>" ++ [newline]) data.

(** The name that a member has in the archive: the name field of its header,
    or the BSD long name behind the header. *)
Definition member_name (data : bytes) (info : TarInfo.t) : bytes :=
match bsd_name_size (record_name data (TarInfo.offset info)) with
| Some N =>
    slice (TarInfo.offset info + HEADER_SIZE)
      (TarInfo.offset info + HEADER_SIZE + N) data
| None => record_name data (TarInfo.offset info)
end.

(** The size field of the header of a row: the size of the row and the
    length of the BSD long name that precedes its data. *)
Definition header_size (info : TarInfo.t) : Z :=
TarInfo.size info
+ (TarInfo.offset_data info - TarInfo.offset info - HEADER_SIZE).




(** A regular archive with two members of odd sizes, the second one with a
    BSD long name. *)
Definition two_member_archive : bytes :=
blit "!<arch>" ++ [newline]
++ ar_header "foo/" "1700000000" "1000" "1000" "100644" "3"
++ blit "bar" ++ [newline]
++ ar_header "#1/4" "1700000001" "0" "0" "" "9"
++ blit "name" ++ blit "hello" ++ [newline].

Definition first_member : TarInfo.t :=
{| TarInfo.name := blit "foo/"; TarInfo.linkname := [];
   TarInfo.offset := 8; TarInfo.offset_data := 68;
   TarInfo.size := 3; TarInfo.mtime := 1700000000;
   TarInfo.uid := 1000; TarInfo.gid := 1000;
   TarInfo.mode := oct "100644"; TarInfo.type := REGTYPE |}.

Definition two_member_rows : list TarInfo.t :=
[ first_member;
  {| TarInfo.name := blit "name"; TarInfo.linkname := [];
     TarInfo.offset := 72; TarInfo.offset_data := 136;
     TarInfo.size := 5; TarInfo.mtime := 1700000001;
     TarInfo.uid := 0; TarInfo.gid := 0;
     TarInfo.mode := oct "100660"; TarInfo.type := REGTYPE |} ].

(** The rows of [thin_archive_with_table]. *)
Definition thin_member_with_table : TarInfo.t :=
{| TarInfo.name := blit "/0"; TarInfo.linkname := blit "bar";
   TarInfo.offset := 100; TarInfo.offset_data := 160;
   TarInfo.size := 4; TarInfo.mtime := 0;
   TarInfo.uid := 0; TarInfo.gid := 0;
   TarInfo.mode := oct "120644"; TarInfo.type := SYMTYPE |}.

Definition thin_rows_with_table : list TarInfo.t :=
[ thin_member_with_table;
  {| TarInfo.name := blit "/5"; TarInfo.linkname := blit "1bar";
     TarInfo.offset := 160; TarInfo.offset_data := 220;
     TarInfo.size := 5; TarInfo.mtime := 0;
     TarInfo.uid := 0; TarInfo.gid := 0;
     TarInfo.mode := oct "120644"; TarInfo.type := SYMTYPE |};
  {| TarInfo.name := blit "/11";
     TarInfo.linkname := blit "folder/nested-file";
     TarInfo.offset := 220; TarInfo.offset_data := 280;
     TarInfo.size := 7; TarInfo.mtime := 0;
     TarInfo.uid := 0; TarInfo.gid := 0;
     TarInfo.mode := oct "120644"; TarInfo.type := SYMTYPE |} ].

(** The errors that the loop of [_parse_ar_archive] raises. *)
Definition loop_errors : list exn :=
[ RatarmountError "Encountered incomplete AR header";
  RatarmountError "Invalid AR file header ending characters!";
  RatarmountError "Invalid AR archive!";
  RatarmountError "Read insufficient data for BSD long file name";
  ValueError ].

(** A regular archive whose BSD long name states no length. *)
Definition bsd_archive_without_length : bytes :=
blit "!<arch>" ++ [newline] ++ ar_header "#1/x" "0" "0" "0" "644" "4".

(** ** Patterns with alternatives and the spans of their groups

    The patterns of [handle_data] and of [_find_tag_attribute_spans] ask
    for the span of a group and use [|].  A [pattern] puts alternatives,
    sequences, [?] and named groups around pieces of [regex]; the groups
    inside a piece are not recorded.  [match_pattern n] runs [backtrack] on
    the pieces, with the same order of alternatives, and records the span
    of a group as offsets into the whole text, whose length is [n]. *)

Inductive pattern : Type :=
| Re (r : regex)
| Alt (p q : pattern)
| Then (p q : pattern)
| Maybe (p : pattern)
| Group (name : string) (p : pattern).

Definition spans : Type := list (string * (Z * Z)).

Fixpoint match_pattern {R : Type} (n : Z) (p : pattern) (s : str)
  (g : spans) (k : str -> spans -> option R) : option R :=
  match p with
  | Re r => backtrack r s [] (fun s1 _ => k s1 g)
  | Alt p1 p2 => orelse (match_pattern n p1 s g k) (match_pattern n p2 s g k)
  | Then p1 p2 =>
      match_pattern n p1 s g (fun s1 g1 => match_pattern n p2 s1 g1 k)
  | Maybe p1 => orelse (match_pattern n p1 s g k) (k s g)
  | Group name p1 =>
      match_pattern n p1 s g (fun s1 g1 =>
        k s1 ((name, (n - len s, n - len s1)) :: g1))
  end.

Module SpanMatch.
(** A match object: [m.start()], [m.end()] and the spans of the groups
    that took part in the match. *)
Record t : Type := { start : Z; end_ : Z; groups : spans }.

Fixpoint lookup (name : string) (g : spans) : option (Z * Z) :=
  match g with
  | [] => None
  | (n, v) :: g' => if String.eqb n name then Some v else lookup name g'
  end.

(** [m.span(name)]: [(-1, -1)] for a group that took no part. *)
Definition span (m : t) (name : string) : Z * Z :=
  match lookup name (groups m) with
  | Some v => v
  | None => (-1, -1)
  end.

(** [m.group(name)] on the text [data] that was matched: [None] for a
    group that took no part. *)
Definition group (data : str) (m : t) (name : string) : option str :=
  match lookup name (groups m) with
  | Some (a, b) => Some (slice a b data)
  | None => None
  end.
End SpanMatch.

(** [pattern.match(data, pos)] for [0 <= pos]. *)
Definition match_at (p : pattern) (data : str) (pos : Z)
  : option SpanMatch.t :=
  if len data <? pos then None
  else
    match_pattern (len data) p (slice_from pos data) []
      (fun rest g =>
         Some {| SpanMatch.start := pos;
                 SpanMatch.end_ := len data - len rest;
                 SpanMatch.groups := g |}).

(** [pattern.finditer(data)]: the matches from left to right, each search
    starting where the match before ended.  Behind an empty match the
    search moves on by one character. *)
Fixpoint finditer_from (fuel : nat) (p : pattern) (data : str) (pos : Z)
  : list SpanMatch.t :=
  match fuel with
  | O => []
  | S fuel' =>
      if len data <? pos then []
      else
        match match_at p data pos with
        | Some m =>
            m :: finditer_from fuel' p data
                   (if SpanMatch.end_ m <=? pos then pos + 1
                    else SpanMatch.end_ m)
        | None => finditer_from fuel' p data (pos + 1)
        end
  end.

Definition finditer (p : pattern) (data : str) : list SpanMatch.t :=
  finditer_from (S (length data)) p data 0.

(** [DATA_URL_PREFIX] followed by the group [data] over the characters
    other than [closing], and the parenthesis that closes [data_url]. *)
Definition DATA_URL_WITH_DATA (closing : ascii) : pattern :=
  Group "data_url"
    (Then
       (Re (Seq (literal (lit "data:"))
              (Seq (Optional DATA_URL_MIME_TYPE)
                 (Seq DATA_URL_PARAMETERS (Char ",")))))
       (Group "data" (Re (Plus (NoneOf [closing]))))).

Definition DATA_URL_IN_CSS : pattern :=
  Then
    (Maybe
       (Then (Re (literal (lit "/*savepage-url=")))
          (Then (Group "original_url" (Re (Plus (NoneOf ["*"%char]))))
             (Re (literal (lit "*/"))))))
    (Then (Re (literal (lit "url(")))
       (Then (DATA_URL_WITH_DATA ")") (Re (Char ")")))).

Definition DATA_URL_SINGLE_QUOTE : pattern :=
  Then (Re (Char "'")) (Then (DATA_URL_WITH_DATA "'") (Re (Char "'"))).

Definition DATA_URL_DOUBLE_QUOTE : pattern :=
  Then (Re (Char "034"))
    (Then (DATA_URL_WITH_DATA "034") (Re (Char "034"))).

Module HTMLDataURLParserCallbacks.
Import HTMLDataURLParser.

(** How a callback ends: it returns, or it raises [IndexError]; either way
    with the parser as the callback leaves it. *)
Inductive outcome : Type :=
| Returns (self : t)
| RaisesIndexError (self : t).

Definition parser_of (o : outcome) : t :=
  match o with
  | Returns self | RaisesIndexError self => self
  end.

(** The candidate that [handle_data] makes of a match of [DATA_URL_IN_CSS];
    the group [original_url] is [None] when it took no part. *)
Definition candidate_of_match (self : t) (data : str) (m : SpanMatch.t)
  : EmbeddedFileCandidate.t :=
  let line := LineOffset.line (getpos self) in
  let offset := LineOffset.offset (getpos self) in
  {| EmbeddedFileCandidate.original_url :=
       match SpanMatch.group data m "original_url" with
       | Some url => url
       | None => []
       end;
     EmbeddedFileCandidate.attribute := [];
     EmbeddedFileCandidate.start :=
       {| LineOffset.line := line;
          LineOffset.offset := offset + fst (SpanMatch.span m "data_url") |};
     EmbeddedFileCandidate.next :=
       Some {| LineOffset.line := line;
               LineOffset.offset :=
                 offset + snd (SpanMatch.span m "data_url") |} |}.

(** [files.extend] takes the candidates from the generator one by one.
    Those of [DATA_URL_IN_CSS] come first.  The patterns
    [DATA_URL_SINGLE_QUOTE] and [DATA_URL_DOUBLE_QUOTE] have no group
    [original_url], so that [match.group('original_url')] raises
    [IndexError] for the first match of either; the candidates taken before
    stay in [files]. *)
Definition handle_data (self : t) (data : str) : outcome :=
  let self := _update_end_offset self in
  let self :=
    set_files self
      (files self ++
       map (candidate_of_match self data) (finditer DATA_URL_IN_CSS data)) in
  match finditer DATA_URL_SINGLE_QUOTE data,
        finditer DATA_URL_DOUBLE_QUOTE data with
  | [], [] => Returns self
  | _, _ => RaisesIndexError self
  end.

Definition handle_entityref (self : t) (name : str) : t :=
  {| files := files self;
     _char_refs := _char_refs self;
     _entity_refs := _entity_refs self ++ [getpos self];
     getpos := getpos self |}.

Definition handle_charref (self : t) (name : str) : t :=
  {| files := files self;
     _char_refs := _char_refs self ++ [getpos self];
     _entity_refs := _entity_refs self;
     getpos := getpos self |}.
End HTMLDataURLParserCallbacks.

(** The text of a style sheet with two data URLs, the first one behind a
    comment with its original URL, and of one with a quoted data URL. *)
Definition style_sheet : str :=
lit "a{src:/*savepage-url=/f.ttf*/url(data:font/ttf;base64,AAAA)}"
++ lit "b{background:url(data:image/png;base64,QUJD)}".

Definition quoted_style_sheet : str :=
lit "b{background:url('data:image/png;base64,QUJD')}".

(** ** [_find_tag_attribute_spans] *)

Definition is_letter (c : ascii) : bool :=
  let n := code c in
  ((65 <=? n) && (n <=? 90)) || ((97 <=? n) && (n <=? 122)).

(** [[A-Za-z0-9.-]] *)
Definition is_name_character (c : ascii) : bool :=
  let n := code c in
  is_letter c || ((48 <=? n) && (n <=? 57)) || (n =? 46) || (n =? 45).

(** ["[A-Za-z][A-Za-z0-9.-]*"] *)
Definition HTML_NAME_PATTERN : regex :=
  Seq (Class is_letter) (Star (Class is_name_character)).

Definition HTML_ATTRIBUTE_VALUE_PATTERN : pattern :=
  Group "value"
    (Alt (Re (Seq (Char "'") (Seq (Star (NoneOf ["'"%char])) (Char "'"))))
       (Alt
          (Re (Seq (Char "034")
                 (Seq (Star (NoneOf ["034"%char])) (Char "034"))))
          (Re (Star (Class is_name_character))))).

Definition HTML_ATTRIBUTE_PATTERN : pattern :=
  Then (Group "attribute" (Re HTML_NAME_PATTERN))
    (Maybe
       (Then
          (Re (Seq (Star (Class isspace))
                 (Seq (Char "=") (Star (Class isspace)))))
          HTML_ATTRIBUTE_VALUE_PATTERN)).

Definition HTML_ATTRIBUTE_REGEX : pattern :=
  Then (Re (Plus (Class isspace))) HTML_ATTRIBUTE_PATTERN.

Definition HTML_START_TAG_REGEX : pattern :=
  Re (Seq (Char "<") HTML_NAME_PATTERN).

(** [l[i]], with the indices below zero counting from the end; [None] is
    [IndexError]. *)
Definition getitem {A : Type} (l : list A) (i : Z) : option A :=
  let i := if i <? 0 then i + len l else i in
  if (i <? 0) || (len l <=? i) then None
  else nth_error l (Z.to_nat i).

(** What [_find_tag_attribute_spans] comes to: a pair of offsets, or the
    [IndexError] of [data[result[0]]]. *)
Inductive attribute_span : Type :=
| Span (first last : Z)
| IndexError.

(** The loop over the attributes of the tag, cut off after [fuel] passes:
    [None] stands for a loop that is still running then. *)
Fixpoint attribute_loop (fuel : nat) (data attribute : str) (position : Z)
  : option attribute_span :=
  match fuel with
  | O => None
  | S fuel' =>
      match match_at HTML_ATTRIBUTE_REGEX data position with
      | None => Some (Span 0 0)
      | Some m =>
          let position := SpanMatch.end_ m in
          if match SpanMatch.group data m "attribute" with
             | Some name => str_eqb name attribute
             | None => false
             end
          then
            let result := SpanMatch.span m "value" in
            match getitem data (fst result) with
            | None => Some IndexError
            | Some c =>
                if Ascii.eqb c "'" || Ascii.eqb c "034"
                then Some (Span (fst result + 1) (snd result - 1))
                else Some (Span (fst result) (snd result))
            end
          else attribute_loop fuel' data attribute position
      end
  end.

(** Every pass takes two characters of [data] or more. *)
Definition _find_tag_attribute_spans (data attribute : str)
  : option attribute_span :=
  match match_at HTML_START_TAG_REGEX data 0 with
  | None => Some (Span 0 0)
  | Some startTag =>
      attribute_loop (S (length data)) data attribute
        (SpanMatch.end_ startTag)
  end.

(** ** The line offsets of [gather_embedded_files] *)

(** The inner loop over the newlines of a chunk, from [position] on, cut
    off after [fuel] passes. *)
Fixpoint line_starts (fuel : nat) (data : str) (position : Z)
  (processed_data_size : Z) (lineOffsets : list Z) : list Z :=
  match fuel with
  | O => lineOffsets
  | S fuel' =>
      let position := find Ascii.eqb ["010"%char] data position in
      if position >=? 0 then
        let position := position + 1 in
        line_starts fuel' data position processed_data_size
          (lineOffsets ++ [processed_data_size + position])
      else lineOffsets
  end.

(** One pass of the loop over the chunks that [fileobj.read] returns: the
    offsets of the lines and the number of characters seen so far. *)
Definition scan_chunk (state : list Z * Z) (data : str) : list Z * Z :=
  let (lineOffsets, processed_data_size) := state in
  (line_starts (S (length data)) data 0 processed_data_size lineOffsets,
   processed_data_size + len data).

(** [lineOffsets] and [file_size] behind the loop, for the chunks that the
    reads returned. *)
Definition line_offsets (chunks : list str) : list Z * Z :=
  fold_left scan_chunk chunks ([0], 0).

(** [lineOffsets[line_offset.line - 1] + line_offset.offset] *)
Definition to_char_offset (lineOffsets : list Z) (line_offset : LineOffset.t)
  : option Z :=
  match getitem lineOffsets (LineOffset.line line_offset - 1) with
  | Some start => Some (start + LineOffset.offset line_offset)
  | None => None
  end.

(** The least number of characters that a match takes. *)
Fixpoint min_width (r : regex) : nat :=
  match r with
  | Epsilon => 0
  | Class _ => 1
  | Seq r1 r2 => min_width r1 + min_width r2
  | Optional _ => 0
  | Star _ => 0
  | Plus r1 => min_width r1
  | Named _ r1 => min_width r1
  end.

Fixpoint min_pattern_width (p : pattern) : nat :=
  match p with
  | Re r => min_width r
  | Alt p1 p2 => Nat.min (min_pattern_width p1) (min_pattern_width p2)
  | Then p1 p2 => min_pattern_width p1 + min_pattern_width p2
  | Maybe _ => 0
  | Group _ p1 => min_pattern_width p1
  end.

(** The text behind the comma of the data URL that heads [data], read from
    left to right as [scan_data_url] reads it. *)
Definition data_url_payload (data : str) : option str :=
  if startswith Ascii.eqb (lit "data:") data then
    let s := skipn 5 data in
    if match s with
       | c :: t => not_special c && negb (inner_slash t)
       | [] => false
       end
    then None
    else option_map snd (scan_parameters (dropWhile not_special s))
  else None.

(** The characters of [[^c]]. *)
Definition other_than (closing : ascii) (x : ascii) : bool :=
  negb (contains Ascii.eqb x [closing]).

(** The data URL that heads [s], with a payload that is not empty and that
    [closing] ends: the payload and the text behind [closing]. *)
Definition scan_closed_data_url (closing : ascii) (s : str)
  : option (str * str) :=
  match data_url_payload s with
  | Some rest =>
      match takeWhile (other_than closing) rest,
            dropWhile (other_than closing) rest with
      | c :: t, _ :: post => Some (c :: t, post)
      | _, _ => None
      end
  | None => None
  end.

(** A data URL in [data] from the offset [a] to the offset [b], as
    [closing] ends it: its payload is not empty and holds no [closing], and
    [closing] stands at [b]. *)
Definition closed_data_url (closing : ascii) (data : str) (a b : Z) : Prop :=
  0 <= a /\ a + 7 <= b /\ b < len data
  /\ startswith Ascii.eqb (lit "data:") (slice_from a data) = true
  /\ getitem data b = Some closing
  /\ exists payload post,
       data_url_payload (slice_from a data) = Some (payload ++ closing :: post)
       /\ payload <> []
       /\ forallb (other_than closing) payload = true
       /\ b = len data - (len post + 1).

(** ** The calls of the tokenizer

    While [feed] scans the text, [html.parser] calls the handlers one after
    the other, each with [getpos] at the construct that it reports.
    [run_callbacks] runs the handlers for a sequence of such calls, up to
    the first one that raises. *)

Inductive callback : Type :=
| StartTag (tag : str) (attrs : list (str * str))
| EndTag (tag : str)
| Data (data : str)
| Decl (data : str)
| EntityRef (name : str)
| CharRef (name : str).

Definition at_position (self : HTMLDataURLParser.t) (pos : LineOffset.t)
  : HTMLDataURLParser.t :=
  {| HTMLDataURLParser.files := HTMLDataURLParser.files self;
     HTMLDataURLParser._char_refs := HTMLDataURLParser._char_refs self;
     HTMLDataURLParser._entity_refs := HTMLDataURLParser._entity_refs self;
     HTMLDataURLParser.getpos := pos |}.

Definition dispatch (self : HTMLDataURLParser.t)
  (call : LineOffset.t * callback) : HTMLDataURLParserCallbacks.outcome :=
  let self := at_position self (fst call) in
  match snd call with
  | StartTag tag attrs =>
      HTMLDataURLParserCallbacks.Returns
        (HTMLDataURLParser.handle_starttag self tag attrs)
  | EndTag tag =>
      HTMLDataURLParserCallbacks.Returns
        (HTMLDataURLParser.handle_endtag self tag)
  | Data data => HTMLDataURLParserCallbacks.handle_data self data
  | Decl data =>
      HTMLDataURLParserCallbacks.Returns
        (HTMLDataURLParser.handle_decl self data)
  | EntityRef name =>
      HTMLDataURLParserCallbacks.Returns
        (HTMLDataURLParserCallbacks.handle_entityref self name)
  | CharRef name =>
      HTMLDataURLParserCallbacks.Returns
        (HTMLDataURLParserCallbacks.handle_charref self name)
  end.

Fixpoint run_callbacks (self : HTMLDataURLParser.t)
  (calls : list (LineOffset.t * callback))
  : HTMLDataURLParserCallbacks.outcome :=
  match calls with
  | [] => HTMLDataURLParserCallbacks.Returns self
  | call :: calls' =>
      match dispatch self call with
      | HTMLDataURLParserCallbacks.Returns self' => run_callbacks self' calls'
      | HTMLDataURLParserCallbacks.RaisesIndexError self' =>
          HTMLDataURLParserCallbacks.RaisesIndexError self'
      end
  end.

(** A candidate that is closed ends somewhere else than it starts. *)
Definition closed_elsewhere (candidate : EmbeddedFileCandidate.t) : Prop :=
  match EmbeddedFileCandidate.next candidate with
  | Some next =>
      LineOffset.eqb next (EmbeddedFileCandidate.start candidate) = false
  | None => True
  end.

(** What a later call may do to a candidate: nothing, or close it. *)
Definition kept (old new : EmbeddedFileCandidate.t) : Prop :=
  EmbeddedFileCandidate.original_url new
    = EmbeddedFileCandidate.original_url old
  /\ EmbeddedFileCandidate.attribute new = EmbeddedFileCandidate.attribute old
  /\ EmbeddedFileCandidate.start new = EmbeddedFileCandidate.start old
  /\ (EmbeddedFileCandidate.next old = None
      \/ EmbeddedFileCandidate.next new = EmbeddedFileCandidate.next old).

(** The files of the parser after some calls: those it had, each one kept,
    and behind them the new ones. *)
Definition extends (old new : list EmbeddedFileCandidate.t) : Prop :=
  exists older newer, new = older ++ newer /\ Forall2 kept old older.

(** A video without tag at the end, a style sheet and an image, as the
    tokenizer reports them. *)
Definition page_calls : list (LineOffset.t * callback) :=
[ ({| LineOffset.line := 1; LineOffset.offset := 0 |},
   StartTag (lit "video") poster_and_src);
  ({| LineOffset.line := 2; LineOffset.offset := 0 |},
   Data style_sheet);
  ({| LineOffset.line := 3; LineOffset.offset := 4 |},
   StartTag (lit "img") one_character_payload);
  ({| LineOffset.line := 3; LineOffset.offset := 26 |},
   EndTag (lit "body")) ].

(** The spans [g] lie between the offsets [lo] and [hi]. *)
Definition spans_within (lo hi : Z) (g : spans) : Prop :=
  Forall (fun group => lo <= fst (snd group)
                       /\ fst (snd group) <= snd (snd group)
                       /\ snd (snd group) <= hi) g.

(** A name of [HTML_NAME_PATTERN]. *)
Definition is_html_name (s : str) : bool :=
  match s with
  | c :: t => is_letter c && forallb is_name_character t
  | [] => false
  end.

(** A start tag whose first attribute has the name [name] and the value
    [value] between two [quote]s. *)
Definition start_tag_with (tag blank name : str) (quote : ascii)
  (value rest : str) : str :=
  "<"%char :: tag ++ blank ++ name
  ++ "="%char :: quote :: value ++ quote :: rest.

(** The offsets behind the newlines of [s], counted from [i] for its first
    character. *)
Fixpoint offsets_behind_newlines (s : str) (i : Z) : list Z :=
  match s with
  | [] => []
  | c :: t =>
      if Ascii.eqb "010" c
      then (i + 1) :: offsets_behind_newlines t (i + 1)
      else offsets_behind_newlines t (i + 1)
  end.

(** A text of three lines, read in two chunks that split its second line. *)
Definition three_line_chunks : list str :=
[ lit "<html>" ++ ["010"%char] ++ lit "<bo";
  lit "dy>" ++ ["010"%char] ++ lit "</html>" ].

(** The value of the last pair of [attrs] with the name [k], [default]
    when there is none. *)
Definition last_value (attrs : list (str * str)) (k default : str) : str :=
  fold_left (fun value kv => if str_eqb (fst kv) k then snd kv else value)
    attrs default.

(** A start tag with two original URLs for its [src]. *)
Definition twice_saved_src : list (str * str) :=
[ (lit "data-savepage-src", lit "a.png"); (lit "src", lit "data:,abc");
  (lit "data-savepage-src", lit "b.png") ].


(** * Properties *)

(** ** Sequences *)

Section SequenceFacts.
Context {A : Type} (p : A -> bool).

Lemma takeWhile_dropWhile (s : list A) :
  takeWhile p s ++ dropWhile p s = s.
Proof.
  induction s as [|c t IH]; simpl; [reflexivity|].
  destruct (p c); simpl; [now rewrite IH | reflexivity].
Qed.

Lemma takeWhile_all (s : list A) : forallb p (takeWhile p s) = true.
Proof.
  induction s as [|c t IH]; simpl; [reflexivity|].
  destruct (p c) eqn:E; simpl; [now rewrite E | reflexivity].
Qed.

Lemma dropWhile_head (s : list A) c t :
  dropWhile p s = c :: t -> p c = false.
Proof.
  induction s as [|x s IH]; simpl; [discriminate|].
  destruct (p x) eqn:E; [exact IH|].
  intros [= <- <-]; exact E.
Qed.

Lemma dropWhile_app_all (s t : list A) :
  forallb p s = true -> dropWhile p (s ++ t) = dropWhile p t.
Proof.
  induction s as [|x s IH]; simpl; [reflexivity|].
  intros H; apply andb_true_iff in H as [Hx Hs]; rewrite Hx; auto.
Qed.

Lemma dropWhile_length (s : list A) :
  (length (dropWhile p s) <= length s)%nat.
Proof.
  induction s as [|x s IH]; simpl; [lia|].
  destruct (p x); simpl; lia.
Qed.
End SequenceFacts.

(** ** The matcher *)

Section MatcherFacts.
Context {R : Type}.
Implicit Types (k : @cont R) (s : str) (g : groups).

(** A starred class is [greedy]; [step] is the matcher of the class. *)
Lemma star_class p step fuel s g k :
  (forall s g k, step s g k = backtrack (Class p) s g k) ->
  (length s <= fuel)%nat ->
  star step fuel s g k = greedy p s g k.
Proof.
  intros Hstep.
  revert s g; induction fuel as [|fuel IH]; intros s g Hlen.
  - destruct s; [reflexivity | simpl in Hlen; lia].
  - destruct s as [|c t]; simpl; rewrite Hstep; [reflexivity|].
    simpl. destruct (p c); [|reflexivity].
    replace (length t <? S (length t))%nat with true
      by (symmetry; apply Nat.ltb_lt; lia).
    rewrite IH by (simpl in Hlen; lia). reflexivity.
Qed.

(** A continuation that rejects every text headed by a character of the
    class sees the text behind the longest run only. *)
Lemma greedy_longest p s g k :
  (forall c t, p c = true -> k (c :: t) g = None) ->
  greedy p s g k = k (dropWhile p s) g.
Proof.
  intros Hk; induction s as [|c t IH]; simpl; [reflexivity|].
  destruct (p c) eqn:E; [|reflexivity].
  rewrite IH, (Hk c t E). now destruct (k (dropWhile p t) g).
Qed.
End MatcherFacts.

(** ** Header fields *)

Lemma code_ascii_of_byte (b : byte) : code (ascii_of_byte b) = ord b.
Proof. destruct b; reflexivity. Qed.

Lemma fullmatch_decimal (s : str) :
  fullmatch _DECIMAL_NUMBER_REGEX s =
  match dropWhile (Ascii.eqb " ")
          (dropWhile (fun x => (code "0" <=? code x) && (code x <=? code "9"))
             s) with
  | [] => true
  | _ :: _ => false
  end.
Proof.
  set (digit := fun x => (code "0" <=? code x) && (code x <=? code "9")).
  unfold fullmatch, _DECIMAL_NUMBER_REGEX, Range, Char.
  fold digit. cbn [backtrack].
  rewrite (star_class digit) by (reflexivity || lia).
  rewrite greedy_longest.
  - rewrite (star_class (Ascii.eqb " ")) by (reflexivity || lia).
    rewrite greedy_longest by reflexivity.
    now destruct (dropWhile _ (dropWhile _ s)).
  - intros c t Hc.
    rewrite (star_class (Ascii.eqb " ")) by (reflexivity || lia).
    rewrite greedy_longest by reflexivity.
    cbn [dropWhile]. destruct (Ascii.eqb " " c) eqn:E; [|reflexivity].
    apply Ascii.eqb_eq in E; subst c; discriminate Hc.
Qed.

Lemma dropWhile_map {A B : Type} (f : A -> B) (p : B -> bool) (s : list A) :
  dropWhile p (map f s) = map f (dropWhile (fun x => p (f x)) s).
Proof.
  induction s as [|x s IH]; simpl; [reflexivity|].
  destruct (p (f x)); [exact IH | reflexivity].
Qed.

Lemma dropWhile_ext {A : Type} (p q : A -> bool) (s : list A) :
  (forall x, p x = q x) -> dropWhile p s = dropWhile q s.
Proof.
  intros E; induction s as [|x s IH]; simpl; [reflexivity|].
  rewrite E, IH. reflexivity.
Qed.

Lemma space_ascii_of_byte (b : byte) :
  Ascii.eqb " " (ascii_of_byte b) = Byte.eqb x20 b.
Proof. destruct b; reflexivity. Qed.

Lemma fullmatch_decimal_bytes (field : bytes) :
  fullmatch _DECIMAL_NUMBER_REGEX (str_of_bytes field) =
  forallb (Byte.eqb x20) (dropWhile is_digit_byte field).
Proof.
  rewrite fullmatch_decimal. unfold str_of_bytes.
  rewrite !dropWhile_map.
  rewrite (dropWhile_ext
             (fun x => (code "0" <=? code (ascii_of_byte x))
                       && (code (ascii_of_byte x) <=? code "9"))
             is_digit_byte)
    by (intros x; now rewrite code_ascii_of_byte).
  rewrite (dropWhile_ext (fun x => Ascii.eqb " " (ascii_of_byte x))
             (Byte.eqb x20))
    by apply space_ascii_of_byte.
  induction (dropWhile is_digit_byte field) as [|x s IH]; [reflexivity|].
  simpl. destruct (Byte.eqb x20 x); [exact IH | reflexivity].
Qed.

Lemma digit_not_space (b : byte) :
  is_digit_byte b = true -> is_ascii_space b = false.
Proof. destruct b; cbv; congruence. Qed.

Lemma x20_is_space (b : byte) :
  Byte.eqb x20 b = true -> is_ascii_space b = true.
Proof. destruct b; cbv; congruence. Qed.

Lemma dropWhile_all {A : Type} (p : A -> bool) (s : list A) :
  forallb p s = true -> dropWhile p s = [].
Proof.
  induction s as [|x s IH]; simpl; [reflexivity|].
  intros H; apply andb_true_iff in H as [-> Hs]; auto.
Qed.

Lemma forallb_impl {A : Type} (p q : A -> bool) (s : list A) :
  (forall x, p x = true -> q x = true) ->
  forallb p s = true -> forallb q s = true.
Proof.
  intros I; induction s as [|x s IH]; simpl; [reflexivity|].
  intros H; apply andb_true_iff in H as [Hx Hs].
  now rewrite (I x Hx), IH.
Qed.

(** Stripping a run of digits followed by blanks leaves the digits. *)
Lemma bytes_strip_digits (ds sp : bytes) :
  forallb is_digit_byte ds = true ->
  forallb (Byte.eqb x20) sp = true ->
  bytes_strip (ds ++ sp) = ds.
Proof.
  intros Hd Hs.
  assert (Hsp : forallb is_ascii_space sp = true)
    by (eapply forallb_impl; [apply x20_is_space | exact Hs]).
  unfold bytes_strip, strip_of, lstrip_of, rstrip_of.
  destruct ds as [|d ds].
  - simpl. rewrite (dropWhile_all _ sp Hsp). reflexivity.
  - simpl in Hd. apply andb_true_iff in Hd as [Hd Hds].
    simpl. rewrite (digit_not_space d Hd).
    change (d :: ds ++ sp) with ((d :: ds) ++ sp).
    rewrite rev_app_distr, dropWhile_app_all
      by (rewrite forallb_forall in *; intros x Hx; apply Hsp;
          now apply in_rev).
    destruct (rev (d :: ds)) as [|l r] eqn:E.
    + apply (f_equal (@length _)) in E. rewrite length_rev in E.
      discriminate E.
    + assert (Hl : is_digit_byte l = true).
      { assert (In l (d :: ds)) by (apply in_rev; rewrite E; now left).
        destruct H as [<-|H]; [exact Hd|].
        rewrite forallb_forall in Hds; auto. }
      simpl. rewrite (digit_not_space l Hl).
      rewrite <- E. apply rev_involutive.
Qed.

Lemma int_digits_valid (base : Z) (ds : bytes) (acc : Z) (seen : bool) :
  forallb (digit_below base) ds = true ->
  (ds <> [] \/ seen = true) ->
  int_digits base ds acc seen =
  Some (fold_left (fun a b => a * base + (ord b - 48)) ds acc).
Proof.
  revert acc seen; induction ds as [|d ds IH]; intros acc seen Hall Hne.
  - destruct Hne as [Hne | ->]; [congruence | reflexivity].
  - simpl in Hall. apply andb_true_iff in Hall as [Hd Hds].
    simpl. unfold digit_below in Hd. rewrite Hd.
    apply IH; [exact Hds | now right].
Qed.

Lemma int_digits_invalid (base : Z) (ds : bytes) (acc : Z) (seen : bool) :
  forallb is_digit_byte ds = true ->
  forallb (digit_below base) ds = false ->
  int_digits base ds acc seen = None.
Proof.
  revert acc seen; induction ds as [|d ds IH]; intros acc seen Hdig Hbad.
  - discriminate Hbad.
  - simpl in Hdig, Hbad. apply andb_true_iff in Hdig as [Hd Hds].
    simpl. unfold digit_below in Hbad. rewrite Hd in *. simpl in *.
    destruct (ord d - 48 <? base); simpl in *.
    + apply IH; assumption.
    + replace (ord d =? 95) with false; [reflexivity|].
      symmetry. apply Z.eqb_neq. unfold is_digit_byte in Hd. lia.
Qed.

Lemma digit_no_sign (d : byte) :
  is_digit_byte d = true -> (ord d =? 45) = false /\ (ord d =? 43) = false.
Proof. unfold is_digit_byte. lia. Qed.

(** [int] on a non-empty run of digits. *)
Lemma int_of_digits (base : Z) (ds : bytes) :
  ds <> [] -> forallb is_digit_byte ds = true ->
  int ds base =
  if forallb (digit_below base) ds then Some (digits_value base ds) else None.
Proof.
  intros Hne Hdig. unfold int.
  rewrite <- (app_nil_r ds) at 1.
  rewrite bytes_strip_digits by (auto; reflexivity).
  destruct ds as [|d ds]; [congruence|].
  assert (Hd : is_digit_byte d = true)
    by (simpl in Hdig; now apply andb_true_iff in Hdig as [? _]).
  destruct (digit_no_sign d Hd) as [-> ->].
  destruct (forallb (digit_below base) (d :: ds)) eqn:E.
  - now apply int_digits_valid; [|left].
  - now apply int_digits_invalid.
Qed.

(** What [parse_int] does with a field, in terms of its layout. *)
Lemma parse_int_layout (field : bytes) (base default : Z) :
  parse_int field base default =
  if well_formed_field base field then Ok (field_value base default field)
  else Raise ValueError.
Proof.
  unfold parse_int, well_formed_field, field_value.
  rewrite fullmatch_decimal_bytes.
  destruct (forallb (Byte.eqb x20) (dropWhile is_digit_byte field)) eqn:Hsp;
    [|reflexivity].
  simpl.
  replace (bytes_strip field) with (takeWhile is_digit_byte field).
  2:{ rewrite <- (takeWhile_dropWhile is_digit_byte field) at 2.
      symmetry. apply bytes_strip_digits; auto using takeWhile_all. }
  destruct (takeWhile is_digit_byte field) as [|d ds] eqn:E; [reflexivity|].
  rewrite int_of_digits; [|discriminate|rewrite <- E; apply takeWhile_all].
  now destruct (forallb (digit_below base) (d :: ds)).
Qed.

Lemma parse_int_trailing_spaces (ds : bytes) (n : nat) (base default : Z) :
  ds <> [] -> forallb (digit_below base) ds = true ->
  parse_int (ds ++ repeat x20 n) base default = Ok (digits_value base ds).
Proof.
  intros Hne Hds.
  assert (Hdig : forallb is_digit_byte ds = true).
  { eapply forallb_impl; [|exact Hds].
    intros x Hx; unfold digit_below in Hx.
    now apply andb_true_iff in Hx as [? _]. }
  assert (Hsp : forallb (Byte.eqb x20) (repeat x20 n) = true)
    by (induction n; simpl; auto).
  assert (Htake : takeWhile is_digit_byte (ds ++ repeat x20 n) = ds).
  { clear Hne Hds. induction ds as [|d ds IH]; simpl.
    - destruct n; reflexivity.
    - simpl in Hdig. apply andb_true_iff in Hdig as [-> Hds].
      now rewrite IH. }
  assert (Hdrop : dropWhile is_digit_byte (ds ++ repeat x20 n) = repeat x20 n).
  { rewrite dropWhile_app_all by exact Hdig. destruct n; reflexivity. }
  rewrite parse_int_layout. unfold well_formed_field, field_value.
  rewrite Htake, Hdrop, Hsp, Hds. simpl.
  destruct ds; [congruence | reflexivity].
Qed.

Lemma parse_int_blank_default (n : nat) (base default : Z) :
  parse_int (repeat x20 n) base default = Ok default.
Proof.
  rewrite parse_int_layout. unfold well_formed_field, field_value.
  assert (Hsp : forallb (Byte.eqb x20) (repeat x20 n) = true)
    by (induction n; simpl; auto).
  destruct n; [reflexivity|].
  simpl. simpl in Hsp. rewrite Hsp. reflexivity.
Qed.

Lemma parse_int_rejects_other_bytes (field : bytes) (b : byte)
  (base default : Z) :
  In b field -> is_digit_byte b = false -> b <> x20 ->
  parse_int field base default = Raise ValueError.
Proof.
  intros Hin Hnd Hns. rewrite parse_int_layout. unfold well_formed_field.
  replace (forallb (Byte.eqb x20) (dropWhile is_digit_byte field)) with false;
    [reflexivity|].
  symmetry. apply not_true_is_false. intros Hall.
  rewrite forallb_forall in Hall.
  rewrite <- (takeWhile_dropWhile is_digit_byte field) in Hin.
  apply in_app_or in Hin as [Hin | Hin].
  - pose proof (takeWhile_all is_digit_byte field) as Ht.
    rewrite forallb_forall in Ht. rewrite (Ht b Hin) in Hnd. discriminate.
  - apply Hall in Hin. apply Byte.byte_dec_bl in Hin. congruence.
Qed.

(** A blank in front of a digit fails the field. *)
Lemma parse_int_rejects_leading_space (rest : bytes) (d : byte)
  (base default : Z) :
  In d rest -> is_digit_byte d = true ->
  parse_int (x20 :: rest) base default = Raise ValueError.
Proof.
  intros Hin Hd. rewrite parse_int_layout. unfold well_formed_field.
  cbn [dropWhile]. change (is_digit_byte x20) with false. cbn iota.
  replace (forallb (Byte.eqb x20) (x20 :: rest)) with false; [reflexivity|].
  symmetry. apply not_true_is_false. intros Hall.
  rewrite forallb_forall in Hall.
  specialize (Hall d (or_intror Hin)). apply Byte.byte_dec_bl in Hall.
  subst d. discriminate Hd.
Qed.

(** C2, as amended.  A header with the right terminator parses exactly when
    each of its numeric fields ([mtime], [uid], [gid], [mode], [size]) is a
    run of digits of its base (octal for [mode], decimal for the others)
    followed by space characters only.  The value of a field is the number
    its digits write, and the declared default (octal 660 for [mode], zero
    for the others) when it has no digit.  Any other content, whitespace in
    front of the digits included, fails the record. *)
Theorem parse_header_layout (is_thin : bool) (header_data : bytes) :
  let '(f_name, f_mtime, f_uid, f_gid, f_mode, f_size, f_end) :=
    unpack_header header_data in
  parse_header is_thin header_data =
  if negb (bytes_eqb f_end [x60; newline])
  then Raise (RatarmountError "Invalid AR file header ending characters!")
  else if numeric_fields_well_formed header_data
  then
    Ok (rstrip_of (fun b => Byte.eqb b x20 || Byte.eqb b nul) f_name,
        field_value 10 0 f_mtime,
        field_value 10 0 f_uid,
        field_value 10 0 f_gid,
        (let mode := Z.lor (field_value 8 (oct "660") f_mode) S_IFREG in
         if is_thin then Z.lor mode S_IFLNK else mode),
        field_value 10 0 f_size)
  else Raise (RatarmountError "Invalid AR archive!").
Proof.
  unfold parse_header, numeric_fields_well_formed.
  destruct (unpack_header header_data)
    as [[[[[[f_name f_mtime] f_uid] f_gid] f_mode] f_size] f_end].
  destruct (negb (bytes_eqb f_end [x60; newline])); [reflexivity|].
  rewrite !parse_int_layout.
  destruct (well_formed_field 10 f_mtime); [|reflexivity].
  destruct (well_formed_field 10 f_uid); [|reflexivity].
  destruct (well_formed_field 10 f_gid); [|reflexivity].
  destruct (well_formed_field 8 f_mode); [|reflexivity].
  destruct (well_formed_field 10 f_size); reflexivity.
Qed.

(** A header with blanks behind its digits, and the header of a table of
    long names, whose unused fields are blank and take the defaults. *)
Example parse_header_padded_fields :
  parse_header false
    (ar_header "bar/" "1700000000" "1000" "1000" "100644" "4") =
    Ok (blit "bar/", 1700000000, 1000, 1000, oct "100644", 4)
  /\ parse_header false (ar_header "//" "" "" "" "" "24") =
     Ok (blit "//", 0, 0, 0, oct "100660", 24).
Proof. split; vm_compute; reflexivity. Qed.

(** C2, as stated, fails: the record below has 60 bytes, the right
    terminator and digits between whitespace in each numeric field, yet the
    blank in front of its owner id makes the parsing of the record fail. *)
Lemma parse_header_leading_blank_fails :
  len header_with_leading_blank = 60
  /\ (let '(_, f_mtime, f_uid, f_gid, f_mode, f_size, _) :=
        unpack_header header_with_leading_blank in
      f_uid = blit " 1000 "
      /\ forallb digits_between_whitespace
           [f_mtime; f_uid; f_gid; f_mode; f_size] = true)
  /\ parse_int (blit " 1000 ") 10 0 = Raise ValueError
  /\ parse_header false header_with_leading_blank =
     Raise (RatarmountError "Invalid AR archive!").
Proof. vm_compute. repeat split; reflexivity. Qed.

(** ** The data URL pattern *)

Section PatternFacts.
Context {R : Type}.
Implicit Types (k : @cont R) (s : str) (g : groups).

Lemma backtrack_literal (l : str) s g k :
  backtrack (literal l) s g k =
  if startswith Ascii.eqb l s then k (skipn (length l) s) g else None.
Proof.
  revert s; induction l as [|c l IH]; intros s; [reflexivity|].
  destruct s as [|x t]; [reflexivity|].
  cbn [literal backtrack Char startswith].
  destruct (Ascii.eqb c x); [apply IH | reflexivity].
Qed.

Lemma orelse_none (a : option R) : orelse a None = a.
Proof. now destruct a. Qed.

Lemma orelse_same (b c : bool) (x : option R) :
  orelse (if b then x else None) (if c then x else None) =
  if b || c then x else None.
Proof. destruct b, c, x; reflexivity. Qed.
End PatternFacts.

Lemma not_special_parameter_char (c : ascii) :
  not_special c = true -> parameter_char c = true.
Proof.
  unfold not_special, parameter_char, contains. cbn [existsb].
  destruct (Ascii.eqb c ";"), (Ascii.eqb c ","), (Ascii.eqb c "034"),
    (Ascii.eqb c "'"); simpl; congruence.
Qed.

Lemma not_special_no_comma (c : ascii) :
  not_special c = true -> Ascii.eqb "," c = false.
Proof.
  unfold not_special, contains. cbn [existsb]. rewrite (Ascii.eqb_sym "," c).
  destruct (Ascii.eqb c ";"), (Ascii.eqb c ","); simpl; congruence.
Qed.

Lemma not_special_no_semicolon (c : ascii) :
  not_special c = true -> Ascii.eqb ";" c = false.
Proof.
  unfold not_special, contains. cbn [existsb]. rewrite (Ascii.eqb_sym ";" c).
  destruct (Ascii.eqb c ";"); simpl; congruence.
Qed.

Lemma special_no_slash (c : ascii) :
  not_special c = false -> Ascii.eqb "/" c = false.
Proof.
  intros H. destruct (Ascii.eqb "/" c) eqn:E; [|reflexivity].
  apply Ascii.eqb_eq in E; subst c. discriminate H.
Qed.

Lemma parameter_char_special (c : ascii) :
  not_special c = false -> Ascii.eqb ";" c = false -> parameter_char c = false.
Proof.
  unfold not_special, parameter_char, contains. cbn [existsb].
  rewrite (Ascii.eqb_sym ";" c).
  destruct (Ascii.eqb c ";"), (Ascii.eqb c ","), (Ascii.eqb c "034"),
    (Ascii.eqb c "'"); simpl; congruence.
Qed.

Lemma parameters_rest_after_class (t : str) :
  parameters_rest (dropWhile not_special t) = dropWhile parameter_char t.
Proof.
  induction t as [|c t IH]; [reflexivity|].
  cbn [dropWhile]. destruct (not_special c) eqn:E.
  - now rewrite (not_special_parameter_char c E).
  - cbn [parameters_rest]. destruct (Ascii.eqb ";" c) eqn:Es; [reflexivity|].
    cbn [dropWhile]. now rewrite (parameter_char_special c E Es).
Qed.

Section ParameterFacts.
Context {R : Type}.
Implicit Types (k : @cont R) (s : str) (g : groups).

Lemma parameter_step x t g k :
  backtrack (Seq (Char ";") (Star DATA_URL_CLASS)) (x :: t) g k =
  if Ascii.eqb ";" x
  then star (backtrack DATA_URL_CLASS) (length t) t g k
  else None.
Proof. reflexivity. Qed.

(** The starred group of the parameters, for a continuation that wants a
    comma next: the parameters are the longest run that a semicolon heads
    and that holds no comma and no quote. *)
Lemma star_parameters fuel s g k :
  (forall c t g', Ascii.eqb "," c = false -> k (c :: t) g' = None) ->
  (length s <= fuel)%nat ->
  star (backtrack (Seq (Char ";") (Star DATA_URL_CLASS))) fuel s g k =
  k (parameters_rest s) g.
Proof.
  intros Hk. revert s g.
  induction fuel as [|fuel IH]; intros s g Hlen.
  - destruct s; [reflexivity | simpl in Hlen; lia].
  - destruct s as [|x t]; [reflexivity|].
    cbn [star]. rewrite parameter_step.
    unfold parameters_rest.
    destruct (Ascii.eqb ";" x) eqn:Ex; [|reflexivity].
    rewrite (star_class not_special) by (reflexivity || lia).
    rewrite greedy_longest.
    + replace (length (dropWhile not_special t) <? length (x :: t))%nat
        with true.
      2:{ symmetry. apply Nat.ltb_lt.
          pose proof (dropWhile_length not_special t). simpl. lia. }
      rewrite IH.
      2:{ pose proof (dropWhile_length not_special t).
          simpl in Hlen. lia. }
      rewrite parameters_rest_after_class.
      rewrite (Hk x t g) by (apply Ascii.eqb_eq in Ex; now subst x).
      rewrite orelse_none. cbn [dropWhile].
      apply Ascii.eqb_eq in Ex. subst x. reflexivity.
    + intros c t' Hc.
      destruct (length (c :: t') <? length (x :: t))%nat eqn:El;
        [|reflexivity].
      apply Nat.ltb_lt in El.
      rewrite IH by (simpl in *; lia).
      unfold parameters_rest.
      rewrite (not_special_no_semicolon c Hc).
      apply Hk, not_special_no_comma, Hc.
Qed.
End ParameterFacts.

Lemma skipn_takeWhile {A : Type} (p : A -> bool) (s : list A) :
  skipn (length (takeWhile p s)) s = dropWhile p s.
Proof.
  induction s as [|c t IH]; simpl; [reflexivity|].
  destruct (p c); simpl; [exact IH | reflexivity].
Qed.

Lemma firstn_dropWhile {A : Type} (p : A -> bool) (s : list A) :
  firstn (length s - length (dropWhile p s)) s = takeWhile p s.
Proof.
  induction s as [|c t IH]; [reflexivity|].
  cbn [dropWhile takeWhile]. destruct (p c) eqn:E.
  - pose proof (dropWhile_length p t).
    replace (length (c :: t) - length (dropWhile p t))%nat
      with (S (length t - length (dropWhile p t))) by (cbn [length]; lia).
    cbn [firstn]. now rewrite IH.
  - now rewrite Nat.sub_diag.
Qed.

(** The parameters that [scan_parameters] takes, said with
    [parameters_rest]. *)
Lemma scan_parameters_rest (s : str) :
  scan_parameters s =
  match parameters_rest s with
  | c :: rest =>
      if Ascii.eqb "," c
      then Some (firstn (length s - length (parameters_rest s)) s, rest)
      else None
  | [] => None
  end.
Proof.
  unfold scan_parameters, parameters_rest.
  destruct s as [|x t]; [reflexivity|].
  destruct (Ascii.eqb ";" x).
  - rewrite skipn_takeWhile, firstn_dropWhile. reflexivity.
  - cbn [length skipn]. now rewrite Nat.sub_diag.
Qed.

Section DataURLPattern.
Context {R : Type}.
Implicit Types (k : @cont R) (s : str) (g : groups).

Lemma parameters_then_comma k s g :
  backtrack (Seq DATA_URL_PARAMETERS (Char ",")) s g k =
  match scan_parameters s with
  | Some (parameters, rest) => k rest (("parameters"%string, parameters) :: g)
  | None => None
  end.
Proof.
  change (backtrack (Seq DATA_URL_PARAMETERS (Char ",")) s g k)
    with (star (backtrack (Seq (Char ";") (Star DATA_URL_CLASS)))
            (length s) s g
            (fun s1 g1 =>
               backtrack (Char ",") s1
                 (("parameters"%string, firstn (length s - length s1) s)
                  :: g1) k)).
  rewrite star_parameters;
    [|intros c t g' Hc; cbv beta; cbn [backtrack Char]; now rewrite Hc|lia].
  rewrite scan_parameters_rest.
  destruct (parameters_rest s) as [|c rest]; [reflexivity|].
  cbn [backtrack Char]. now destruct (Ascii.eqb "," c).
Qed.

(** The pattern behind the MIME type fails on a text that a class
    character heads. *)
Lemma parameters_then_comma_class k c t g :
  not_special c = true ->
  backtrack (Seq DATA_URL_PARAMETERS (Char ",")) (c :: t) g k = None.
Proof.
  intros Hc. rewrite parameters_then_comma. unfold scan_parameters.
  rewrite (not_special_no_semicolon c Hc). cbn [length skipn].
  now rewrite (not_special_no_comma c Hc).
Qed.
End DataURLPattern.

Section MimeTypePattern.
Context {R : Type}.
Implicit Types (k : @cont R) (s : str) (g : groups).

Lemma plus_class k s g :
  backtrack (Plus DATA_URL_CLASS) s g k =
  match s with
  | c :: t => if not_special c then greedy not_special t g k else None
  | [] => None
  end.
Proof.
  destruct s as [|c t]; [reflexivity|].
  change (backtrack (Plus DATA_URL_CLASS) (c :: t) g k)
    with (if not_special c
          then star (backtrack DATA_URL_CLASS) (length t) t g k
          else None).
  destruct (not_special c); [|reflexivity].
  apply (star_class not_special); [reflexivity | lia].
Qed.

Lemma slash_then_class k c t g :
  (forall c t g, not_special c = true -> k (c :: t) g = None) ->
  backtrack (Seq (Char "/") (Plus DATA_URL_CLASS)) (c :: t) g k =
  if Ascii.eqb "/" c
     && match t with
        | c' :: _ => not_special c'
        | [] => false
        end
  then k (dropWhile not_special t) g
  else None.
Proof.
  intros Hk.
  change (backtrack (Seq (Char "/") (Plus DATA_URL_CLASS)) (c :: t) g k)
    with (if Ascii.eqb "/" c
          then backtrack (Plus DATA_URL_CLASS) t g k else None).
  destruct (Ascii.eqb "/" c); [|reflexivity].
  rewrite plus_class. destruct t as [|c' t']; [reflexivity|].
  cbn [andb dropWhile]. destruct (not_special c'); [|reflexivity].
  apply greedy_longest. intros; now apply Hk.
Qed.

(** The first run of the MIME type gives characters back until a slash
    with a class character behind it comes last. *)
Lemma greedy_slash k t g :
  (forall c t g, not_special c = true -> k (c :: t) g = None) ->
  greedy not_special t g
    (fun s1 g1 => backtrack (Seq (Char "/") (Plus DATA_URL_CLASS)) s1 g1 k) =
  if inner_slash t then k (dropWhile not_special t) g else None.
Proof.
  intros Hk. induction t as [|c t IH]; [reflexivity|].
  cbn [greedy inner_slash dropWhile].
  destruct (not_special c) eqn:Ec.
  - rewrite IH, slash_then_class by exact Hk.
    cbn [andb]. apply orelse_same.
  - rewrite slash_then_class by exact Hk.
    now rewrite (special_no_slash c Ec).
Qed.

Lemma mime_type_group k s g :
  (forall c t g, not_special c = true -> k (c :: t) g = None) ->
  backtrack DATA_URL_MIME_TYPE s g k =
  match s with
  | c :: t =>
      if not_special c && inner_slash t
      then k (dropWhile not_special s)
             (("mime_type"%string, takeWhile not_special s) :: g)
      else None
  | [] => None
  end.
Proof.
  intros Hk.
  change (backtrack DATA_URL_MIME_TYPE s g k)
    with (backtrack (Plus DATA_URL_CLASS) s g
            (fun s1 g1 =>
               backtrack (Seq (Char "/") (Plus DATA_URL_CLASS)) s1 g1
                 (fun s2 g2 =>
                    k s2 (("mime_type"%string,
                           firstn (length s - length s2) s) :: g2)))).
  rewrite plus_class. destruct s as [|c t]; [reflexivity|].
  destruct (not_special c) eqn:Ec; [|reflexivity].
  rewrite greedy_slash by (intros; now apply Hk).
  cbn [andb]. destruct (inner_slash t); [|reflexivity].
  replace (dropWhile not_special t) with (dropWhile not_special (c :: t))
    by (cbn [dropWhile]; now rewrite Ec).
  now rewrite firstn_dropWhile.
Qed.
End MimeTypePattern.

(** [DATA_URL_REGEX.match] finds what the scan from left to right finds. *)
Lemma re_match_data_url (data : str) :
  re_match DATA_URL_REGEX data = scan_data_url data.
Proof.
  unfold re_match, scan_data_url.
  set (final := fun (rest : str) (g : groups) =>
         Some {| match_end := len data - len rest; match_groups := g |}).
  change (backtrack DATA_URL_REGEX data [] final)
    with (backtrack (literal (lit "data:")) data []
            (fun s1 g1 =>
               backtrack
                 (Seq (Optional DATA_URL_MIME_TYPE)
                    (Seq DATA_URL_PARAMETERS (Char ","))) s1 g1
                 (fun s2 g2 =>
                    final s2 (("data_url"%string,
                               firstn (length data - length s2) data)
                              :: g2)))).
  rewrite backtrack_literal.
  destruct (startswith Ascii.eqb (lit "data:") data); [|reflexivity].
  change (length (lit "data:")) with 5%nat.
  set (s := skipn 5 data).
  set (k0 := fun (s2 : str) (g2 : groups) =>
               final s2 (("data_url"%string,
                          firstn (length data - length s2) data) :: g2)).
  change (backtrack (Seq (Optional DATA_URL_MIME_TYPE)
                       (Seq DATA_URL_PARAMETERS (Char ","))) s [] k0)
    with (orelse
            (backtrack DATA_URL_MIME_TYPE s []
               (fun s1 g1 =>
                  backtrack (Seq DATA_URL_PARAMETERS (Char ",")) s1 g1 k0))
            (backtrack (Seq DATA_URL_PARAMETERS (Char ",")) s [] k0)).
  rewrite mime_type_group
    by (intros; now apply parameters_then_comma_class).
  destruct s as [|c t] eqn:Es.
  - cbn [orelse dropWhile]. rewrite parameters_then_comma.
    destruct (scan_parameters []) as [[p rest]|]; reflexivity.
  - destruct (not_special c) eqn:Ec; cbn [andb].
    + rewrite (parameters_then_comma_class k0 c t [] Ec), orelse_none.
      destruct (inner_slash t); [|reflexivity].
      rewrite parameters_then_comma.
      destruct (scan_parameters (dropWhile not_special (c :: t)))
        as [[p rest]|]; reflexivity.
    + cbn [orelse dropWhile]. rewrite Ec, parameters_then_comma.
      destruct (scan_parameters (c :: t)) as [[p rest]|]; reflexivity.
Qed.

Lemma str_eqb_eq (a b : str) : str_eqb a b = true <-> a = b.
Proof.
  unfold str_eqb. revert b; induction a as [|x a IH]; intros [|y b]; simpl;
    try (split; [discriminate | congruence]); [tauto|].
  rewrite andb_true_iff, Ascii.eqb_eq, IH.
  split; [intros [-> ->] | intros [= -> ->]]; auto.
Qed.

Lemma str_eqb_refl (a : str) : str_eqb a a = true.
Proof. now apply str_eqb_eq. Qed.

Lemma matched_parameters (data : str) (m : Match) :
  re_match DATA_URL_REGEX data = Some m ->
  exists parameters,
    group m "parameters" = Some parameters
    /\ (parameters = [] \/ exists t, parameters = ";"%char :: t).
Proof.
  rewrite re_match_data_url. unfold scan_data_url.
  destruct (startswith _ _ data); [|discriminate].
  destruct (match skipn 5 data with [] => _ | _ => _ end) as [mime|];
    [|discriminate].
  destruct (scan_parameters _) as [[p rest]|] eqn:Ep; [|discriminate].
  intros [= <-]. exists p. split; [reflexivity|].
  unfold scan_parameters in Ep.
  destruct (dropWhile not_special (skipn 5 data)) as [|c d]; [discriminate|].
  destruct (Ascii.eqb ";" c) eqn:Ec.
  - apply Ascii.eqb_eq in Ec. subst c.
    cbn [takeWhile] in Ep. change (parameter_char ";") with true in Ep.
    cbn iota in Ep.
    destruct (skipn _ _) as [|c' r]; [discriminate|].
    destruct (Ascii.eqb "," c'); [|discriminate].
    injection Ep as <- _. right. eauto.
  - cbn [length skipn] in Ep. destruct (Ascii.eqb "," c); [|discriminate].
    injection Ep as <- _. now left.
Qed.

(** ** [DataURLFile] *)

Section DataURLFileFacts.
Context `{Environment}.

(** The attributes of a constructed file, read off [__init__]. *)
Lemma init_unmatched (data_url : option str) :
  re_match DATA_URL_REGEX (url_text data_url) = None ->
  DataURLFile.__init__ data_url =
  Ok {| DataURLFile.mime_type := lit "text/plain";
        DataURLFile.valid := false;
        DataURLFile.encoding := lit "ascii";
        DataURLFile.is_base64 := false;
        DataURLFile.getvalue := [] |}.
Proof.
  unfold DataURLFile.__init__, url_text. now intros ->.
Qed.

Lemma init_matched (data_url : option str) (m : Match)
  (file : DataURLFile.t) :
  re_match DATA_URL_REGEX (url_text data_url) = Some m ->
  DataURLFile.__init__ data_url = Ok file ->
  DataURLFile.valid file = false
  /\ match group m "parameters" with
     | Some (c :: t) =>
         DataURLFile.is_base64 file =
           endswith Ascii.eqb (lit ";base64") (c :: t)
         /\ DataURLFile.encoding file =
              fold_left DataURLFile.visit_parameter
                (split Ascii.eqb (lit ";") (c :: t)) (lit "ascii")
     | _ =>
         DataURLFile.is_base64 file = false
         /\ DataURLFile.encoding file = lit "ascii"
     end.
Proof.
  unfold DataURLFile.__init__, url_text. intros ->.
  destruct (group m "parameters") as [[|c t]|].
  - destruct (encode _ _); simpl; [intros [= <-]; auto | discriminate].
  - destruct (endswith Ascii.eqb (lit ";base64") (c :: t)).
    + destruct (b64decode _); simpl; [intros [= <-]; auto | discriminate].
    + destruct (encode _ _); simpl; [intros [= <-]; auto | discriminate].
  - destruct (encode _ _); simpl; [intros [= <-]; auto | discriminate].
Qed.
End DataURLFileFacts.

(** C10.  The attribute [valid] of a constructed [DataURLFile] is [False],
    whether the URL matches the pattern or not: [__init__] sets it to
    [False] and nothing sets it again. *)
Theorem valid_is_never_set `{Environment} (data_url : option str)
  (file : DataURLFile.t) :
  DataURLFile.__init__ data_url = Ok file -> DataURLFile.valid file = false.
Proof.
  intros Hinit.
  destruct (re_match DATA_URL_REGEX (url_text data_url)) as [m|] eqn:Em.
  - now destruct (init_matched data_url m file Em Hinit).
  - rewrite (init_unmatched data_url Em) in Hinit. now injection Hinit as <-.
Qed.

Lemma valid_is_never_set_witness :
  exists file,
    DataURLFile.__init__ (Some css_url) = Ok file
    /\ DataURLFile.valid file = false.
Proof.
  eexists. split; [vm_compute; reflexivity|].
  apply (valid_is_never_set (Some css_url)). vm_compute; reflexivity.
Defined.



(** *** The encoding *)

Section EncodingFacts.
Context `{Environment}.

Lemma visit_utf8_token (encoding token : str) :
  is_utf8_token token = true ->
  DataURLFile.visit_parameter encoding token = lit "utf8".
Proof.
  unfold is_utf8_token, DataURLFile.visit_parameter. now intros ->.
Qed.

Lemma visit_other_parameter (encoding token : str) :
  is_utf8_token token = false ->
  is_charset_parameter token = false ->
  DataURLFile.visit_parameter encoding token = encoding.
Proof.
  unfold is_utf8_token, is_charset_parameter, DataURLFile.visit_parameter.
  intros -> Hc.
  destruct (contains Ascii.eqb "="%char (lower (strip token)));
    [|reflexivity].
  cbn [negb andb] in *.
  destruct (split_once Ascii.eqb "="%char (lower (strip token)))
    as [key value].
  cbn [fst] in Hc. now rewrite Hc.
Qed.

(** Parameters that are no [charset] leave [utf8] in place. *)
Lemma fold_keeps_utf8 (tokens : list str) :
  forallb (fun t => negb (is_charset_parameter t)) tokens = true ->
  fold_left DataURLFile.visit_parameter tokens (lit "utf8") = lit "utf8".
Proof.
  induction tokens as [|t tokens IH]; [reflexivity|].
  cbn [forallb fold_left]. intros Hall.
  apply andb_true_iff in Hall as [Ht Hall].
  apply negb_true_iff in Ht.
  destruct (is_utf8_token t) eqn:Eu.
  - rewrite visit_utf8_token by exact Eu. auto.
  - rewrite visit_other_parameter by assumption. auto.
Qed.
End EncodingFacts.

(** C1, as amended.  When the parameters of a data URL hold a token [utf-8]
    or [utf8] (blanks and case apart) and no later parameter is a
    [charset], the constructed file has the encoding ["utf8"]. *)
Theorem utf8_token_sets_encoding `{Environment} (data_url : option str)
  (file : DataURLFile.t) (m : Match) (parameters : str)
  (before after : list str) (token : str) :
  re_match DATA_URL_REGEX (url_text data_url) = Some m ->
  group m "parameters" = Some parameters ->
  split Ascii.eqb (lit ";") parameters = before ++ token :: after ->
  is_utf8_token token = true ->
  forallb (fun t => negb (is_charset_parameter t)) after = true ->
  DataURLFile.__init__ data_url = Ok file ->
  DataURLFile.encoding file = lit "utf8".
Proof.
  intros Hm Hp Hsplit Htoken Hafter Hinit.
  destruct (init_matched data_url m file Hm Hinit) as [_ Hfile].
  rewrite Hp in Hfile. destruct parameters as [|c t].
  - destruct before as [|b [|b' before]]; try discriminate Hsplit.
    injection Hsplit as <- _. discriminate Htoken.
  - destruct Hfile as [_ ->]. rewrite Hsplit, fold_left_app.
    cbn [fold_left]. rewrite visit_utf8_token by exact Htoken.
    now apply fold_keeps_utf8.
Qed.

Lemma utf8_token_sets_encoding_witness :
  exists file,
    DataURLFile.__init__ (Some css_url) = Ok file
    /\ DataURLFile.encoding file = lit "utf8".
Proof.
  eexists. split; [vm_compute; reflexivity|].
  eapply (utf8_token_sets_encoding (Some css_url) _ _ (lit ";utf8")
            [[]] [] (lit "utf8"));
    vm_compute; reflexivity.
Defined.

(** C1, as stated, fails.  The URL of the specification's own scenario gets
    the encoding ["utf8"], which is not the string ["utf-8"]; and a
    [charset] behind the token replaces it. *)
Lemma utf8_token_encoding_is_not_utf_8 :
  DataURLFile.__init__ (Some css_url) =
    Ok {| DataURLFile.mime_type := lit "text/css";
          DataURLFile.valid := false;
          DataURLFile.encoding := lit "utf8";
          DataURLFile.is_base64 := false;
          DataURLFile.getvalue :=
            blit "body { font-family: Arial, sans-serif };" |}
  /\ lit "utf8" <> lit "utf-8"
  /\ DataURLFile.__init__ (Some css_latin1_url) =
     Ok {| DataURLFile.mime_type := lit "text/css";
           DataURLFile.valid := false;
           DataURLFile.encoding := lit "iso8859-1";
           DataURLFile.is_base64 := false;
           DataURLFile.getvalue := blit "x" |}.
Proof. repeat split; try (vm_compute; reflexivity). discriminate. Qed.

(** *** The base64 flag *)

Lemma startswith_app (a b : str) : startswith Ascii.eqb a (a ++ b) = true.
Proof.
  induction a as [|x a IH]; [reflexivity|].
  simpl. now rewrite Ascii.eqb_refl.
Qed.

Lemma startswith_inv (a s : str) :
  startswith Ascii.eqb a s = true -> exists b, s = a ++ b.
Proof.
  revert s; induction a as [|x a IH]; intros s Hs; [now exists s|].
  destruct s as [|y s]; [discriminate|].
  simpl in Hs. apply andb_true_iff in Hs as [Hx Hs].
  apply Ascii.eqb_eq in Hx. subst y.
  destruct (IH s Hs) as [b ->]. now exists b.
Qed.

Lemma endswith_iff (suffix s : str) :
  endswith Ascii.eqb suffix s = true <-> exists q, s = q ++ suffix.
Proof.
  unfold endswith. split.
  - intros Hs. apply startswith_inv in Hs as [b Hb].
    exists (rev b). rewrite <- (rev_involutive s), Hb, rev_app_distr.
    now rewrite rev_involutive.
  - intros [q ->]. rewrite rev_app_distr. apply startswith_app.
Qed.

Lemma takeWhile_stop {A : Type} (p : A -> bool) (a b : list A) (x : A) :
  p x = false -> forallb p a = true -> takeWhile p (a ++ x :: b) = a.
Proof.
  intros Hx; induction a as [|y a IH]; simpl; [now rewrite Hx|].
  intros Hall. apply andb_true_iff in Hall as [-> Hall]. now rewrite IH.
Qed.

Lemma takeWhile_app_stop {A : Type} (p : A -> bool) (a b : list A) (x : A) :
  p x = false -> takeWhile p (a ++ x :: b) = takeWhile p a.
Proof.
  intros Hx; induction a as [|y a IH]; simpl; [now rewrite Hx|].
  destruct (p y); [now rewrite IH | reflexivity].
Qed.

Lemma takeWhile_id {A : Type} (p : A -> bool) (a : list A) :
  forallb p a = true -> takeWhile p a = a.
Proof.
  induction a as [|y a IH]; simpl; [reflexivity|].
  intros Hall. apply andb_true_iff in Hall as [-> Hall]. now rewrite IH.
Qed.

Lemma forallb_rev {A : Type} (p : A -> bool) (a : list A) :
  forallb p (rev a) = forallb p a.
Proof.
  induction a as [|y a IH]; [reflexivity|].
  simpl. rewrite forallb_app, IH. simpl. now rewrite andb_true_r, andb_comm.
Qed.

Lemma after_last_app (c : ascii) (q b : str) :
  forallb (fun x => negb (Ascii.eqb c x)) b = true ->
  after_last c (q ++ c :: b) = b.
Proof.
  intros Hb. unfold after_last.
  rewrite rev_app_distr. cbn [rev]. rewrite <- app_assoc. cbn [app].
  rewrite takeWhile_stop; [apply rev_involutive | now rewrite Ascii.eqb_refl |].
  now rewrite forallb_rev.
Qed.

Lemma split_go_nonempty (c : ascii) (s cur : str) :
  split_go Ascii.eqb [c] s cur 0 <> [].
Proof.
  revert cur; induction s as [|x t IH]; intros cur; [discriminate|].
  cbn [split_go startswith].
  destruct (Ascii.eqb c x); [discriminate | apply IH].
Qed.

Lemma last_split_go (c : ascii) (s cur d : str) :
  forallb (fun x => negb (Ascii.eqb c x)) cur = true ->
  last (split_go Ascii.eqb [c] s cur 0) d = after_last c (rev cur ++ s).
Proof.
  revert cur; induction s as [|x t IH]; intros cur Hcur.
  - cbn [split_go last]. unfold after_last.
    rewrite app_nil_r, rev_involutive. now rewrite takeWhile_id.
  - cbn [split_go startswith length Nat.sub].
    destruct (Ascii.eqb c x) eqn:Ex; cbn [andb].
    + pose proof (split_go_nonempty c t []) as Hne.
      destruct (split_go Ascii.eqb [c] t [] 0) as [|a l] eqn:El;
        [congruence|].
      change (last (rev cur :: a :: l) d) with (last (a :: l) d).
      rewrite <- El, IH by reflexivity. cbn [rev app].
      unfold after_last. rewrite rev_app_distr. cbn [rev].
      rewrite <- app_assoc. cbn [app].
      now rewrite takeWhile_app_stop by (now rewrite Ex).
    + rewrite IH by (cbn [forallb]; now rewrite Ex).
      cbn [rev]. now rewrite <- app_assoc.
Qed.

(** The last piece of [s.split(c)] is the text behind the last [c]. *)
Lemma last_split (c : ascii) (s d : str) :
  last (split Ascii.eqb [c] s) d = after_last c s.
Proof. unfold split. now rewrite last_split_go. Qed.

Lemma after_last_inv (c : ascii) (t : str) :
  exists q, c :: t = q ++ c :: after_last c (c :: t).
Proof.
  unfold after_last. set (p := fun x => negb (Ascii.eqb c x)).
  pose proof (takeWhile_dropWhile p (rev (c :: t))) as Hsplit.
  destruct (dropWhile p (rev (c :: t))) as [|x r] eqn:Ed.
  - exfalso. rewrite app_nil_r in Hsplit.
    pose proof (takeWhile_all p (rev (c :: t))) as Hall.
    rewrite Hsplit, forallb_rev in Hall. cbn [forallb] in Hall.
    unfold p in Hall at 1. now rewrite Ascii.eqb_refl in Hall.
  - pose proof (dropWhile_head p _ _ _ Ed) as Hx.
    unfold p in Hx. apply negb_false_iff, Ascii.eqb_eq in Hx. subst x.
    exists (rev r). apply (f_equal (@rev ascii)) in Hsplit.
    rewrite rev_involutive, rev_app_distr in Hsplit. cbn [rev] in Hsplit.
    rewrite <- app_assoc in Hsplit. symmetry. exact Hsplit.
Qed.

(** Parameters that a semicolon heads end in [;base64] exactly when their
    last token is [base64]. *)
Lemma endswith_base64_last_token (t : str) :
  endswith Ascii.eqb (lit ";base64") (";"%char :: t) = true <->
  last (split Ascii.eqb (lit ";") (";"%char :: t)) [] = lit "base64".
Proof.
  change (lit ";") with [";"%char]. rewrite last_split, endswith_iff. split.
  - intros [q ->].
    change (lit ";base64") with (";"%char :: lit "base64").
    now rewrite after_last_app.
  - intros Hl. destruct (after_last_inv ";" t) as [q Hq].
    rewrite Hl in Hq. now exists q.
Qed.

(** C3, as amended.  A constructed file has [is_base64] set exactly when
    the URL matches the pattern and the last parameter token is the text
    [base64] as it stands, without blanks around it and in lower case: the
    parameters end in [;base64]. *)
Theorem is_base64_iff_last_token_exact `{Environment}
  (data_url : option str) (file : DataURLFile.t) :
  DataURLFile.__init__ data_url = Ok file ->
  (DataURLFile.is_base64 file = true <->
   exists m parameters,
     re_match DATA_URL_REGEX (url_text data_url) = Some m
     /\ group m "parameters" = Some parameters
     /\ last (split Ascii.eqb (lit ";") parameters) [] = lit "base64").
Proof.
  intros Hinit.
  destruct (re_match DATA_URL_REGEX (url_text data_url)) as [m|] eqn:Em.
  - destruct (init_matched data_url m file Em Hinit) as [_ Hfile].
    destruct (matched_parameters _ m Em) as (p & Hp & Hshape).
    rewrite Hp in Hfile.
    destruct Hshape as [-> | [t ->]].
    + destruct Hfile as [-> _]. split; [discriminate|].
      intros (m' & p' & [= <-] & Hp' & Hlast).
      rewrite Hp in Hp'. injection Hp' as <-. discriminate Hlast.
    + destruct Hfile as [-> _]. rewrite endswith_base64_last_token. split.
      * intros Hlast. now exists m, (";"%char :: t).
      * intros (m' & p' & [= <-] & Hp' & Hlast).
        rewrite Hp in Hp'. now injection Hp' as <-.
  - rewrite (init_unmatched data_url Em) in Hinit. injection Hinit as <-.
    split; [discriminate|]. now intros (m & p & [=] & _).
Qed.

Lemma is_base64_iff_last_token_exact_witness :
  exists file,
    DataURLFile.__init__ (Some base64_url) = Ok file
    /\ (DataURLFile.is_base64 file = true <->
        exists m parameters,
          re_match DATA_URL_REGEX (url_text (Some base64_url)) = Some m
          /\ group m "parameters" = Some parameters
          /\ last (split Ascii.eqb (lit ";") parameters) [] = lit "base64").
Proof.
  eexists. split; [vm_compute; reflexivity|].
  apply (is_base64_iff_last_token_exact (Some base64_url)).
  vm_compute; reflexivity.
Defined.

(** C3, as stated, fails.  The last parameter token of each of the two URLs
    is [base64] once trimmed and put in lower case, yet [is_base64] stays
    unset and the payload is encoded as text. *)
Lemma base64_flag_needs_exact_token :
  (exists m,
     re_match DATA_URL_REGEX (url_text (Some upper_case_base64_url)) = Some m
     /\ group m "parameters" = Some (lit ";BASE64"))
  /\ last_parameter_is_base64 (lit ";BASE64") = true
  /\ DataURLFile.__init__ (Some upper_case_base64_url) =
     Ok {| DataURLFile.mime_type := lit "image/png";
           DataURLFile.valid := false;
           DataURLFile.encoding := lit "ascii";
           DataURLFile.is_base64 := false;
           DataURLFile.getvalue := blit "AAAA" |}
  /\ (exists m,
        re_match DATA_URL_REGEX (url_text (Some blank_base64_url)) = Some m
        /\ group m "parameters" = Some (lit "; base64"))
  /\ last_parameter_is_base64 (lit "; base64") = true
  /\ DataURLFile.__init__ (Some blank_base64_url) =
     Ok {| DataURLFile.mime_type := lit "image/png";
           DataURLFile.valid := false;
           DataURLFile.encoding := lit "ascii";
           DataURLFile.is_base64 := false;
           DataURLFile.getvalue := blit "AAAA" |}.
Proof.
  repeat split; try (vm_compute; reflexivity);
    eexists; split; vm_compute; reflexivity.
Qed.

(** ** [HTMLDataURLParser.handle_starttag] *)

Lemma find_go_char (c : ascii) (s : str) (i : Z) :
  find_go Ascii.eqb [c] s i =
  match dropWhile (fun x => negb (Ascii.eqb c x)) s with
  | [] => -1
  | _ :: _ => i + len (takeWhile (fun x => negb (Ascii.eqb c x)) s)
  end.
Proof.
  revert i; induction s as [|x t IH]; intros i; [reflexivity|].
  cbn [find_go startswith dropWhile takeWhile].
  destruct (Ascii.eqb c x); cbn [andb negb].
  - unfold len. simpl. lia.
  - rewrite IH. destruct (dropWhile _ t); [reflexivity|].
    unfold len. cbn [length]. lia.
Qed.

(** The test of [handle_starttag] on the comma is the test for a payload. *)
Lemma comma_test_is_payload (value : str) :
  let comma := find Ascii.eqb (lit ",") value 0 in
  (comma <? 0) || (comma + 1 >=? len value) = negb (carries_payload value).
Proof.
  cbv zeta. unfold find, carries_payload, slice_from.
  replace (len value <? 0) with false
    by (symmetry; apply Z.ltb_ge; unfold len; lia).
  change (skipn (Z.to_nat 0) value) with value.
  change (lit ",") with [","%char]. rewrite find_go_char.
  set (p := fun x => negb (Ascii.eqb "," x)).
  pose proof (takeWhile_dropWhile p value) as Hsplit.
  apply (f_equal (@length ascii)) in Hsplit. rewrite length_app in Hsplit.
  unfold len.
  destruct (dropWhile p value) as [|x [|y r]]; cbn [length] in Hsplit.
  - reflexivity.
  - apply orb_true_iff. right. apply Z.geb_le. lia.
  - apply orb_false_iff. split; [apply Z.ltb_ge; lia|].
    rewrite Z.geb_leb. apply Z.leb_gt. lia.
Qed.

Lemma visit_attribute_files (attributes : list (str * str))
  (self : HTMLDataURLParser.t) (item : str * str) :
  HTMLDataURLParser.files
    (HTMLDataURLParser.visit_attribute attributes self item) =
  HTMLDataURLParser.files self ++
  (if is_data_url_with_payload (snd item)
   then [candidate_of attributes (HTMLDataURLParser.getpos self) item]
   else [])
  /\ HTMLDataURLParser.getpos
       (HTMLDataURLParser.visit_attribute attributes self item) =
     HTMLDataURLParser.getpos self.
Proof.
  destruct item as [attribute value].
  unfold HTMLDataURLParser.visit_attribute, is_data_url_with_payload.
  cbn [snd].
  destruct (startswith Ascii.eqb (lit "data:") value); cbn [negb andb].
  - rewrite comma_test_is_payload.
    destruct (carries_payload value); cbn [negb].
    + split; reflexivity.
    + now rewrite app_nil_r.
  - now rewrite app_nil_r.
Qed.

Lemma fold_visit_attribute (attributes items : list (str * str))
  (self : HTMLDataURLParser.t) :
  HTMLDataURLParser.files
    (fold_left (HTMLDataURLParser.visit_attribute attributes) items self) =
  HTMLDataURLParser.files self ++
  map (candidate_of attributes (HTMLDataURLParser.getpos self))
    (filter (fun item => is_data_url_with_payload (snd item)) items).
Proof.
  revert self; induction items as [|item items IH]; intros self.
  - cbn. now rewrite app_nil_r.
  - cbn [fold_left filter]. rewrite IH.
    destruct (visit_attribute_files attributes self item) as [-> ->].
    destruct (is_data_url_with_payload (snd item)).
    + now rewrite <- app_assoc.
    + now rewrite app_nil_r.
Qed.

Lemma dict_set_values (d : list (str * str)) (k v : str) (item : str * str) :
  In item (dict_set d k v) -> In item d \/ snd item = v.
Proof.
  induction d as [|[k' v'] d IH]; cbn [dict_set].
  - intros [<-|[]]. now right.
  - destruct (str_eqb k' k).
    + intros [<-|Hin]; [now right | left; now right].
    + intros [<-|Hin]; [left; now left|].
      destruct (IH Hin); [left; now right | now right].
Qed.

(** Every value of [dict(attrs)] is the value of one of the pairs. *)
Lemma dict_values (attrs : list (str * str)) (item : str * str) :
  In item (dict attrs) -> exists k, In (k, snd item) attrs.
Proof.
  unfold dict.
  assert (Hgen : forall d,
             In item (fold_left (fun d kv => dict_set d (fst kv) (snd kv))
                        attrs d) ->
             In item d \/ exists k, In (k, snd item) attrs).
  { induction attrs as [|[k v] attrs IH]; intros d; cbn [fold_left];
      [now left|].
    intros Hin. destruct (IH _ Hin) as [Hd | [k' Hk']].
    - cbn [fst snd] in Hd. destruct (dict_set_values _ _ _ _ Hd) as [?|<-];
        [now left|].
      right. exists k. now left.
    - right. exists k'. now right. }
  intros Hin. destruct (Hgen [] Hin) as [[]|Hex]. exact Hex.
Qed.

Lemma dict_set_fresh (d : list (str * str)) (k v : str) :
  ~ In k (map fst d) -> dict_set d k v = d ++ [(k, v)].
Proof.
  induction d as [|[k' v'] d IH]; cbn [dict_set map fst]; [reflexivity|].
  intros Hnot. destruct (str_eqb k' k) eqn:E.
  - apply str_eqb_eq in E. subst k'. exfalso. apply Hnot. now left.
  - cbn [app]. rewrite IH; [reflexivity|]. intros Hin. apply Hnot. now right.
Qed.

(** When no attribute name is repeated, [dict(attrs)] lists the pairs as
    they are. *)
Lemma dict_distinct_names (attrs : list (str * str)) :
  NoDup (map fst attrs) -> dict attrs = attrs.
Proof.
  unfold dict.
  assert (Hgen : forall d,
             NoDup (map fst (d ++ attrs)) ->
             fold_left (fun d kv => dict_set d (fst kv) (snd kv)) attrs d =
             d ++ attrs).
  { induction attrs as [|[k v] attrs IH]; intros d Hnd; cbn [fold_left].
    - now rewrite app_nil_r.
    - cbn [fst snd]. rewrite dict_set_fresh.
      + rewrite IH; rewrite <- app_assoc; [reflexivity | exact Hnd].
      + rewrite map_app in Hnd. cbn [map fst] in Hnd.
        apply NoDup_remove_2 in Hnd. intros Hin. apply Hnd.
        apply in_or_app. now left. }
  intros Hnd. now apply (Hgen []).
Qed.

Lemma filter_none {A : Type} (p : A -> bool) (l : list A) :
  (forall x, In x l -> p x = false) -> filter p l = [].
Proof.
  induction l as [|x l IH]; [reflexivity|].
  intros Hall. cbn [filter]. rewrite (Hall x) by now left.
  apply IH. intros y Hy. apply Hall. now right.
Qed.

Lemma update_end_offset_getpos (self : HTMLDataURLParser.t) :
  HTMLDataURLParser.getpos (HTMLDataURLParser._update_end_offset self) =
  HTMLDataURLParser.getpos self.
Proof.
  unfold HTMLDataURLParser._update_end_offset.
  destruct (rev (HTMLDataURLParser.files self)) as [|file r]; [reflexivity|].
  now destruct (_ || _).
Qed.



(** A tag with distinct names: the poster has no payload and is skipped,
    the source is recorded with the URL that the page saver noted. *)
Example handle_starttag_poster_and_src :
  HTMLDataURLParser.files
    (HTMLDataURLParser.handle_starttag fresh_parser (lit "video")
       poster_and_src) =
  [ {| EmbeddedFileCandidate.original_url := lit "a.mp4";
       EmbeddedFileCandidate.attribute := lit "src";
       EmbeddedFileCandidate.start :=
         {| LineOffset.line := 1; LineOffset.offset := 0 |};
       EmbeddedFileCandidate.next := None |} ].
Proof. vm_compute. reflexivity. Qed.

(** ** [HTMLMountSource] *)

Section HTMLMountSourceFacts.
Context `{Environment}.


End HTMLMountSourceFacts.



(** ** The binary stream *)

Lemma len_nonneg {A : Type} (s : list A) : 0 <= len s.
Proof. unfold len. lia. Qed.

Lemma len_slice_from {A : Type} (i : Z) (s : list A) :
  0 <= i -> len (slice_from i s) = Z.max 0 (len s - i).
Proof. intros Hi. unfold len, slice_from. rewrite length_skipn. lia. Qed.

Lemma len_slice_to {A : Type} (i : Z) (s : list A) :
  0 <= i -> len (slice_to i s) = Z.min i (len s).
Proof. intros Hi. unfold len, slice_to. rewrite length_firstn. lia. Qed.

Lemma read_data (f : FileObject.t) (n : Z) :
  FileObject.data (snd (FileObject.read f n)) = FileObject.data f.
Proof. reflexivity. Qed.

Lemma read_pos (f : FileObject.t) (n : Z) :
  FileObject.pos (snd (FileObject.read f n)) =
  FileObject.pos f + len (fst (FileObject.read f n)).
Proof. reflexivity. Qed.

Lemma read_len (f : FileObject.t) (n : Z) :
  0 <= FileObject.pos f ->
  len (fst (FileObject.read f n)) =
  if n <? 0 then Z.max 0 (len (FileObject.data f) - FileObject.pos f)
  else Z.min n (Z.max 0 (len (FileObject.data f) - FileObject.pos f)).
Proof.
  intros Hpos. unfold FileObject.read. cbn [fst].
  destruct (n <? 0) eqn:En.
  - now apply len_slice_from.
  - apply Z.ltb_ge in En. rewrite len_slice_to by exact En.
    now rewrite len_slice_from.
Qed.

(** ** The loop of [_parse_ar_archive] *)

Lemma digits_value_nonneg (base : Z) (ds : bytes) :
  0 <= base -> forallb is_digit_byte ds = true -> 0 <= digits_value base ds.
Proof.
  intros Hbase. unfold digits_value.
  assert (Hgen : forall acc, 0 <= acc ->
            forallb is_digit_byte ds = true ->
            0 <= fold_left (fun a b => a * base + (ord b - 48)) ds acc).
  { induction ds as [|d ds IH]; intros acc Hacc Hds; [exact Hacc|].
    cbn [forallb] in Hds. apply andb_true_iff in Hds as [Hd Hds].
    cbn [fold_left]. apply IH; [|exact Hds].
    unfold is_digit_byte in Hd. nia. }
  apply Hgen. lia.
Qed.

Lemma parse_int_nonneg (field : bytes) (base default v : Z) :
  0 <= base -> 0 <= default ->
  parse_int field base default = Ok v -> 0 <= v.
Proof.
  intros Hbase Hdefault. rewrite parse_int_layout.
  destruct (well_formed_field base field); [|discriminate].
  intros [= <-]. unfold field_value.
  pose proof (takeWhile_all is_digit_byte field) as Hall.
  destruct (takeWhile is_digit_byte field) as [|d ds]; [exact Hdefault|].
  now apply digits_value_nonneg.
Qed.

Lemma parse_header_ok (is_thin : bool) (header_data name : bytes)
  (mtime uid gid mode size : Z) :
  parse_header is_thin header_data = Ok (name, mtime, uid, gid, mode, size) ->
  name = rstrip_of (fun b => Byte.eqb b x20 || Byte.eqb b nul)
           (slice 0 16 header_data)
  /\ 0 <= size.
Proof.
  unfold parse_header, unpack_header.
  destruct (negb (bytes_eqb _ _)); [discriminate|].
  destruct (parse_int (slice 16 28 header_data) 10 0) as [?|e];
    [|destruct e; discriminate].
  destruct (parse_int (slice 28 34 header_data) 10 0) as [?|e];
    [|destruct e; discriminate].
  destruct (parse_int (slice 34 40 header_data) 10 0) as [?|e];
    [|destruct e; discriminate].
  destruct (parse_int (slice 40 48 header_data) 8 (oct "660")) as [?|e];
    [|destruct e; discriminate].
  destruct (parse_int (slice 48 58 header_data) 10 0) as [?|e] eqn:Esize;
    [|destruct e; discriminate].
  cbn [bind reraise_value_error]. intros [= <- _ _ _ _ <-].
  split; [reflexivity|]. eapply parse_int_nonneg; [| |exact Esize]; lia.
Qed.

Lemma offsets_in_stream_set_name (data : bytes) (info : TarInfo.t)
  (n : bytes) :
  offsets_in_stream data info ->
  offsets_in_stream data (TarInfo.set_name info n).
Proof. intros Hinfo. exact Hinfo. Qed.

Lemma offsets_in_stream_set_linkname (data : bytes) (info : TarInfo.t)
  (n : bytes) :
  offsets_in_stream data info ->
  offsets_in_stream data (TarInfo.set_linkname info n).
Proof. intros Hinfo. exact Hinfo. Qed.

Lemma read_gnu_index_spec (is_thin : bool) (f : FileObject.t)
  (rows : list TarInfo.t) (size : Z) :
  let st' := read_gnu_index is_thin f rows size in
  FileObject.data (fileObject st') = FileObject.data f
  /\ FileObject.pos f <= FileObject.pos (fileObject st')
  /\ files st' =
     map (apply_long_names is_thin (read_long_names is_thin f size)) rows
  /\ long_names st' = Some (read_long_names is_thin f size).
Proof.
  cbv zeta. unfold read_gnu_index, read_long_names, apply_long_names.
  pose proof (read_pos f size) as Hpos.
  pose proof (read_data f size) as Hdata.
  pose proof (len_nonneg (fst (FileObject.read f size))) as Hlen.
  pose proof (Z.mod_pos_bound size 2 ltac:(lia)) as Hmod.
  destruct (FileObject.read f size) as [table f'].
  cbn [fst snd] in *.
  destruct is_thin.
  - cbn [fileObject files long_names].
    repeat split; try reflexivity; try assumption. lia.
  - destruct (size mod 2 =? 0);
      cbn [fileObject files long_names FileObject.seek_cur FileObject.data
             FileObject.pos];
      repeat split; try reflexivity; try assumption; lia.
Qed.

Lemma record_name_read (f f' : FileObject.t) (header_data : bytes) :
  FileObject.read f HEADER_SIZE = (header_data, f') ->
  record_name (FileObject.data f) (FileObject.pos f) =
  rstrip_of (fun b => Byte.eqb b x20 || Byte.eqb b nul)
    (slice 0 16 header_data).
Proof.
  intros Hread. unfold record_name. destruct f as [data pos].
  cbn [FileObject.data FileObject.pos]. now rewrite Hread.
Qed.

(** One pass of the loop that goes on: it has read a whole header, the
    stream has moved on by the header at least, and the rows keep their
    offsets within the stream. *)
Lemma iteration_continue (is_thin : bool) (st st' : ar_state) :
  8 <= FileObject.pos (fileObject st) ->
  iteration is_thin st = Continue st' ->
  FileObject.data (fileObject st') = FileObject.data (fileObject st)
  /\ FileObject.pos (fileObject st) + 60
     <= len (FileObject.data (fileObject st))
  /\ FileObject.pos (fileObject st) + 60 <= FileObject.pos (fileObject st')
  /\ (Forall (offsets_in_stream (FileObject.data (fileObject st))) (files st)
      -> Forall (offsets_in_stream (FileObject.data (fileObject st)))
           (files st')).
Proof.
  intros Hpos. unfold iteration.
  pose proof (read_pos (fileObject st) HEADER_SIZE) as Hrpos.
  pose proof (read_data (fileObject st) HEADER_SIZE) as Hrdata.
  pose proof (read_len (fileObject st) HEADER_SIZE ltac:(lia)) as Hrlen.
  change (HEADER_SIZE <? 0) with false in Hrlen. cbv iota in Hrlen.
  destruct (FileObject.read (fileObject st) HEADER_SIZE)
    as [header_data f] eqn:Eread.
  cbn [fst snd] in Hrpos, Hrdata, Hrlen.
  pose proof (record_name_read _ _ _ Eread) as Hname.
  destruct header_data as [|b0 header_rest]; [discriminate|].
  set (header_data := b0 :: header_rest) in *.
  destruct (len header_data <? HEADER_SIZE) eqn:Elen; [discriminate|].
  apply Z.ltb_ge in Elen. unfold HEADER_SIZE in *.
  destruct (parse_header is_thin header_data)
    as [[[[[[name mtime] uid] gid] mode] size]|] eqn:Eheader;
    [|discriminate].
  destruct (parse_header_ok _ _ _ _ _ _ _ _ Eheader) as [Ename Hsize].
  rewrite <- Ename in Hname.
  pose proof (Z.mod_pos_bound size 2 ltac:(lia)) as Hmod.
  unfold FileObject.tell.
  destruct (bytes_eqb name POSIX_SYMBOL_TABLE_NAME).
  { intros [= <-].
    cbn [fileObject files long_names FileObject.seek_cur FileObject.data
           FileObject.pos].
    repeat split; try assumption; try lia; auto. }
  destruct (bytes_eqb name GNU_INDEX_NAME).
  { intros [= <-].
    destruct (read_gnu_index_spec is_thin f (files st) size)
      as (Hdata & Hp & Hfiles & _).
    rewrite Hdata, Hfiles. repeat split; try assumption; try lia.
    intros Hall. apply Forall_map. revert Hall. apply Forall_impl.
    intros info Hinfo. unfold apply_long_names.
    destruct is_thin; exact Hinfo. }
  destruct (startswith Byte.eqb BSD_LONG_NAME_PREFIX name) eqn:Ebsd.
  - destruct (int (slice_from (len BSD_LONG_NAME_PREFIX) name) 10)
      as [name_size|] eqn:Eint; [|discriminate].
    pose proof (read_pos f name_size) as Hnpos.
    pose proof (read_data f name_size) as Hndata.
    pose proof (read_len f name_size ltac:(lia)) as Hnlen.
    pose proof (len_nonneg (fst (FileObject.read f name_size))) as Hnn.
    destruct (FileObject.read f name_size) as [long_name f2].
    cbn [fst snd] in Hnpos, Hndata, Hnlen, Hnn.
    destruct (len long_name =? name_size) eqn:Esize; [|discriminate].
    apply Z.eqb_eq in Esize. cbn [negb].
    assert (Hfits : 0 <= name_size
                    /\ FileObject.pos f + name_size
                       <= len (FileObject.data (fileObject st))).
    { destruct (name_size <? 0) eqn:En; [apply Z.ltb_lt in En; lia|].
      apply Z.ltb_ge in En. rewrite Hrdata in Hnlen. lia. }
    destruct (if truthy (long_names st) then _ else _) as [[n l] t].
    intros [= <-].
    cbn [fileObject files long_names FileObject.seek FileObject.data
           FileObject.pos].
    repeat split; try (destruct is_thin; cbn; congruence || lia).
    intros Hall. apply Forall_app. split; [exact Hall|].
    constructor; [|constructor].
    unfold offsets_in_stream.
    cbn [TarInfo.offset TarInfo.offset_data].
    replace (FileObject.pos f - 60) with (FileObject.pos (fileObject st))
      by lia.
    rewrite Hname. unfold bsd_name_size. rewrite Ebsd, Eint.
    repeat split; lia.
  - destruct (if truthy (long_names st) then _ else _) as [[n l] t].
    intros [= <-].
    cbn [fileObject files long_names FileObject.seek FileObject.data
           FileObject.pos].
    repeat split; try (destruct is_thin; cbn; congruence || lia).
    intros Hall. apply Forall_app. split; [exact Hall|].
    constructor; [|constructor].
    unfold offsets_in_stream.
    cbn [TarInfo.offset TarInfo.offset_data].
    replace (FileObject.pos f - 60) with (FileObject.pos (fileObject st))
      by lia.
    rewrite Hname. unfold bsd_name_size. rewrite Ebsd.
    repeat split; lia.
Qed.

Lemma bytes_eqb_eq (a b : bytes) : bytes_eqb a b = true -> a = b.
Proof.
  unfold bytes_eqb. revert b; induction a as [|x a IH]; intros [|y b]; simpl;
    try discriminate; [reflexivity|].
  intros Hab. apply andb_true_iff in Hab as [Hxy Hab].
  apply Byte.byte_dec_bl in Hxy. subst y. now rewrite (IH b Hab).
Qed.

(** The loop ends within the passes that [_parse_ar_archive_fuel] allows,
    and the rows it returns keep their offsets within the stream. *)
Lemma parse_loop_rows (is_thin : bool) (fuel : nat) (st : ar_state) :
  8 <= FileObject.pos (fileObject st) ->
  (0 < fuel)%nat ->
  len (FileObject.data (fileObject st)) - FileObject.pos (fileObject st)
    < Z.of_nat fuel ->
  Forall (offsets_in_stream (FileObject.data (fileObject st))) (files st) ->
  exists outcome,
    parse_loop is_thin fuel st = Some outcome
    /\ match outcome with
       | Ok rows =>
           Forall (offsets_in_stream (FileObject.data (fileObject st))) rows
       | Raise _ => True
       end.
Proof.
  revert st; induction fuel as [|fuel IH]; intros st Hpos Hfuel Hleft Hrows;
    [lia|].
  cbn [parse_loop].
  destruct (iteration is_thin st) as [|st'|e] eqn:Estep.
  - now exists (Ok (files st)).
  - destruct (iteration_continue is_thin st st' Hpos Estep)
      as (Hdata & Hheader & Hmove & Hkeep).
    destruct (IH st') as (outcome & Hloop & Hout);
      try rewrite Hdata; try lia; auto.
    exists outcome. split; [exact Hloop|]. now rewrite <- Hdata.
  - now exists (Raise e).
Qed.

(** C5, as amended.  Parsing an archive, thin or not, always comes to an
    end; when it returns rows, each of them has its header behind the magic
    bytes, [header_offset < data_offset], the data offset within the length
    of the stream, and [data_offset - header_offset] equal to 60, or to
    [60 + N] when the name field of its header is a BSD long name [#1/N].
    Nothing bounds [data_offset + size] by the length of the stream. *)
Theorem rows_lie_in_stream (data : bytes) :
  exists outcome,
    _parse_ar_archive (BytesIO data) = Some outcome
    /\ match outcome with
       | Ok rows => Forall (offsets_in_stream data) rows
       | Raise _ => True
       end.
Proof.
  unfold _parse_ar_archive.
  pose proof (read_pos (BytesIO data) 8) as Hpos.
  pose proof (read_data (BytesIO data) 8) as Hdata.
  destruct (FileObject.read (BytesIO data) 8) as [magic f].
  cbn [fst snd BytesIO FileObject.pos FileObject.data] in Hpos, Hdata.
  destruct (negb (bytes_eqb magic (blit "!<arch>" ++ [newline]))
            && negb (bytes_eqb magic (blit "!<thin>" ++ [newline])))
    eqn:Emagic.
  - now exists (Raise (RatarmountError "Invalid AR magic bytes")).
  - assert (Hlen : len magic = 8).
    { apply andb_false_iff in Emagic as [E|E]; apply negb_false_iff in E;
        apply bytes_eqb_eq in E; subst magic; reflexivity. }
    destruct (parse_loop_rows
                (bytes_eqb magic (blit "!<thin>" ++ [newline]))
                (_parse_ar_archive_fuel f)
                {| fileObject := f; files := []; long_names := None |})
      as (outcome & Hloop & Hout);
      cbn [fileObject files]; unfold _parse_ar_archive_fuel;
      try rewrite Hdata; try lia; auto.
    + unfold len. lia.
    + cbn [fileObject] in Hout. rewrite Hdata in Hout.
      unfold _parse_ar_archive_fuel in Hloop. rewrite Hdata in Hloop.
      exists outcome. split; [exact Hloop | exact Hout].
Qed.

(** C5, as stated, fails.  The member of the thin archive, whose body lies
    outside the archive, and the member of the truncated archive both get a
    row with [data_offset + size] beyond the end of the stream. *)
Lemma row_data_exceed_stream :
  _parse_ar_archive (BytesIO thin_archive) = Some (Ok [thin_row])
  /\ len thin_archive
     < TarInfo.offset_data thin_row + TarInfo.size thin_row
  /\ _parse_ar_archive (BytesIO truncated_archive) =
     Some (Ok [truncated_row])
  /\ len truncated_archive
     < TarInfo.offset_data truncated_row + TarInfo.size truncated_row.
Proof. repeat split; vm_compute; reflexivity. Qed.

(** The row of a BSD long name: the data start behind the 20 bytes of the
    name, and the size no longer counts them. *)
Example bsd_archive_row :
  _parse_ar_archive (BytesIO bsd_archive) =
    Some (Ok [ {| TarInfo.name := blit "a-long-bsd-file-name";
                  TarInfo.linkname := [];
                  TarInfo.offset := 8; TarInfo.offset_data := 88;
                  TarInfo.size := 4; TarInfo.mtime := 1700000000;
                  TarInfo.uid := 1000; TarInfo.gid := 1000;
                  TarInfo.mode := oct "100644"; TarInfo.type := REGTYPE |} ])
  /\ bsd_name_size (record_name bsd_archive 8) = Some 20.
Proof. split; vm_compute; reflexivity. Qed.

(** The row of the index keeps the offsets and the size of the entry. *)
Lemma ar_row_columns `{Environment} (self : ARMountSource.t)
  (info : TarInfo.t) (row : Row.t) :
  ARMountSource._convert_to_row self info = Ok row ->
  Row.offsetheader row = TarInfo.offset info
  /\ Row.offset row = TarInfo.offset_data info
  /\ Row.size row = TarInfo.size info.
Proof.
  unfold ARMountSource._convert_to_row.
  destruct (decode (TarInfo.name info)) as [name|]; [|discriminate].
  cbn [bind]. destruct (split_path name) as [path file_name].
  destruct (match TarInfo.linkname info with [] => _ | _ => _ end)
    as [linkname|]; [|discriminate].
  cbn [bind]. intros [= <-]. auto.
Qed.

(** ** The table of long names *)








(** ** The mode of the members of a thin archive *)

Lemma lor_land_same (x l : Z) : Z.lor (Z.land x l) l = l.
Proof.
  apply Z.bits_inj'. intros n _. rewrite Z.lor_spec, Z.land_spec.
  destruct (Z.testbit x n), (Z.testbit l n); reflexivity.
Qed.

(** The parser sets every bit of [S_IFLNK] in the mode of a thin member. *)
Lemma thin_header_mode_bits (header_data name : bytes)
  (mtime uid gid mode size : Z) :
  parse_header true header_data = Ok (name, mtime, uid, gid, mode, size) ->
  Z.land mode S_IFLNK = S_IFLNK.
Proof.
  unfold parse_header, unpack_header.
  destruct (negb (bytes_eqb _ _)); [discriminate|].
  destruct (parse_int (slice 16 28 header_data) 10 0) as [?|e];
    [|destruct e; discriminate].
  destruct (parse_int (slice 28 34 header_data) 10 0) as [?|e];
    [|destruct e; discriminate].
  destruct (parse_int (slice 34 40 header_data) 10 0) as [?|e];
    [|destruct e; discriminate].
  destruct (parse_int (slice 40 48 header_data) 8 (oct "660")) as [m|e];
    [|destruct e; discriminate].
  destruct (parse_int (slice 48 58 header_data) 10 0) as [?|e];
    [|destruct e; discriminate].
  cbn [bind reraise_value_error]. intros [= _ _ _ _ <- _].
  rewrite Z.land_lor_distr_l. change (Z.land S_IFLNK S_IFLNK) with S_IFLNK.
  apply lor_land_same.
Qed.

(** Such a mode is the mode of a symbolic link when the header states no
    directory, character device or FIFO bit. *)
Lemma thin_mode_is_symlink (m : Z) :
  Z.land m (oct "050000") = 0 ->
  S_ISLNK (Z.lor (Z.lor m S_IFREG) S_IFLNK) = true.
Proof.
  intros Hm. unfold S_ISLNK. apply Z.eqb_eq.
  rewrite !Z.land_lor_distr_l.
  change (Z.land S_IFREG S_IFMT) with S_IFREG.
  change (Z.land S_IFLNK S_IFMT) with S_IFLNK.
  change S_IFMT with (Z.lor (oct "050000") S_IFLNK).
  rewrite Z.land_lor_distr_r, Hm, Z.lor_0_l.
  rewrite <- Z.lor_assoc. change (Z.lor S_IFREG S_IFLNK) with S_IFLNK.
  apply lor_land_same.
Qed.

(** With a directory bit in the header the mode is not that of a symbolic
    link, and [open] hands out a reader. *)
Example thin_member_with_directory_mode :
  _parse_ar_archive (BytesIO thin_archive_with_directory_mode) =
    Some (Ok [ {| TarInfo.name := blit "bar/"; TarInfo.linkname := [];
                  TarInfo.offset := 8; TarInfo.offset_data := 68;
                  TarInfo.size := 4; TarInfo.mtime := 1700000000;
                  TarInfo.uid := 1000; TarInfo.gid := 1000;
                  TarInfo.mode := oct "160755"; TarInfo.type := REGTYPE |} ])
  /\ S_ISLNK (oct "160755") = false.
Proof. split; vm_compute; reflexivity. Qed.

(** ** Further examples *)

(** A payload of one character is a payload: the candidate is recorded. *)
Example one_character_payload_is_recorded :
  length (HTMLDataURLParser.files
            (HTMLDataURLParser.handle_starttag fresh_parser (lit "img")
               one_character_payload)) = 1%nat.
Proof. vm_compute. reflexivity. Qed.

(** The pattern is matched against the text with its references resolved:
    the written URL does not start with [data:], the resolved one does. *)
Example escaped_colon_url_matches :
  re_match DATA_URL_REGEX escaped_colon_url = None
  /\ DataURLFile.__init__ (Some escaped_colon_url) =
     Ok {| DataURLFile.mime_type := lit "text/plain";
           DataURLFile.valid := false;
           DataURLFile.encoding := lit "ascii";
           DataURLFile.is_base64 := false;
           DataURLFile.getvalue := blit "hi" |}.
Proof. split; vm_compute; reflexivity. Qed.

(** The URL of the class comment, decoded from base64. *)
Example base64_url_decodes :
  DataURLFile.__init__ (Some base64_url) =
  Ok {| DataURLFile.mime_type := lit "text/plain";
        DataURLFile.valid := false;
        DataURLFile.encoding := lit "ascii";
        DataURLFile.is_base64 := true;
        DataURLFile.getvalue := blit "Test Page with embed." |}.
Proof. vm_compute. reflexivity. Qed.

(** The archive with the late table, parsed as a whole. *)
Example late_index_archive_rows :
  option_map
    (fun outcome =>
       match outcome with
       | Ok rows => map TarInfo.name rows
       | Raise _ => []
       end)
    (_parse_ar_archive (BytesIO late_index_archive)) =
  Some [blit "long-name-number-zero"].
Proof. vm_compute. reflexivity. Qed.

(** The members of a thin archive keep their names and get the entries of
    the table as link targets; each of them is a symbolic link. *)
Example thin_archive_with_table_rows :
  option_map
    (fun outcome =>
       match outcome with
       | Ok rows =>
           map (fun info =>
                  (TarInfo.name info, TarInfo.linkname info,
                   S_ISLNK (TarInfo.mode info)))
             rows
       | Raise _ => []
       end)
    (_parse_ar_archive (BytesIO thin_archive_with_table)) =
  Some [ (blit "/0", blit "bar", true);
         (blit "/5", blit "1bar", true);
         (blit "/11", blit "folder/nested-file", true) ].
Proof. vm_compute. reflexivity. Qed.

(** * Properties of the further parts *)

(** The three ways in which a pass of the loop goes on: past the symbol
    table, past the table of long names, or with one more entry. *)
Lemma iteration_cases (is_thin : bool) (st st' : ar_state) :
  0 <= FileObject.pos (fileObject st) ->
  iteration is_thin st = Continue st' ->
  exists header_data f name mtime uid gid mode size,
    FileObject.read (fileObject st) HEADER_SIZE = (header_data, f)
    /\ len header_data = HEADER_SIZE
    /\ parse_header is_thin header_data =
       Ok (name, mtime, uid, gid, mode, size)
    /\ ((name = POSIX_SYMBOL_TABLE_NAME
         /\ st' = {| fileObject := FileObject.seek_cur f (size + size mod 2);
                     files := files st;
                     long_names := long_names st |})
        \/ (name <> POSIX_SYMBOL_TABLE_NAME /\ name = GNU_INDEX_NAME
            /\ st' = read_gnu_index is_thin f (files st) size)
        \/ (name <> POSIX_SYMBOL_TABLE_NAME /\ name <> GNU_INDEX_NAME
            /\ exists name_size,
                 0 <= name_size
                 /\ bsd_name_size name =
                    (if startswith Byte.eqb BSD_LONG_NAME_PREFIX name
                     then Some name_size else None)
                 /\ (if startswith Byte.eqb BSD_LONG_NAME_PREFIX name
                     then len (fst (FileObject.read f name_size)) = name_size
                     else name_size = 0)
                 /\ st' =
                    {| fileObject :=
                         FileObject.seek f
                           (if is_thin then FileObject.pos f
                            else FileObject.pos f + size + size mod 2);
                       files :=
                         files st ++
                         [emitted_entry is_thin (long_names st)
                            (if startswith Byte.eqb BSD_LONG_NAME_PREFIX name
                             then fst (FileObject.read f name_size)
                             else name)
                            (FileObject.pos (fileObject st))
                            (FileObject.pos f + name_size)
                            (size - name_size) mtime uid gid mode];
                       long_names := long_names st |})).
Proof.
  intros Hpos. unfold iteration.
  pose proof (read_pos (fileObject st) HEADER_SIZE) as Hrpos.
  pose proof (read_len (fileObject st) HEADER_SIZE Hpos) as Hrlen.
  change (HEADER_SIZE <? 0) with false in Hrlen. cbv iota in Hrlen.
  destruct (FileObject.read (fileObject st) HEADER_SIZE)
    as [header_data f] eqn:Eread.
  cbn [fst snd] in Hrpos, Hrlen.
  destruct header_data as [|b0 header_rest]; [discriminate|].
  set (header_data := b0 :: header_rest) in *.
  destruct (len header_data <? HEADER_SIZE) eqn:Elen; [discriminate|].
  apply Z.ltb_ge in Elen.
  assert (Hlen : len header_data = HEADER_SIZE) by (unfold HEADER_SIZE in *; lia).
  destruct (parse_header is_thin header_data)
    as [[[[[[name mtime] uid] gid] mode] size]|] eqn:Eheader;
    [|discriminate].
  unfold FileObject.tell.
  intros Hstep.
  exists header_data, f, name, mtime, uid, gid, mode, size.
  split; [reflexivity|]. split; [exact Hlen|]. split; [exact Eheader|].
  destruct (bytes_eqb name POSIX_SYMBOL_TABLE_NAME) eqn:Eposix.
  { left. apply bytes_eqb_eq in Eposix. now injection Hstep as <-. }
  assert (Hnp : name <> POSIX_SYMBOL_TABLE_NAME).
  { intros ->. discriminate Eposix. }
  destruct (bytes_eqb name GNU_INDEX_NAME) eqn:Egnu.
  { right; left. apply bytes_eqb_eq in Egnu. now injection Hstep as <-. }
  assert (Hng : name <> GNU_INDEX_NAME).
  { intros ->. discriminate Egnu. }
  right; right. split; [exact Hnp|]. split; [exact Hng|].
  unfold bsd_name_size.
  destruct (startswith Byte.eqb BSD_LONG_NAME_PREFIX name) eqn:Ebsd.
  - destruct (int (slice_from (len BSD_LONG_NAME_PREFIX) name) 10)
      as [name_size|] eqn:Eint; [|discriminate].
    exists name_size.
    pose proof (len_nonneg (fst (FileObject.read f name_size))) as Hnn.
    destruct (FileObject.read f name_size) as [long_name f2] eqn:Ename.
    cbn [fst snd] in *.
    destruct (len long_name =? name_size) eqn:Esize; [|discriminate].
    apply Z.eqb_eq in Esize. cbn [negb] in Hstep.
    split; [lia|]. split; [reflexivity|]. split; [exact Esize|].
    assert (Hf2 : FileObject.data f2 = FileObject.data f).
    { pose proof (read_data f name_size) as Hd. now rewrite Ename in Hd. }
    unfold emitted_entry, FileObject.seek. rewrite <- Hf2.
    destruct (truthy (long_names st)), is_thin; cbn [andb negb] in *;
      injection Hstep as <-; unfold HEADER_SIZE in *;
      repeat f_equal; lia.
  - exists 0.
    split; [lia|]. split; [reflexivity|]. split; [reflexivity|].
    unfold emitted_entry, FileObject.seek.
    destruct (truthy (long_names st)), is_thin; cbn [andb negb] in *;
      injection Hstep as <-; unfold HEADER_SIZE in *;
      repeat f_equal; lia.
Qed.

(** A property that every pass of the loop keeps holds at the end of the
    loop, for the rows that it returns. *)
Lemma parse_loop_invariant (is_thin : bool) (Inv : ar_state -> Prop) :
  (forall st st',
     8 <= FileObject.pos (fileObject st) ->
     Inv st -> iteration is_thin st = Continue st' -> Inv st') ->
  forall (fuel : nat) (st : ar_state) (rows : list TarInfo.t),
    8 <= FileObject.pos (fileObject st) ->
    Inv st ->
    parse_loop is_thin fuel st = Some (Ok rows) ->
    exists st', Inv st' /\ files st' = rows.
Proof.
  intros Hstep. induction fuel as [|fuel IH]; intros st rows Hpos Hinv;
    [discriminate|].
  cbn [parse_loop].
  destruct (iteration is_thin st) as [|st'|e] eqn:Eit.
  - intros [= <-]. now exists st.
  - intros Hloop.
    destruct (iteration_continue _ _ _ Hpos Eit) as (_ & _ & Hnext & _).
    apply (IH st' rows); [lia | now apply (Hstep st) | exact Hloop].
  - discriminate.
Qed.

Lemma bytes_eqb_firstn (m s : bytes) :
  bytes_eqb (firstn (length m) s) m = startswith Byte.eqb m s.
Proof.
  unfold bytes_eqb. revert s; induction m as [|x m IH]; intros [|y s];
    try reflexivity.
  cbn [length firstn seq_eqb startswith]. rewrite IH.
  f_equal. destruct (Byte.eqb x y) eqn:E.
  - apply Byte.byte_dec_bl in E. subst y. now apply Byte.byte_dec_lb.
  - destruct (Byte.eqb y x) eqn:E'; [|reflexivity].
    apply Byte.byte_dec_bl in E'. subst y. rewrite (Byte.byte_dec_lb eq_refl) in E. discriminate.
Qed.

(** The magic bytes decide how [_parse_ar_archive] goes on: it raises
    without them and runs the loop from offset 8 with them. *)
Lemma parse_ar_archive_magic (data : bytes) :
  _parse_ar_archive (BytesIO data) =
  if negb (startswith Byte.eqb (blit "!<arch>" ++ [newline]) data)
     && negb (is_thin_archive data)
  then Some (Raise (RatarmountError "Invalid AR magic bytes"))
  else parse_loop (is_thin_archive data) (S (length data))
         {| fileObject := {| FileObject.data := data; FileObject.pos := 8 |};
            files := []; long_names := None |}.
Proof.
  pose proof (bytes_eqb_firstn (blit "!<arch>" ++ [newline]) data) as Ha.
  pose proof (bytes_eqb_firstn (blit "!<thin>" ++ [newline]) data) as Ht.
  unfold _parse_ar_archive, is_thin_archive, FileObject.read, BytesIO.
  cbn [FileObject.data FileObject.pos]. change (8 <? 0) with false.
  cbv iota. unfold slice_from, slice_to.
  change (firstn (Z.to_nat 8) (skipn (Z.to_nat 0) data))
    with (firstn (length (blit "!<arch>" ++ [newline])) data).
  rewrite Ha.
  change (length (blit "!<arch>" ++ [newline]))
    with (length (blit "!<thin>" ++ [newline])).
  rewrite Ht.
  destruct (negb (startswith Byte.eqb (blit "!<arch>" ++ [newline]) data)
            && negb (startswith Byte.eqb (blit "!<thin>" ++ [newline]) data))
    eqn:Emagic; [reflexivity|].
  assert (Hlen : len (firstn (length (blit "!<thin>" ++ [newline])) data) = 8).
  { apply andb_false_iff in Emagic as [E|E]; apply negb_false_iff in E.
    - rewrite <- Ha in E. apply bytes_eqb_eq in E.
      change (length (blit "!<thin>" ++ [newline]))
        with (length (blit "!<arch>" ++ [newline])).
      now rewrite E.
    - rewrite <- Ht in E. apply bytes_eqb_eq in E. now rewrite E. }
  rewrite Hlen. reflexivity.
Qed.

(** A property of the state that holds in front of the first header and
    that every pass keeps holds for the rows of the archive. *)
Lemma parse_ar_archive_invariant (data : bytes) (Inv : ar_state -> Prop) :
  Inv {| fileObject := {| FileObject.data := data; FileObject.pos := 8 |};
         files := []; long_names := None |} ->
  (forall st st',
     8 <= FileObject.pos (fileObject st) ->
     FileObject.data (fileObject st) = data ->
     Inv st ->
     iteration (is_thin_archive data) st = Continue st' -> Inv st') ->
  forall rows,
    _parse_ar_archive (BytesIO data) = Some (Ok rows) ->
    exists st, Inv st /\ files st = rows.
Proof.
  intros Hinit Hstep rows. rewrite parse_ar_archive_magic.
  destruct (_ && _); [discriminate|]. intros Hloop.
  destruct (parse_loop_invariant (is_thin_archive data)
              (fun st => FileObject.data (fileObject st) = data /\ Inv st))
    with (fuel := S (length data)) (rows := rows)
         (st := {| fileObject :=
                     {| FileObject.data := data; FileObject.pos := 8 |};
                   files := []; long_names := None |})
    as (st & (_ & Hinv) & Hrows).
  - intros st st' Hpos [Hdata Hinv] Hit. split.
    + destruct (iteration_continue _ _ _ Hpos Hit) as (Hd & _).
      now rewrite Hd.
    + now apply (Hstep st).
  - cbn. lia.
  - split; [reflexivity | exact Hinit].
  - exact Hloop.
  - now exists st.
Qed.

Lemma StronglySorted_snoc {A : Type} (R : A -> A -> Prop) (l : list A)
  (x : A) :
  StronglySorted R l -> Forall (fun a => R a x) l ->
  StronglySorted R (l ++ [x]).
Proof.
  induction 1 as [|a l Hl IH Ha]; intros Hx.
  - repeat constructor.
  - inversion Hx; subst. cbn. constructor; [now apply IH|].
    apply Forall_app. split; [exact Ha | now constructor].
Qed.

Lemma StronglySorted_map_same {A : Type} (R : A -> A -> Prop) (h : A -> A)
  (l : list A) :
  (forall a b, R a b -> R (h a) (h b)) ->
  StronglySorted R l -> StronglySorted R (map h l).
Proof.
  intros Hh. induction 1 as [|a l Hl IH Ha]; cbn; constructor; [exact IH|].
  apply Forall_map. revert Ha. apply Forall_impl. intros b. apply Hh.
Qed.

(** The numeric fields of a header that parses. *)
Lemma parse_header_fields (is_thin : bool) (header_data name : bytes)
  (mtime uid gid mode size : Z) :
  parse_header is_thin header_data = Ok (name, mtime, uid, gid, mode, size) ->
  0 <= mtime /\ 0 <= uid /\ 0 <= gid /\ 0 <= size
  /\ exists m,
       0 <= m
       /\ mode = if is_thin then Z.lor (Z.lor m S_IFREG) S_IFLNK
                 else Z.lor m S_IFREG.
Proof.
  unfold parse_header, unpack_header.
  destruct (negb (bytes_eqb _ _)); [discriminate|].
  destruct (parse_int (slice 16 28 header_data) 10 0) as [?|e] eqn:E1;
    [|destruct e; discriminate].
  destruct (parse_int (slice 28 34 header_data) 10 0) as [?|e] eqn:E2;
    [|destruct e; discriminate].
  destruct (parse_int (slice 34 40 header_data) 10 0) as [?|e] eqn:E3;
    [|destruct e; discriminate].
  destruct (parse_int (slice 40 48 header_data) 8 (oct "660")) as [m|e] eqn:E4;
    [|destruct e; discriminate].
  destruct (parse_int (slice 48 58 header_data) 10 0) as [?|e] eqn:E5;
    [|destruct e; discriminate].
  cbn [bind reraise_value_error]. intros [= _ <- <- <- <- <-].
  repeat split;
    try (eapply parse_int_nonneg; [| |eassumption]; lia).
  exists m. split; [|reflexivity].
  eapply parse_int_nonneg; [| |exact E4]; [lia|]. now vm_compute.
Qed.

Lemma land_lor_same (m l : Z) : Z.land (Z.lor m l) l = l.
Proof.
  apply Z.bits_inj'. intros n _. rewrite Z.land_spec, Z.lor_spec.
  destruct (Z.testbit m n), (Z.testbit l n); reflexivity.
Qed.

Lemma apply_long_names_fields (is_thin : bool) (table : long_name_table)
  (info : TarInfo.t) :
  let info' := apply_long_names is_thin table info in
  TarInfo.offset info' = TarInfo.offset info
  /\ TarInfo.offset_data info' = TarInfo.offset_data info
  /\ TarInfo.size info' = TarInfo.size info
  /\ TarInfo.mtime info' = TarInfo.mtime info
  /\ TarInfo.uid info' = TarInfo.uid info
  /\ TarInfo.gid info' = TarInfo.gid info
  /\ TarInfo.mode info' = TarInfo.mode info
  /\ TarInfo.type info' = TarInfo.type info
  /\ (is_thin = true -> TarInfo.name info' = TarInfo.name info)
  /\ (is_thin = false -> TarInfo.linkname info' = TarInfo.linkname info).
Proof.
  unfold apply_long_names. destruct is_thin; cbn; repeat split; discriminate.
Qed.

(** A property of single rows that the table of long names does not touch
    and that every new row has is a property of all rows of the archive. *)
Lemma parse_ar_archive_rows (data : bytes) (P : TarInfo.t -> Prop) :
  (forall table info,
     P info -> P (apply_long_names (is_thin_archive data) table info)) ->
  (forall st header_data f name mtime uid gid mode size name_size,
     8 <= FileObject.pos (fileObject st) ->
     FileObject.data (fileObject st) = data ->
     FileObject.read (fileObject st) HEADER_SIZE = (header_data, f) ->
     len header_data = HEADER_SIZE ->
     parse_header (is_thin_archive data) header_data =
       Ok (name, mtime, uid, gid, mode, size) ->
     name <> POSIX_SYMBOL_TABLE_NAME -> name <> GNU_INDEX_NAME ->
     0 <= name_size ->
     bsd_name_size name =
       (if startswith Byte.eqb BSD_LONG_NAME_PREFIX name
        then Some name_size else None) ->
     (if startswith Byte.eqb BSD_LONG_NAME_PREFIX name
      then len (fst (FileObject.read f name_size)) = name_size
      else name_size = 0) ->
     P (emitted_entry (is_thin_archive data) (long_names st)
          (if startswith Byte.eqb BSD_LONG_NAME_PREFIX name
           then fst (FileObject.read f name_size) else name)
          (FileObject.pos (fileObject st))
          (FileObject.pos f + name_size)
          (size - name_size) mtime uid gid mode)) ->
  forall rows,
    _parse_ar_archive (BytesIO data) = Some (Ok rows) -> Forall P rows.
Proof.
  intros Htable Hnew rows Hparse.
  destruct (parse_ar_archive_invariant data (fun st => Forall P (files st)))
    with (rows := rows) as (st & Hinv & <-); try assumption.
  - constructor.
  - intros st st' Hpos Hdata Hinv Hit.
    assert (Hpos0 : 0 <= FileObject.pos (fileObject st)) by lia.
    destruct (iteration_cases _ _ _ Hpos0 Hit)
      as (header_data & f & name & mtime & uid & gid & mode & size
          & Hread & Hlen & Hheader & Hcases).
    destruct Hcases as [[_ ->]|[(_ & _ & ->)|(Hnp & Hng & name_size & Hns
                                               & Hbsd & Hraw & ->)]].
    + exact Hinv.
    + destruct (read_gnu_index_spec (is_thin_archive data) f (files st) size)
        as (_ & _ & -> & _).
      apply Forall_map. revert Hinv. apply Forall_impl. intros info.
      apply Htable.
    + cbn [files]. apply Forall_app. split; [exact Hinv|].
      constructor; [|constructor]. now apply (Hnew st header_data f).
Qed.

Lemma two_member_archive_rows :
  _parse_ar_archive (BytesIO two_member_archive) = Some (Ok two_member_rows).
Proof. vm_compute. reflexivity. Qed.

Lemma thin_archive_with_table_parses :
  _parse_ar_archive (BytesIO thin_archive_with_table) =
  Some (Ok thin_rows_with_table).
Proof. vm_compute. reflexivity. Qed.

(** ** The rows of an archive *)

Lemma parsed_rows_sorted (data : bytes) (rows : list TarInfo.t) :
  _parse_ar_archive (BytesIO data) = Some (Ok rows) ->
  StronglySorted
    (fun a b => TarInfo.offset a + HEADER_SIZE <= TarInfo.offset b) rows.
Proof.
  intros Hparse.
  set (R := fun a b => TarInfo.offset a + HEADER_SIZE <= TarInfo.offset b).
  destruct (parse_ar_archive_invariant data
              (fun st =>
                 StronglySorted R (files st)
                 /\ Forall (fun a => TarInfo.offset a + HEADER_SIZE
                                     <= FileObject.pos (fileObject st))
                      (files st)))
    with (rows := rows) as (st & [Hsorted _] & <-); try assumption.
  - split; constructor.
  - intros st st' Hpos Hdata [Hsorted Hbelow] Hit.
    assert (Hpos0 : 0 <= FileObject.pos (fileObject st)) by lia.
    destruct (iteration_continue _ _ _ Hpos Hit) as (_ & _ & Hnext & _).
    assert (Hbelow' : Forall (fun a => TarInfo.offset a + HEADER_SIZE
                                       <= FileObject.pos (fileObject st'))
                        (files st)).
    { revert Hbelow. apply Forall_impl. intros a. lia. }
    destruct (iteration_cases _ _ _ Hpos0 Hit)
      as (header_data & f & name & mtime & uid & gid & mode & size
          & Hread & Hlen & Hheader & Hcases).
    destruct Hcases as [[_ Hst]|[(_ & _ & Hst)|(_ & _ & name_size & _
                                               & _ & _ & Hst)]].
    + rewrite Hst in *. split; assumption.
    + destruct (read_gnu_index_spec (is_thin_archive data) f (files st) size)
        as (_ & _ & Hfiles & _).
      rewrite <- Hst in Hfiles. rewrite Hfiles. split.
      * apply StronglySorted_map_same; [|exact Hsorted].
        intros a b. unfold R.
        destruct (apply_long_names_fields (is_thin_archive data)
                    (read_long_names (is_thin_archive data) f size) a)
          as (-> & _).
        destruct (apply_long_names_fields (is_thin_archive data)
                    (read_long_names (is_thin_archive data) f size) b)
          as (-> & _).
        auto.
      * apply Forall_map. revert Hbelow'. apply Forall_impl. intros a.
        destruct (apply_long_names_fields (is_thin_archive data)
                    (read_long_names (is_thin_archive data) f size) a)
          as (-> & _).
        auto.
    + assert (Hfiles : files st' = files st ++
                [emitted_entry (is_thin_archive data) (long_names st)
                   (if startswith Byte.eqb BSD_LONG_NAME_PREFIX name
                    then fst (FileObject.read f name_size) else name)
                   (FileObject.pos (fileObject st))
                   (FileObject.pos f + name_size)
                   (size - name_size) mtime uid gid mode])
        by now rewrite Hst.
      rewrite Hfiles. split.
      * apply StronglySorted_snoc; [exact Hsorted|].
        revert Hbelow. apply Forall_impl. intros a. unfold R. cbn. lia.
      * apply Forall_app. split; [exact Hbelow'|].
        constructor; [|constructor]. cbn. unfold HEADER_SIZE. lia.
Qed.

(** X1.  The rows of an archive, thin or not, come in the order of their
    headers in the stream, and the headers do not overlap: each header
    starts 60 bytes or more behind the start of the one before. *)
Theorem rows_in_header_order (data : bytes) (rows : list TarInfo.t) :
  _parse_ar_archive (BytesIO data) = Some (Ok rows) ->
  StronglySorted
    (fun a b => TarInfo.offset a + HEADER_SIZE <= TarInfo.offset b) rows.
Proof. apply parsed_rows_sorted. Qed.

Lemma rows_in_header_order_witness :
  _parse_ar_archive (BytesIO thin_archive_with_table) =
    Some (Ok thin_rows_with_table)
  /\ StronglySorted
       (fun a b => TarInfo.offset a + HEADER_SIZE <= TarInfo.offset b)
       thin_rows_with_table.
Proof.
  assert (Hparse : _parse_ar_archive (BytesIO thin_archive_with_table) =
                   Some (Ok thin_rows_with_table))
    by (vm_compute; reflexivity).
  split; [exact Hparse|].
  exact (rows_in_header_order thin_archive_with_table thin_rows_with_table
           Hparse).
Defined.

(** X2.  In a regular archive the members do not overlap: the data of a
    row, as long as its size says, end where the header of any later row
    starts, or before. *)
Theorem regular_members_do_not_overlap (data : bytes)
  (rows : list TarInfo.t) :
  is_thin_archive data = false ->
  _parse_ar_archive (BytesIO data) = Some (Ok rows) ->
  StronglySorted
    (fun a b =>
       TarInfo.offset_data a + TarInfo.size a <= TarInfo.offset b) rows.
Proof.
  intros Hthin Hparse.
  set (R := fun a b =>
              TarInfo.offset_data a + TarInfo.size a <= TarInfo.offset b).
  destruct (parse_ar_archive_invariant data
              (fun st =>
                 StronglySorted R (files st)
                 /\ Forall (fun a => TarInfo.offset_data a + TarInfo.size a
                                     <= FileObject.pos (fileObject st))
                      (files st)))
    with (rows := rows) as (st & [Hsorted _] & <-); try assumption.
  - split; constructor.
  - rewrite Hthin.
    intros st st' Hpos Hdata [Hsorted Hbelow] Hit.
    assert (Hpos0 : 0 <= FileObject.pos (fileObject st)) by lia.
    destruct (iteration_continue _ _ _ Hpos Hit) as (_ & _ & Hnext & _).
    assert (Hbelow' : Forall (fun a => TarInfo.offset_data a + TarInfo.size a
                                       <= FileObject.pos (fileObject st'))
                        (files st)).
    { revert Hbelow. apply Forall_impl. intros a. lia. }
    destruct (iteration_cases _ _ _ Hpos0 Hit)
      as (header_data & f & name & mtime & uid & gid & mode & size
          & Hread & Hlen & Hheader & Hcases).
    destruct (parse_header_fields _ _ _ _ _ _ _ _ Hheader)
      as (_ & _ & _ & Hsize & _).
    pose proof (Z.mod_pos_bound size 2 ltac:(lia)) as Hmod.
    destruct Hcases as [[_ Hst]|[(_ & _ & Hst)|(_ & _ & name_size & _
                                               & _ & _ & Hst)]].
    + rewrite Hst in *. split; assumption.
    + destruct (read_gnu_index_spec false f (files st) size)
        as (_ & _ & Hfiles & _).
      rewrite <- Hst in Hfiles. rewrite Hfiles. split.
      * apply StronglySorted_map_same; [|exact Hsorted].
        intros a b. unfold R.
        destruct (apply_long_names_fields false
                    (read_long_names false f size) a)
          as (_ & -> & -> & _).
        destruct (apply_long_names_fields false
                    (read_long_names false f size) b)
          as (-> & _).
        auto.
      * apply Forall_map. revert Hbelow'. apply Forall_impl. intros a.
        destruct (apply_long_names_fields false
                    (read_long_names false f size) a)
          as (_ & -> & -> & _).
        auto.
    + assert (Hfiles : files st' = files st ++
                [emitted_entry false (long_names st)
                   (if startswith Byte.eqb BSD_LONG_NAME_PREFIX name
                    then fst (FileObject.read f name_size) else name)
                   (FileObject.pos (fileObject st))
                   (FileObject.pos f + name_size)
                   (size - name_size) mtime uid gid mode])
        by now rewrite Hst.
      assert (Hp' : FileObject.pos (fileObject st') =
                    FileObject.pos f + size + size mod 2)
        by now rewrite Hst.
      rewrite Hfiles. split.
      * apply StronglySorted_snoc; [exact Hsorted|].
        revert Hbelow. apply Forall_impl. intros a. unfold R. cbn. lia.
      * apply Forall_app. split; [exact Hbelow'|].
        constructor; [|constructor]. cbn. lia.
Qed.

Lemma regular_members_do_not_overlap_witness :
  _parse_ar_archive (BytesIO two_member_archive) = Some (Ok two_member_rows)
  /\ StronglySorted
       (fun a b =>
          TarInfo.offset_data a + TarInfo.size a <= TarInfo.offset b)
       two_member_rows.
Proof.
  assert (Hparse : _parse_ar_archive (BytesIO two_member_archive) =
                   Some (Ok two_member_rows))
    by (vm_compute; reflexivity).
  split; [exact Hparse|].
  apply (regular_members_do_not_overlap two_member_archive);
    [reflexivity | exact Hparse].
Defined.

(** Where the stream stands behind the table of long names of a regular
    archive: behind the bytes that were read, and one byte further for a
    table of odd size. *)
Lemma read_gnu_index_pos (f : FileObject.t) (rows : list TarInfo.t)
  (size : Z) :
  FileObject.pos (fileObject (read_gnu_index false f rows size)) =
  FileObject.pos f + len (fst (FileObject.read f size))
  + (if size mod 2 =? 0 then 0 else 1).
Proof.
  unfold read_gnu_index.
  pose proof (read_pos f size) as Hpos.
  pose proof (Z.mod_pos_bound size 2 ltac:(lia)) as Hmod.
  destruct (FileObject.read f size) as [table f'].
  cbn [fst snd] in *.
  destruct (size mod 2 =? 0) eqn:Eeven; cbn; [lia|].
  apply Z.eqb_neq in Eeven. lia.
Qed.

(** X3.  In a regular archive every row has its header on an even byte
    boundary. *)
Theorem regular_headers_on_even_offsets (data : bytes)
  (rows : list TarInfo.t) :
  is_thin_archive data = false ->
  _parse_ar_archive (BytesIO data) = Some (Ok rows) ->
  Forall (fun info => TarInfo.offset info mod 2 = 0) rows.
Proof.
  intros Hthin Hparse.
  destruct (parse_ar_archive_invariant data
              (fun st =>
                 Forall (fun info => TarInfo.offset info mod 2 = 0) (files st)
                 /\ (FileObject.pos (fileObject st) mod 2 = 0
                     \/ len data <= FileObject.pos (fileObject st))))
    with (rows := rows) as (st & [Hrows _] & <-); try assumption.
  - split; [constructor | left; reflexivity].
  - rewrite Hthin.
    intros st st' Hpos Hdata [Hrows Heven] Hit.
    assert (Hpos0 : 0 <= FileObject.pos (fileObject st)) by lia.
    destruct (iteration_continue _ _ _ Hpos Hit) as (_ & Hfits & _).
    rewrite Hdata in Hfits.
    destruct Heven as [Heven|Hend]; [|lia].
    destruct (iteration_cases _ _ _ Hpos0 Hit)
      as (header_data & f & name & mtime & uid & gid & mode & size
          & Hread & Hlen & Hheader & Hcases).
    pose proof (read_pos (fileObject st) HEADER_SIZE) as Hfpos.
    pose proof (read_data (fileObject st) HEADER_SIZE) as Hfdata.
    rewrite Hread in Hfpos, Hfdata. cbn [fst snd] in Hfpos, Hfdata.
    rewrite Hlen in Hfpos. unfold HEADER_SIZE in Hfpos.
    destruct (parse_header_fields _ _ _ _ _ _ _ _ Hheader)
      as (_ & _ & _ & Hsize & _).
    destruct Hcases as [[_ Hst]|[(_ & _ & Hst)|(_ & _ & name_size & _
                                               & _ & _ & Hst)]].
    + rewrite Hst. cbn. split; [exact Hrows|]. left.
      Z.div_mod_to_equations. lia.
    + destruct (read_gnu_index_spec false f (files st) size)
        as (_ & _ & Hfiles & _).
      pose proof (read_gnu_index_pos f (files st) size) as Hp.
      rewrite <- Hst in Hfiles, Hp. rewrite Hfiles. split.
      * apply Forall_map. revert Hrows. apply Forall_impl. intros a.
        destruct (apply_long_names_fields false
                    (read_long_names false f size) a) as (-> & _).
        auto.
      * rewrite Hp.
        assert (Hf0 : 0 <= FileObject.pos f) by lia.
        pose proof (read_len f size Hf0) as Hl.
        destruct (size <? 0) eqn:Eneg; [apply Z.ltb_lt in Eneg; lia|].
        rewrite Hfdata, Hdata in Hl.
        destruct (size mod 2 =? 0) eqn:Epar;
          [apply Z.eqb_eq in Epar | apply Z.eqb_neq in Epar];
          destruct (Z.eq_dec (len (fst (FileObject.read f size))) size)
            as [Hfull|Hshort];
          try (right; lia);
          left; rewrite Hfull; Z.div_mod_to_equations; lia.
    + rewrite Hst. cbn [files fileObject FileObject.seek FileObject.pos].
      split.
      * apply Forall_app. split; [exact Hrows|].
        constructor; [|constructor]. exact Heven.
      * left. Z.div_mod_to_equations. lia.
Qed.

Lemma regular_headers_on_even_offsets_witness :
  _parse_ar_archive (BytesIO two_member_archive) = Some (Ok two_member_rows)
  /\ Forall (fun info => TarInfo.offset info mod 2 = 0) two_member_rows.
Proof.
  assert (Hparse : _parse_ar_archive (BytesIO two_member_archive) =
                   Some (Ok two_member_rows))
    by (vm_compute; reflexivity).
  split; [exact Hparse|].
  apply (regular_headers_on_even_offsets two_member_archive);
    [reflexivity | exact Hparse].
Defined.

Lemma lor_absorb (m l : Z) : Z.land m l = l -> Z.lor m l = m.
Proof.
  intros Hl. rewrite <- Hl. apply Z.bits_inj'. intros n _.
  rewrite Z.lor_spec, Z.land_spec.
  destruct (Z.testbit m n), (Z.testbit l n); reflexivity.
Qed.

Lemma regular_bit_is_no_directory (mode : Z) :
  Z.land mode S_IFREG = S_IFREG -> S_ISDIR mode = false.
Proof.
  intros Hreg. unfold S_ISDIR. apply Z.eqb_neq. intros Hdir.
  apply (f_equal (fun x => Z.testbit x 15)) in Hreg, Hdir.
  rewrite Z.land_spec in Hreg, Hdir.
  change (Z.testbit S_IFREG 15) with true in Hreg.
  change (Z.testbit S_IFMT 15) with true in Hdir.
  change (Z.testbit S_IFDIR 15) with false in Hdir.
  rewrite andb_true_r in Hreg, Hdir. congruence.
Qed.

(** The bits that the parser sets in the mode of every row. *)
Lemma parsed_modes (data : bytes) (rows : list TarInfo.t) :
  _parse_ar_archive (BytesIO data) = Some (Ok rows) ->
  Forall (fun info =>
            Z.land (TarInfo.mode info) S_IFREG = S_IFREG
            /\ (TarInfo.type info = SYMTYPE ->
                Z.land (TarInfo.mode info) S_IFLNK = S_IFLNK)
            /\ (is_thin_archive data = true ->
                Z.land (TarInfo.mode info) S_IFLNK = S_IFLNK))
    rows.
Proof.
  apply (parse_ar_archive_rows data).
  - intros table a.
    destruct (apply_long_names_fields (is_thin_archive data) table a)
      as (_ & _ & _ & _ & _ & _ & -> & -> & _).
    auto.
  - intros st header_data f name mtime uid gid mode size name_size
      _ _ _ _ Hheader _ _ _ _ _.
    destruct (parse_header_fields _ _ _ _ _ _ _ _ Hheader)
      as (_ & _ & _ & _ & m & _ & ->).
    unfold emitted_entry. cbn [TarInfo.mode TarInfo.type].
    destruct (is_thin_archive data).
    + rewrite andb_true_r.
      assert (Hlnk : Z.land (Z.lor (Z.lor m S_IFREG) S_IFLNK) S_IFLNK
                     = S_IFLNK) by apply land_lor_same.
      repeat split; auto.
      rewrite <- Z.lor_assoc.
      change (Z.lor S_IFREG S_IFLNK) with S_IFLNK.
      rewrite Z.land_lor_distr_l.
      change (Z.land S_IFLNK S_IFREG) with S_IFREG.
      apply lor_land_same.
    + rewrite andb_false_r.
      repeat split; try discriminate. apply land_lor_same.
Qed.

(** [_convert_to_row] adds no bit to a mode that has those of its type. *)
Lemma convert_to_row_keeps_mode `{Environment} (self : ARMountSource.t)
  (info : TarInfo.t) (row : Row.t) :
  Z.land (TarInfo.mode info) S_IFREG = S_IFREG ->
  (TarInfo.type info = SYMTYPE ->
   Z.land (TarInfo.mode info) S_IFLNK = S_IFLNK) ->
  ARMountSource._convert_to_row self info = Ok row ->
  Row.mode row = TarInfo.mode info.
Proof.
  intros Hreg Hsym. unfold ARMountSource._convert_to_row.
  destruct (decode (TarInfo.name info)) as [name|]; [|discriminate].
  cbn [bind]. destruct (split_path name) as [path file_name].
  destruct (match TarInfo.linkname info with [] => _ | _ => _ end)
    as [linkname|]; [|discriminate].
  cbn [bind]. intros [= <-]. cbn [Row.mode TarInfo.isdir].
  destruct (TarInfo.mode info =? 0) eqn:Ezero.
  { apply Z.eqb_eq in Ezero. rewrite Ezero in Hreg. discriminate Hreg. }
  unfold TarInfo.issym.
  destruct (TarInfo.type info).
  - rewrite Z.lor_diag. now apply lor_absorb.
  - rewrite (lor_absorb _ _ (Hsym eq_refl)). now apply lor_absorb.
Qed.

(** X4.  Every row of an archive has the bit of a regular file in its mode
    and is never a directory, a row of a thin archive has all bits of a
    symbolic link, and [_convert_to_row] stores the mode of a row as the
    parser made it. *)
Theorem parsed_mode_is_kept `{Environment} (self : ARMountSource.t)
  (data : bytes) (rows : list TarInfo.t) (info : TarInfo.t) (row : Row.t) :
  _parse_ar_archive (BytesIO data) = Some (Ok rows) ->
  In info rows ->
  ARMountSource._convert_to_row self info = Ok row ->
  Row.mode row = TarInfo.mode info
  /\ Z.land (Row.mode row) S_IFREG = S_IFREG
  /\ S_ISDIR (Row.mode row) = false
  /\ (is_thin_archive data = true ->
      Z.land (Row.mode row) S_IFLNK = S_IFLNK).
Proof.
  intros Hparse Hin Hrow.
  pose proof (parsed_modes data rows Hparse) as Hall.
  rewrite Forall_forall in Hall.
  destruct (Hall info Hin) as (Hreg & Hsym & Hthin).
  rewrite (convert_to_row_keeps_mode self info row Hreg Hsym Hrow).
  repeat split; auto.
  now apply regular_bit_is_no_directory.
Qed.

Lemma parsed_mode_is_kept_witness :
  exists row,
    ARMountSource._convert_to_row {| ARMountSource.blockSize := 512 |}
      thin_member_with_table = Ok row
    /\ Row.mode row = TarInfo.mode thin_member_with_table
    /\ Z.land (Row.mode row) S_IFREG = S_IFREG
    /\ S_ISDIR (Row.mode row) = false
    /\ (is_thin_archive thin_archive_with_table = true ->
        Z.land (Row.mode row) S_IFLNK = S_IFLNK).
Proof.
  eexists. split; [vm_compute; reflexivity|].
  apply (parsed_mode_is_kept {| ARMountSource.blockSize := 512 |}
           thin_archive_with_table thin_rows_with_table
           thin_member_with_table).
  - vm_compute; reflexivity.
  - simpl. auto.
  - vm_compute; reflexivity.
Defined.

(** X5.  The time stamp, the owner and the group of a row are never
    negative, and neither is the size that its header states, which is the
    size of the row and of the BSD long name in front of its data.  *)
Theorem parsed_fields_are_not_negative (data : bytes)
  (rows : list TarInfo.t) :
  _parse_ar_archive (BytesIO data) = Some (Ok rows) ->
  Forall (fun info =>
            0 <= TarInfo.mtime info /\ 0 <= TarInfo.uid info
            /\ 0 <= TarInfo.gid info /\ 0 <= header_size info)
    rows.
Proof.
  apply (parse_ar_archive_rows data).
  - intros table a. unfold header_size.
    destruct (apply_long_names_fields (is_thin_archive data) table a)
      as (-> & -> & -> & -> & -> & -> & _).
    auto.
  - intros st header_data f name mtime uid gid mode size name_size
      _ _ Hread Hlen Hheader _ _ _ _ _.
    destruct (parse_header_fields _ _ _ _ _ _ _ _ Hheader)
      as (Hmtime & Huid & Hgid & Hsize & _).
    pose proof (read_pos (fileObject st) HEADER_SIZE) as Hfpos.
    rewrite Hread in Hfpos. cbn [fst snd] in Hfpos.
    unfold emitted_entry, header_size. cbn. repeat split; try assumption.
    lia.
Qed.

Lemma parsed_fields_are_not_negative_witness :
  _parse_ar_archive (BytesIO two_member_archive) = Some (Ok two_member_rows)
  /\ Forall (fun info =>
               0 <= TarInfo.mtime info /\ 0 <= TarInfo.uid info
               /\ 0 <= TarInfo.gid info /\ 0 <= header_size info)
       two_member_rows.
Proof.
  assert (Hparse : _parse_ar_archive (BytesIO two_member_archive) =
                   Some (Ok two_member_rows))
    by (vm_compute; reflexivity).
  split; [exact Hparse|].
  exact (parsed_fields_are_not_negative two_member_archive two_member_rows
           Hparse).
Defined.

(** X6.  A regular archive has no symbolic links: its rows have no link
    target and the type of a regular file, and [_convert_to_row] leaves the
    column of the link name empty. *)
Theorem regular_archive_has_no_links `{Environment}
  (self : ARMountSource.t) (data : bytes) (rows : list TarInfo.t)
  (info : TarInfo.t) (row : Row.t) :
  is_thin_archive data = false ->
  _parse_ar_archive (BytesIO data) = Some (Ok rows) ->
  In info rows ->
  ARMountSource._convert_to_row self info = Ok row ->
  TarInfo.linkname info = [] /\ TarInfo.issym info = false
  /\ Row.linkname row = [].
Proof.
  intros Hthin Hparse Hin Hrow.
  assert (Hall : Forall
                   (fun info => TarInfo.linkname info = []
                                /\ TarInfo.type info = REGTYPE) rows).
  { apply (parse_ar_archive_rows data); [| |exact Hparse]; rewrite Hthin.
    - intros table a.
      destruct (apply_long_names_fields false table a)
        as (_ & _ & _ & _ & _ & _ & _ & -> & _ & ->); auto.
    - intros. unfold emitted_entry. cbn. rewrite andb_false_r. auto. }
  rewrite Forall_forall in Hall.
  destruct (Hall info Hin) as (Hlink & Htype).
  split; [exact Hlink|]. split; [unfold TarInfo.issym; now rewrite Htype|].
  revert Hrow. unfold ARMountSource._convert_to_row.
  destruct (decode (TarInfo.name info)) as [name|]; [|discriminate].
  cbn [bind]. destruct (split_path name) as [path file_name].
  rewrite Hlink. cbn [bind]. now intros [= <-].
Qed.

Lemma regular_archive_has_no_links_witness :
  exists row,
    ARMountSource._convert_to_row {| ARMountSource.blockSize := 512 |}
      first_member = Ok row
    /\ TarInfo.linkname first_member = []
    /\ TarInfo.issym first_member = false
    /\ Row.linkname row = [].
Proof.
  eexists. split; [vm_compute; reflexivity|].
  apply (regular_archive_has_no_links {| ARMountSource.blockSize := 512 |}
           two_member_archive two_member_rows first_member).
  - reflexivity.
  - vm_compute; reflexivity.
  - simpl. auto.
  - vm_compute; reflexivity.
Defined.


(** ** The link targets of a thin archive *)






(** The link targets of the thin archive with its table in front: the
    record [//] at offset 8 holds the table, and every row has its link
    target from there, for the name of its member. *)
Example thin_archive_with_table_link_targets :
  record_name thin_archive_with_table 8 = GNU_INDEX_NAME
  /\ slice 68 100 thin_archive_with_table =
     blit "bar/" ++ [newline] ++ blit "1bar/" ++ [newline]
     ++ blit "folder/nested-file/" ++ [newline; newline]
  /\ map (fun info =>
            (TarInfo.name info, TarInfo.linkname info,
             bytes_eqb (TarInfo.linkname info)
               (get_long_file_name true
                  (Some (Raw (slice 68 100 thin_archive_with_table)))
                  (member_name thin_archive_with_table info))))
       thin_rows_with_table =
     [ (blit "/0", blit "bar", true);
       (blit "/5", blit "1bar", true);
       (blit "/11", blit "folder/nested-file", true) ].
Proof. repeat split; vm_compute; reflexivity. Qed.

(** X8.  The symbol table and the table of long names get no row: no row
    has its header at a record named [/] or [//]. *)
Theorem special_records_get_no_row (data : bytes) (rows : list TarInfo.t) :
  _parse_ar_archive (BytesIO data) = Some (Ok rows) ->
  Forall (fun info =>
            record_name data (TarInfo.offset info) <> POSIX_SYMBOL_TABLE_NAME
            /\ record_name data (TarInfo.offset info) <> GNU_INDEX_NAME)
    rows.
Proof.
  apply (parse_ar_archive_rows data).
  - intros table a.
    destruct (apply_long_names_fields (is_thin_archive data) table a)
      as (-> & _).
    auto.
  - intros st header_data f name mtime uid gid mode size name_size
      Hpos Hdata Hread Hlen Hheader Hnp Hng _ _ _.
    destruct (parse_header_ok _ _ _ _ _ _ _ _ Hheader) as [Hname _].
    pose proof (record_name_read _ _ _ Hread) as Hrec.
    rewrite Hdata, <- Hname in Hrec.
    unfold emitted_entry. cbn [TarInfo.offset]. rewrite Hrec. auto.
Qed.

Lemma special_records_get_no_row_witness :
  _parse_ar_archive (BytesIO thin_archive_with_table) =
    Some (Ok thin_rows_with_table)
  /\ Forall (fun info =>
               record_name thin_archive_with_table (TarInfo.offset info)
               <> POSIX_SYMBOL_TABLE_NAME
               /\ record_name thin_archive_with_table (TarInfo.offset info)
                  <> GNU_INDEX_NAME)
       thin_rows_with_table.
Proof.
  assert (Hparse : _parse_ar_archive (BytesIO thin_archive_with_table) =
                   Some (Ok thin_rows_with_table))
    by (vm_compute; reflexivity).
  split; [exact Hparse|].
  exact (special_records_get_no_row thin_archive_with_table
           thin_rows_with_table Hparse).
Defined.

Lemma parse_int_raises (field : bytes) (base default : Z) (e : exn) :
  parse_int field base default = Raise e -> e = ValueError.
Proof.
  rewrite parse_int_layout.
  destruct (well_formed_field base field); [discriminate|]. now intros [= <-].
Qed.

Lemma parse_header_errors (is_thin : bool) (header_data : bytes) (e : exn) :
  parse_header is_thin header_data = Raise e ->
  e = RatarmountError "Invalid AR file header ending characters!"
  \/ e = RatarmountError "Invalid AR archive!".
Proof.
  unfold parse_header, unpack_header.
  destruct (negb (bytes_eqb _ _)); [intros [= <-]; now left|].
  destruct (parse_int (slice 16 28 header_data) 10 0) as [?|e1] eqn:E1;
    [|rewrite (parse_int_raises _ _ _ _ E1); intros [= <-]; now right].
  destruct (parse_int (slice 28 34 header_data) 10 0) as [?|e2] eqn:E2;
    [|rewrite (parse_int_raises _ _ _ _ E2); intros [= <-]; now right].
  destruct (parse_int (slice 34 40 header_data) 10 0) as [?|e3] eqn:E3;
    [|rewrite (parse_int_raises _ _ _ _ E3); intros [= <-]; now right].
  destruct (parse_int (slice 40 48 header_data) 8 (oct "660"))
    as [?|e4] eqn:E4;
    [|rewrite (parse_int_raises _ _ _ _ E4); intros [= <-]; now right].
  destruct (parse_int (slice 48 58 header_data) 10 0) as [?|e5] eqn:E5;
    [|rewrite (parse_int_raises _ _ _ _ E5); intros [= <-]; now right].
  discriminate.
Qed.

Lemma iteration_errors (is_thin : bool) (st : ar_state) (e : exn) :
  iteration is_thin st = Fail e -> In e loop_errors.
Proof.
  unfold iteration, loop_errors.
  destruct (FileObject.read (fileObject st) HEADER_SIZE) as [header_data f].
  destruct header_data as [|b0 header_rest]; [discriminate|].
  destruct (len (b0 :: header_rest) <? HEADER_SIZE);
    [intros [= <-]; cbn; auto|].
  destruct (parse_header is_thin (b0 :: header_rest))
    as [[[[[[name mtime] uid] gid] mode] size]|e'] eqn:Eheader.
  2:{ intros [= <-].
      destruct (parse_header_errors _ _ _ Eheader) as [->| ->]; cbn; auto. }
  destruct (bytes_eqb name POSIX_SYMBOL_TABLE_NAME); [discriminate|].
  destruct (bytes_eqb name GNU_INDEX_NAME); [discriminate|].
  destruct (startswith Byte.eqb BSD_LONG_NAME_PREFIX name).
  - destruct (int (slice_from (len BSD_LONG_NAME_PREFIX) name) 10)
      as [name_size|]; [|intros [= <-]; cbn; auto 6].
    destruct (FileObject.read f name_size) as [long_name f2].
    destruct (negb (len long_name =? name_size));
      [intros [= <-]; cbn; auto 6|].
    destruct (if truthy (long_names st) then _ else _) as [[n l] t].
    discriminate.
  - destruct (if truthy (long_names st) then _ else _) as [[n l] t].
    discriminate.
Qed.

Lemma parse_loop_errors (is_thin : bool) (fuel : nat) (st : ar_state)
  (e : exn) :
  parse_loop is_thin fuel st = Some (Raise e) -> In e loop_errors.
Proof.
  revert st; induction fuel as [|fuel IH]; intros st; [discriminate|].
  cbn [parse_loop].
  destruct (iteration is_thin st) as [|st'|e'] eqn:Eit.
  - discriminate.
  - apply IH.
  - intros [= <-]. now apply (iteration_errors is_thin st).
Qed.

(** X9.  What [_parse_ar_archive] raises is a [RatarmountError] with one of
    five messages, or the [ValueError] of [int] for a BSD long name whose
    length is not a number, which no handler encloses. *)
Theorem parse_ar_archive_errors (data : bytes) (e : exn) :
  _parse_ar_archive (BytesIO data) = Some (Raise e) ->
  In e (RatarmountError "Invalid AR magic bytes" :: loop_errors).
Proof.
  rewrite parse_ar_archive_magic.
  destruct (_ && _).
  - intros [= <-]. now left.
  - intros Hloop. right. exact (parse_loop_errors _ _ _ _ Hloop).
Qed.

Lemma parse_ar_archive_errors_witness :
  _parse_ar_archive (BytesIO bsd_archive_without_length) =
    Some (Raise ValueError)
  /\ In ValueError (RatarmountError "Invalid AR magic bytes" :: loop_errors).
Proof.
  assert (Hparse : _parse_ar_archive (BytesIO bsd_archive_without_length) =
                   Some (Raise ValueError))
    by (vm_compute; reflexivity).
  split; [exact Hparse|].
  exact (parse_ar_archive_errors _ _ Hparse).
Defined.

(** X10.  [_parse_ar_archive] raises the error about the magic bytes
    exactly for a stream that starts with neither of the two magic strings,
    a stream of less than eight bytes included. *)
Theorem magic_bytes_are_checked (data : bytes) :
  _parse_ar_archive (BytesIO data) =
    Some (Raise (RatarmountError "Invalid AR magic bytes"))
  <-> startswith Byte.eqb (blit "!<arch>" ++ [newline]) data = false
      /\ startswith Byte.eqb (blit "!<thin>" ++ [newline]) data = false.
Proof.
  rewrite parse_ar_archive_magic. unfold is_thin_archive.
  destruct (startswith Byte.eqb (blit "!<arch>" ++ [newline]) data);
    destruct (startswith Byte.eqb (blit "!<thin>" ++ [newline]) data);
    cbn [negb andb]; split; try tauto; try (intros [? ?]; discriminate);
    intros Hloop; apply parse_loop_errors in Hloop;
    unfold loop_errors in Hloop; cbn in Hloop;
    repeat destruct Hloop as [Hloop|Hloop]; try discriminate; tauto.
Qed.

(** X11.  [open] on the file info of a row of an archive: it raises for a
    row whose mode is that of a symbolic link, and returns the stencil of
    the data of the member otherwise, from the data offset of the row and
    as long as its size. *)
Theorem open_parsed_member `{Environment} (self : ARMountSource.t)
  (data : bytes) (rows : list TarInfo.t) (info : TarInfo.t) (row : Row.t)
  (buffering : Z) :
  _parse_ar_archive (BytesIO data) = Some (Ok rows) ->
  In info rows ->
  ARMountSource._convert_to_row self info = Ok row ->
  ARMountSource.open self (file_info_of_row row) buffering =
  if S_ISLNK (TarInfo.mode info)
  then Raise (RatarmountError "Cannot read contents of symbolic link!")
  else Ok (ARMountSource._open_stencil self (TarInfo.offset_data info)
             (TarInfo.size info) buffering).
Proof.
  intros Hparse Hin Hrow.
  pose proof (parsed_modes data rows Hparse) as Hall.
  rewrite Forall_forall in Hall.
  destruct (Hall info Hin) as (Hreg & Hsym & _).
  pose proof (convert_to_row_keeps_mode self info row Hreg Hsym Hrow)
    as Hmode.
  destruct (ar_row_columns self info row Hrow) as (_ & Hoffset & Hsize).
  unfold ARMountSource.open, file_info_of_row, get_index_userdata.
  cbn [FileInfo.mode FileInfo.userdata FileInfo.size UserData.offset].
  now rewrite Hmode, Hoffset, Hsize.
Qed.

Lemma open_parsed_member_witness :
  exists row,
    ARMountSource._convert_to_row {| ARMountSource.blockSize := 512 |}
      first_member = Ok row
    /\ ARMountSource.open {| ARMountSource.blockSize := 512 |}
         (file_info_of_row row) (-1) =
       Ok (ARMountSource.StenciledFile 68 3 512).
Proof.
  eexists. split; [vm_compute; reflexivity|].
  apply (open_parsed_member {| ARMountSource.blockSize := 512 |}
           two_member_archive two_member_rows first_member _ (-1)).
  - vm_compute; reflexivity.
  - simpl. auto.
  - vm_compute; reflexivity.
Defined.

(** X12.  No member of a thin archive can be read through [open], unless
    its header states one of the mode bits [0o040000] and [0o010000]: the
    mode of its row is that of a symbolic link, and [open] raises. *)
Theorem thin_members_cannot_be_opened `{Environment}
  (self : ARMountSource.t) (data : bytes) (rows : list TarInfo.t)
  (info : TarInfo.t) (row : Row.t) (buffering : Z) :
  is_thin_archive data = true ->
  _parse_ar_archive (BytesIO data) = Some (Ok rows) ->
  In info rows ->
  ARMountSource._convert_to_row self info = Ok row ->
  Z.land (TarInfo.mode info) (oct "050000") = 0 ->
  ARMountSource.open self (file_info_of_row row) buffering =
  Raise (RatarmountError "Cannot read contents of symbolic link!").
Proof.
  intros Hthin Hparse Hin Hrow Hbits.
  pose proof (parsed_modes data rows Hparse) as Hall.
  rewrite Forall_forall in Hall.
  destruct (Hall info Hin) as (Hreg & Hsym & Hlnk).
  pose proof (convert_to_row_keeps_mode self info row Hreg Hsym Hrow)
    as Hmode.
  unfold ARMountSource.open, file_info_of_row. cbn [FileInfo.mode].
  rewrite Hmode.
  replace (S_ISLNK (TarInfo.mode info)) with true; [reflexivity|].
  symmetry. unfold S_ISLNK. apply Z.eqb_eq.
  change S_IFMT with (Z.lor (oct "050000") S_IFLNK).
  rewrite Z.land_lor_distr_r, Hbits, Z.lor_0_l. exact (Hlnk Hthin).
Qed.

Lemma thin_members_cannot_be_opened_witness :
  exists row,
    ARMountSource._convert_to_row {| ARMountSource.blockSize := 512 |}
      thin_member_with_table = Ok row
    /\ ARMountSource.open {| ARMountSource.blockSize := 512 |}
         (file_info_of_row row) (-1) =
       Raise (RatarmountError "Cannot read contents of symbolic link!").
Proof.
  eexists. split; [vm_compute; reflexivity|].
  apply (thin_members_cannot_be_opened {| ARMountSource.blockSize := 512 |}
           thin_archive_with_table thin_rows_with_table
           thin_member_with_table _ (-1)).
  - reflexivity.
  - vm_compute; reflexivity.
  - simpl. auto.
  - vm_compute; reflexivity.
  - reflexivity.
Defined.

(** ** [ARMountSource.open] and the mode of a symbolic link *)

(** C7.  [open] raises the error about reading a symbolic link, and returns
    no stream, exactly for a file info whose mode is that of a symbolic
    link: the bits of the file type, [mode & 0o170000], are [S_IFLNK].  For
    any other mode it returns the stencil of the member.  The file info of
    a member of a thin archive has the bits of [S_IFLNK] in its mode, and
    its mode is that of a symbolic link exactly when it has none of the
    bits [0o040000] and [0o010000], which only its header can state. *)
Theorem open_raises_exactly_for_symlink_mode `{Environment}
  (self : ARMountSource.t) (fileInfo : FileInfo.t) (buffering : Z) :
  (ARMountSource.open self fileInfo buffering =
     Raise (RatarmountError "Cannot read contents of symbolic link!")
   <-> Z.land (FileInfo.mode fileInfo) S_IFMT = S_IFLNK)
  /\ (Z.land (FileInfo.mode fileInfo) S_IFMT <> S_IFLNK ->
      ARMountSource.open self fileInfo buffering =
      Ok (ARMountSource._open_stencil self
            (UserData.offset
               (get_index_userdata (FileInfo.userdata fileInfo)))
            (FileInfo.size fileInfo) buffering))
  /\ (forall (data : bytes) (rows : list TarInfo.t) (info : TarInfo.t)
        (row : Row.t),
        is_thin_archive data = true ->
        _parse_ar_archive (BytesIO data) = Some (Ok rows) ->
        In info rows ->
        ARMountSource._convert_to_row self info = Ok row ->
        fileInfo = file_info_of_row row ->
        Z.land (FileInfo.mode fileInfo) S_IFLNK = S_IFLNK
        /\ (Z.land (FileInfo.mode fileInfo) S_IFMT = S_IFLNK
            <-> Z.land (FileInfo.mode fileInfo) (oct "050000") = 0)).
Proof.
  split; [|split].
  - unfold ARMountSource.open, S_ISLNK.
    destruct (Z.land (FileInfo.mode fileInfo) S_IFMT =? S_IFLNK) eqn:E.
    + apply Z.eqb_eq in E. tauto.
    + apply Z.eqb_neq in E. split; [discriminate | contradiction].
  - intros Hmode. unfold ARMountSource.open, S_ISLNK.
    apply Z.eqb_neq in Hmode. now rewrite Hmode.
  - intros data rows info row Hthin Hparse Hin Hrow ->.
    pose proof (parsed_modes data rows Hparse) as Hall.
    rewrite Forall_forall in Hall.
    destruct (Hall info Hin) as (Hreg & Hsym & Hlnk).
    pose proof (convert_to_row_keeps_mode self info row Hreg Hsym Hrow)
      as Hmode.
    unfold file_info_of_row. cbn [FileInfo.mode]. rewrite Hmode.
    specialize (Hlnk Hthin). split; [exact Hlnk|]. split.
    + intros Hfmt.
      assert (Hboth : Z.land (Z.land (TarInfo.mode info) S_IFMT)
                        (oct "050000")
                      = Z.land S_IFLNK (oct "050000")) by now rewrite Hfmt.
      rewrite <- Z.land_assoc in Hboth. exact Hboth.
    + intros Hbits. change S_IFMT with (Z.lor (oct "050000") S_IFLNK).
      now rewrite Z.land_lor_distr_r, Hbits, Z.lor_0_l.
Qed.

Lemma open_raises_exactly_for_symlink_mode_witness :
  exists row,
    ARMountSource._convert_to_row {| ARMountSource.blockSize := 512 |}
      thin_member_with_table = Ok row
    /\ Z.land (FileInfo.mode (file_info_of_row row)) S_IFLNK = S_IFLNK
    /\ Z.land (FileInfo.mode (file_info_of_row row)) (oct "050000") = 0
    /\ ARMountSource.open {| ARMountSource.blockSize := 512 |}
         (file_info_of_row row) (-1) =
       Raise (RatarmountError "Cannot read contents of symbolic link!").
Proof.
  eexists. split; [vm_compute; reflexivity|].
  match goal with
  | |- Z.land (FileInfo.mode (file_info_of_row ?row)) _ = _ /\ _ =>
      destruct (open_raises_exactly_for_symlink_mode
                  {| ARMountSource.blockSize := 512 |}
                  (file_info_of_row row) (-1))
        as (Hopen & _ & Hthin);
      destruct (Hthin thin_archive_with_table thin_rows_with_table
                  thin_member_with_table row) as (Hbits & Hlink)
  end.
  - reflexivity.
  - vm_compute; reflexivity.
  - simpl. auto.
  - vm_compute; reflexivity.
  - reflexivity.
  - split; [exact Hbits|]. split; [reflexivity|].
    apply Hopen, Hlink. reflexivity.
Defined.

(** A member of a thin archive whose header states the mode of a directory:
    the mode of its file info has the bits of [S_IFLNK], it is not the mode
    of a symbolic link, and [open] returns a reader. *)
Theorem thin_directory_member_is_opened :
  exists (info : TarInfo.t) (row : Row.t),
    _parse_ar_archive (BytesIO thin_archive_with_directory_mode) =
      Some (Ok [info])
    /\ ARMountSource._convert_to_row {| ARMountSource.blockSize := 512 |}
         info = Ok row
    /\ FileInfo.mode (file_info_of_row row) = oct "160755"
    /\ Z.land (FileInfo.mode (file_info_of_row row)) S_IFLNK = S_IFLNK
    /\ ARMountSource.open {| ARMountSource.blockSize := 512 |}
         (file_info_of_row row) (-1) =
       Ok (ARMountSource.StenciledFile 68 4 512).
Proof.
  eexists. eexists.
  split; [vm_compute; reflexivity|].
  split; [vm_compute; reflexivity|].
  split; [|split]; vm_compute; reflexivity.
Qed.



(** ** The parts of a data URL *)

Lemma inner_slash_split (t : str) :
  inner_slash t = true ->
  exists a b, takeWhile not_special t = a ++ "/"%char :: b /\ b <> [].
Proof.
  induction t as [|x t IH]; [discriminate|].
  cbn [inner_slash takeWhile]. intros Hslash.
  apply andb_true_iff in Hslash as [Hx Hslash]. rewrite Hx.
  apply orb_true_iff in Hslash as [Hinner|Hhere].
  - destruct (IH Hinner) as (a & b & -> & Hb).
    now exists (x :: a), b.
  - apply andb_true_iff in Hhere as [Hx' Hnext].
    apply Ascii.eqb_eq in Hx'. subst x.
    destruct t as [|c' t']; [discriminate|].
    exists [], (takeWhile not_special (c' :: t')). split; [reflexivity|].
    cbn [takeWhile]. now rewrite Hnext.
Qed.

Lemma slice_from_suffix {A : Type} (a b : list A) :
  slice_from (len (a ++ b) - len b) (a ++ b) = b.
Proof.
  unfold slice_from, len. rewrite length_app.
  replace (Z.to_nat (Z.of_nat (length a + length b) - Z.of_nat (length b)))
    with (length a + 0)%nat by lia.
  now rewrite skipn_app, Nat.add_0_r, skipn_all, Nat.sub_diag.
Qed.

(** A text that [DATA_URL_REGEX] matches: the scheme, a media type that is
    empty or has two parts, the parameters, which are empty or begin with a
    semicolon, the comma that ends the match, and the payload. *)
Lemma data_url_shape (data : str) (m : Match) :
  re_match DATA_URL_REGEX data = Some m ->
  exists mime parameters payload,
    data = lit "data:" ++ mime ++ parameters ++ ","%char :: payload
    /\ forallb not_special mime = true
    /\ forallb parameter_char parameters = true
    /\ (mime = []
        \/ exists a b, mime = a ++ "/"%char :: b /\ a <> [] /\ b <> [])
    /\ slice_from (match_end m) data = payload
    /\ group m "parameters" = Some parameters
    /\ group m "mime_type" =
       match mime with [] => None | _ => Some mime end.
Proof.
  rewrite re_match_data_url. unfold scan_data_url.
  destruct (startswith Ascii.eqb (lit "data:") data) eqn:Estart;
    [|discriminate].
  apply startswith_inv in Estart as [s ->].
  change (skipn 5 (lit "data:" ++ s)) with s.
  set (mime := match s with
               | c :: t =>
                   if not_special c
                   then if inner_slash t
                        then Some (Some (takeWhile not_special s))
                        else None
                   else Some None
               | [] => Some None
               end).
  destruct mime as [mime_type|] eqn:Emime; [|discriminate].
  destruct (scan_parameters (dropWhile not_special s))
    as [[parameters rest]|] eqn:Eparams; [|discriminate].
  intros [= <-].
  assert (Hs : s = takeWhile not_special s ++ parameters
                   ++ ","%char :: rest
               /\ forallb parameter_char parameters = true).
  { unfold scan_parameters in Eparams.
    set (p := match dropWhile not_special s with
              | c :: _ =>
                  if Ascii.eqb ";" c
                  then takeWhile parameter_char (dropWhile not_special s)
                  else []
              | [] => []
              end) in Eparams.
    assert (Hp : forallb parameter_char p = true).
    { subst p. destruct (dropWhile not_special s) as [|c d]; [reflexivity|].
      destruct (Ascii.eqb ";" c); [apply takeWhile_all | reflexivity]. }
    pose proof (firstn_skipn (length p) (dropWhile not_special s)) as Hd.
    assert (Hfirst : firstn (length p) (dropWhile not_special s) = p).
    { subst p. destruct (dropWhile not_special s) as [|c d]; [reflexivity|].
      destruct (Ascii.eqb ";" c); [|reflexivity].
      rewrite <- (takeWhile_dropWhile parameter_char (c :: d)) at 2.
      now rewrite firstn_app, Nat.sub_diag, firstn_all, app_nil_r. }
    destruct (skipn (length p) (dropWhile not_special s)) as [|c r] eqn:Eskip;
      [discriminate|].
    destruct (Ascii.eqb "," c) eqn:Ec; [|discriminate].
    apply Ascii.eqb_eq in Ec. subst c. injection Eparams as <- <-.
    rewrite Hfirst in Hd. split; [|exact Hp].
    rewrite Hd. symmetry. apply takeWhile_dropWhile. }
  destruct Hs as [Hs Hparams].
  assert (Hcase : (mime_type = None /\ takeWhile not_special s = [])
                  \/ (mime_type = Some (takeWhile not_special s)
                      /\ exists a b,
                           takeWhile not_special s = a ++ "/"%char :: b
                           /\ a <> [] /\ b <> [])).
  { subst mime. destruct s as [|c t]; [injection Emime as <-; now left|].
    destruct (not_special c) eqn:Ec.
    - destruct (inner_slash t) eqn:Eslash; [|discriminate].
      injection Emime as <-. right. split; [reflexivity|].
      cbn [takeWhile]. rewrite Ec.
      destruct (inner_slash_split t Eslash) as (a & b & -> & Hb).
      exists (c :: a), b. repeat split; auto. discriminate.
    - injection Emime as <-. left. split; [reflexivity|].
      cbn [takeWhile]. now rewrite Ec. }
  pose proof (takeWhile_all not_special s) as Hclass.
  remember (takeWhile not_special s) as mime0 eqn:E0. clear E0 Emime.
  exists mime0, parameters, rest.
  split; [now rewrite <- Hs|].
  split; [exact Hclass|]. split; [exact Hparams|].
  split; [destruct Hcase as [[_ ->]|[_ Hparts]]; [now left | now right]|].
  split.
  - change (slice_from (len (lit "data:" ++ s) - len rest) (lit "data:" ++ s)
            = rest).
    rewrite Hs.
    replace (lit "data:" ++ mime0 ++ parameters ++ ","%char :: rest)
      with ((lit "data:" ++ mime0 ++ parameters ++ [","%char]) ++ rest)
      by (now rewrite <- !app_assoc).
    apply slice_from_suffix.
  - split; [reflexivity|].
    destruct Hcase as [[-> ->]|[-> (a & b & Hab & Ha & _)]]; [reflexivity|].
    rewrite Hab. destruct a; [contradiction|reflexivity].
Qed.

Section DataURLFileParts.
Context `{Environment}.

(** The content and the media type of a file made of a matching URL. *)
Lemma init_matched_value (data_url : option str) (m : Match)
  (file : DataURLFile.t) :
  re_match DATA_URL_REGEX (url_text data_url) = Some m ->
  DataURLFile.__init__ data_url = Ok file ->
  (if DataURLFile.is_base64 file
   then b64decode (slice_from (match_end m) (url_text data_url))
   else encode (slice_from (match_end m) (url_text data_url))
          (DataURLFile.encoding file)) = Ok (DataURLFile.getvalue file)
  /\ DataURLFile.mime_type file =
     match group m "mime_type" with
     | Some (c :: t) => c :: t
     | _ => lit "text/plain"
     end.
Proof.
  unfold DataURLFile.__init__, url_text. intros ->.
  destruct (group m "parameters") as [[|c t]|].
  - destruct (encode _ _) eqn:E; simpl; [intros [= <-]; auto | discriminate].
  - destruct (endswith Ascii.eqb (lit ";base64") (c :: t)).
    + destruct (b64decode _) eqn:E; simpl;
        [intros [= <-]; auto | discriminate].
    + destruct (encode _ _) eqn:E; simpl;
        [intros [= <-]; auto | discriminate].
  - destruct (encode _ _) eqn:E; simpl; [intros [= <-]; auto | discriminate].
Qed.
End DataURLFileParts.

Lemma no_comma_dropWhile (a b : str) :
  forallb (fun c => negb (Ascii.eqb "," c)) a = true ->
  tl (dropWhile (fun c => negb (Ascii.eqb "," c)) (a ++ ","%char :: b)) = b.
Proof.
  intros Ha. now rewrite dropWhile_app_all by exact Ha.
Qed.

(** X14.  The content of a [DataURLFile] is decoded from everything behind
    the first comma of the unescaped and unquoted URL, further commas
    included: with base64 for a URL whose parameters end in [;base64], with
    the encoding of the file otherwise. *)
Theorem payload_follows_first_comma `{Environment} (data_url : option str)
  (m : Match) (file : DataURLFile.t) :
  re_match DATA_URL_REGEX (url_text data_url) = Some m ->
  DataURLFile.__init__ data_url = Ok file ->
  let payload :=
    tl (dropWhile (fun c => negb (Ascii.eqb "," c)) (url_text data_url)) in
  (if DataURLFile.is_base64 file then b64decode payload
   else encode payload (DataURLFile.encoding file))
  = Ok (DataURLFile.getvalue file).
Proof.
  intros Hm Hinit payload.
  destruct (init_matched_value data_url m file Hm Hinit) as [Hvalue _].
  destruct (data_url_shape _ m Hm)
    as (mime & parameters & rest & Hdata & Hmime & Hparams & _ & Hrest & _).
  rewrite Hrest in Hvalue.
  replace payload with rest; [exact Hvalue|].
  subst payload. rewrite Hdata.
  rewrite !app_assoc. rewrite no_comma_dropWhile; [reflexivity|].
  rewrite !forallb_app. rewrite andb_true_iff. split;
    [rewrite andb_true_iff; split; [reflexivity|]|].
  - revert Hmime. apply forallb_impl. intros c Hc.
    now rewrite (not_special_no_comma c Hc).
  - revert Hparams. apply forallb_impl. intros c.
    unfold parameter_char, contains. cbn [existsb].
    rewrite (Ascii.eqb_sym "," c). destruct (Ascii.eqb c ","); [|reflexivity].
    discriminate.
Qed.

Lemma payload_follows_first_comma_witness :
  exists m file,
    re_match DATA_URL_REGEX (url_text (Some css_url)) = Some m
    /\ DataURLFile.__init__ (Some css_url) = Ok file
    /\ (if DataURLFile.is_base64 file
        then b64decode
               (tl (dropWhile (fun c => negb (Ascii.eqb "," c))
                      (url_text (Some css_url))))
        else encode
               (tl (dropWhile (fun c => negb (Ascii.eqb "," c))
                      (url_text (Some css_url))))
               (DataURLFile.encoding file))
       = Ok (DataURLFile.getvalue file).
Proof.
  destruct (re_match DATA_URL_REGEX (url_text (Some css_url)))
    as [m|] eqn:Em; [|vm_compute in Em; discriminate Em].
  destruct (DataURLFile.__init__ (Some css_url))
    as [file|] eqn:Einit; [|vm_compute in Einit; discriminate Einit].
  exists m, file. split; [reflexivity|]. split; [reflexivity|].
  exact (payload_follows_first_comma (Some css_url) m file Em Einit).
Defined.

(** X15.  The media type of a [DataURLFile] always has two parts around a
    slash, none of them empty, and holds no semicolon, comma or quote: it
    is that of the URL, or [text/plain]. *)
Theorem mime_type_has_two_parts `{Environment} (data_url : option str)
  (file : DataURLFile.t) :
  DataURLFile.__init__ data_url = Ok file ->
  forallb not_special (DataURLFile.mime_type file) = true
  /\ exists a b,
       DataURLFile.mime_type file = a ++ "/"%char :: b
       /\ a <> [] /\ b <> [].
Proof.
  intros Hinit.
  destruct (re_match DATA_URL_REGEX (url_text data_url)) as [m|] eqn:Em.
  - destruct (init_matched_value data_url m file Em Hinit) as [_ Hmime].
    destruct (data_url_shape _ m Em)
      as (mime & parameters & rest & _ & Hclass & _ & Hparts & _ & _ & Hgroup).
    rewrite Hgroup in Hmime.
    destruct Hparts as [->|(a & b & -> & Ha & Hb)].
    + rewrite Hmime. split; [reflexivity|].
      exists (lit "text"), (lit "plain"). repeat split; discriminate.
    + destruct (a ++ "/"%char :: b) eqn:Eab;
        [destruct a; discriminate|].
      rewrite Hmime. split; [exact Hclass|].
      exists a, b. rewrite <- Eab. auto.
  - rewrite (init_unmatched data_url Em) in Hinit. injection Hinit as <-.
    split; [reflexivity|].
    exists (lit "text"), (lit "plain"). repeat split; discriminate.
Qed.

Lemma mime_type_has_two_parts_witness :
  exists file,
    DataURLFile.__init__ (Some base64_url) = Ok file
    /\ forallb not_special (DataURLFile.mime_type file) = true
    /\ exists a b,
         DataURLFile.mime_type file = a ++ "/"%char :: b
         /\ a <> [] /\ b <> [].
Proof.
  eexists. split; [vm_compute; reflexivity|].
  refine (mime_type_has_two_parts (Some base64_url) _ _).
  vm_compute; reflexivity.
Defined.

Lemma fold_keeps_encoding `{Environment} (tokens : list str)
  (encoding : str) :
  forallb (fun t => negb (is_utf8_token t) && negb (is_charset_parameter t))
    tokens = true ->
  fold_left DataURLFile.visit_parameter tokens encoding = encoding.
Proof.
  induction tokens as [|t tokens IH]; [reflexivity|].
  cbn [forallb fold_left]. intros Hall.
  apply andb_true_iff in Hall as [Ht Hall].
  apply andb_true_iff in Ht as [Hutf Hcharset].
  apply negb_true_iff in Hutf, Hcharset.
  rewrite visit_other_parameter by assumption. auto.
Qed.

(** X16.  Parameters that are neither a token [utf-8] or [utf8] nor a
    [charset] are ignored: a URL with such parameters only, [;base64]
    among them, gives a file with the encoding [ascii]. *)
Theorem other_parameters_keep_ascii `{Environment} (data_url : option str)
  (m : Match) (parameters : str) (file : DataURLFile.t) :
  re_match DATA_URL_REGEX (url_text data_url) = Some m ->
  group m "parameters" = Some parameters ->
  forallb (fun t => negb (is_utf8_token t) && negb (is_charset_parameter t))
    (split Ascii.eqb (lit ";") parameters) = true ->
  DataURLFile.__init__ data_url = Ok file ->
  DataURLFile.encoding file = lit "ascii".
Proof.
  intros Hm Hp Htokens Hinit.
  destruct (init_matched data_url m file Hm Hinit) as [_ Hfile].
  rewrite Hp in Hfile. destruct parameters as [|c t].
  - now destruct Hfile.
  - destruct Hfile as [_ ->]. now apply fold_keeps_encoding.
Qed.

Lemma other_parameters_keep_ascii_witness :
  exists m file,
    re_match DATA_URL_REGEX (url_text (Some base64_url)) = Some m
    /\ group m "parameters" = Some (lit ";base64")
    /\ DataURLFile.__init__ (Some base64_url) = Ok file
    /\ DataURLFile.encoding file = lit "ascii".
Proof.
  eexists. eexists.
  split; [vm_compute; reflexivity|]. split; [vm_compute; reflexivity|].
  split; [vm_compute; reflexivity|].
  refine (other_parameters_keep_ascii (Some base64_url) _ (lit ";base64")
            _ _ _ _ _); vm_compute; reflexivity.
Defined.

Example handle_data_style_sheet :
  HTMLDataURLParserCallbacks.handle_data fresh_parser style_sheet =
  HTMLDataURLParserCallbacks.Returns
    (HTMLDataURLParser.set_files fresh_parser
       [ {| EmbeddedFileCandidate.original_url := lit "/f.ttf";
            EmbeddedFileCandidate.attribute := [];
            EmbeddedFileCandidate.start :=
              {| LineOffset.line := 1; LineOffset.offset := 33 |};
            EmbeddedFileCandidate.next :=
              Some {| LineOffset.line := 1; LineOffset.offset := 58 |} |};
         {| EmbeddedFileCandidate.original_url := [];
            EmbeddedFileCandidate.attribute := [];
            EmbeddedFileCandidate.start :=
              {| LineOffset.line := 1; LineOffset.offset := 77 |};
            EmbeddedFileCandidate.next :=
              Some {| LineOffset.line := 1; LineOffset.offset := 103 |} |} ]).
Proof. vm_compute. reflexivity. Qed.

(** ** What a match takes from the text *)

Section Consumption.
Context {R : Type}.

Lemma star_consumes (step : str -> groups -> @cont R -> option R) :
  (forall s g k m,
     step s g k = Some m ->
     exists pre s1 g1, k s1 g1 = Some m /\ s = pre ++ s1) ->
  forall fuel s g k m,
    star step fuel s g k = Some m ->
    exists pre s1 g1, k s1 g1 = Some m /\ s = pre ++ s1.
Proof.
  intros Hstep. induction fuel as [|fuel IH]; intros s g k m; cbn [star].
  - intros Hk. now exists [], s, g.
  - destruct (step s g _) as [m'|] eqn:Efirst; cbn [orelse].
    + intros [= ->].
      destruct (Hstep _ _ _ _ Efirst) as (pre & s1 & g1 & Hrest & ->).
      destruct (length s1 <? length (pre ++ s1))%nat; [|discriminate].
      destruct (IH _ _ _ _ Hrest) as (pre' & s2 & g2 & Hk & ->).
      exists (pre ++ pre'), s2, g2. now rewrite <- app_assoc.
    + intros Hk. now exists [], s, g.
Qed.

Lemma backtrack_consumes (r : regex) :
  forall s g (k : @cont R) m,
    backtrack r s g k = Some m ->
    exists pre s1 g1,
      k s1 g1 = Some m /\ s = pre ++ s1
      /\ (min_width r <= length pre)%nat.
Proof.
  induction r as [|p|r1 IH1 r2 IH2|r1 IH1|r1 IH1|r1 IH1|name r1 IH1];
    intros s g k m; cbn [backtrack min_width].
  - intros Hk. exists [], s, g. auto.
  - destruct s as [|x t]; [discriminate|].
    destruct (p x); [|discriminate].
    intros Hk. exists [x], t, g. auto.
  - intros Hm.
    destruct (IH1 _ _ _ _ Hm) as (pre1 & s1 & g1 & Hm2 & -> & Hw1).
    destruct (IH2 _ _ _ _ Hm2) as (pre2 & s2 & g2 & Hk & -> & Hw2).
    exists (pre1 ++ pre2), s2, g2. rewrite <- app_assoc, length_app.
    repeat split; auto. lia.
  - destruct (backtrack r1 s g k) as [m'|] eqn:Efirst; cbn [orelse].
    + intros [= ->].
      destruct (IH1 _ _ _ _ Efirst) as (pre & s1 & g1 & Hk & -> & _).
      exists pre, s1, g1. repeat split; auto. lia.
    + intros Hk. exists [], s, g. auto.
  - intros Hm.
    assert (Hstep : forall s0 g0 (k0 : @cont R) m0,
               backtrack r1 s0 g0 k0 = Some m0 ->
               exists pre s1 g1, k0 s1 g1 = Some m0 /\ s0 = pre ++ s1).
    { intros s0 g0 k0 m0 H0.
      destruct (IH1 _ _ _ _ H0) as (pre & s1 & g1 & Hk & -> & _).
      now exists pre, s1, g1. }
    destruct (star_consumes (backtrack r1) Hstep _ _ _ _ _ Hm)
      as (pre & s1 & g1 & Hk & ->).
    exists pre, s1, g1. repeat split; auto. lia.
  - intros Hm.
    destruct (IH1 _ _ _ _ Hm) as (pre1 & s1 & g1 & Hstar & -> & Hw1).
    assert (Hstep : forall s0 g0 (k0 : @cont R) m0,
               backtrack r1 s0 g0 k0 = Some m0 ->
               exists pre s1 g1, k0 s1 g1 = Some m0 /\ s0 = pre ++ s1).
    { intros s0 g0 k0 m0 H0.
      destruct (IH1 _ _ _ _ H0) as (pre & s2 & g2 & Hk & -> & _).
      now exists pre, s2, g2. }
    destruct (star_consumes (backtrack r1) Hstep _ _ _ _ _ Hstar)
      as (pre & s2 & g2 & Hk & ->).
    exists (pre1 ++ pre), s2, g2. rewrite <- app_assoc, length_app.
    repeat split; auto. lia.
  - intros Hm.
    destruct (IH1 _ _ _ _ Hm) as (pre & s1 & g1 & Hk & -> & Hw).
    eauto 10.
Qed.

(** A match of a pattern takes a piece from the front of the text, as long
    as the least width of the pattern or longer, and hands the rest on. *)
Lemma match_pattern_consumes (n : Z) (p : pattern) :
  forall s g (k : str -> spans -> option R) m,
    match_pattern n p s g k = Some m ->
    exists pre s1 g1,
      k s1 g1 = Some m /\ s = pre ++ s1
      /\ (min_pattern_width p <= length pre)%nat.
Proof.
  induction p as [r|p1 IH1 p2 IH2|p1 IH1 p2 IH2|p1 IH1|name p1 IH1];
    intros s g k m; cbn [match_pattern min_pattern_width].
  - intros Hm.
    destruct (backtrack_consumes r _ _ _ _ Hm)
      as (pre & s1 & g1 & Hk & -> & Hw).
    now exists pre, s1, g.
  - destruct (match_pattern n p1 s g k) as [m'|] eqn:Efirst; cbn [orelse].
    + intros [= ->].
      destruct (IH1 _ _ _ _ Efirst) as (pre & s1 & g1 & Hk & -> & Hw).
      exists pre, s1, g1. repeat split; auto. lia.
    + intros Hm.
      destruct (IH2 _ _ _ _ Hm) as (pre & s1 & g1 & Hk & -> & Hw).
      exists pre, s1, g1. repeat split; auto. lia.
  - intros Hm.
    destruct (IH1 _ _ _ _ Hm) as (pre1 & s1 & g1 & Hm2 & -> & Hw1).
    destruct (IH2 _ _ _ _ Hm2) as (pre2 & s2 & g2 & Hk & -> & Hw2).
    exists (pre1 ++ pre2), s2, g2. rewrite <- app_assoc, length_app.
    repeat split; auto. lia.
  - destruct (match_pattern n p1 s g k) as [m'|] eqn:Efirst; cbn [orelse].
    + intros [= ->].
      destruct (IH1 _ _ _ _ Efirst) as (pre & s1 & g1 & Hk & -> & _).
      exists pre, s1, g1. repeat split; auto. lia.
    + intros Hk. exists [], s, g. auto.
  - intros Hm.
    destruct (IH1 _ _ _ _ Hm) as (pre & s1 & g1 & Hk & -> & Hw).
    eauto 10.
Qed.
End Consumption.

(** ** The patterns of [handle_data] *)

Lemma scan_parameters_split (d parameters rest : str) :
  scan_parameters d = Some (parameters, rest) ->
  d = parameters ++ ","%char :: rest.
Proof.
  unfold scan_parameters.
  set (p := match d with
            | c :: _ => if Ascii.eqb ";" c then takeWhile parameter_char d
                        else []
            | [] => []
            end).
  assert (Hfirst : firstn (length p) d = p).
  { subst p. destruct d as [|c d']; [reflexivity|].
    destruct (Ascii.eqb ";" c); [|reflexivity].
    rewrite <- (takeWhile_dropWhile parameter_char (c :: d')) at 2.
    now rewrite firstn_app, Nat.sub_diag, firstn_all, app_nil_r. }
  pose proof (firstn_skipn (length p) d) as Hd.
  destruct (skipn (length p) d) as [|c r]; [discriminate|].
  destruct (Ascii.eqb "," c) eqn:Ec; [|discriminate].
  apply Ascii.eqb_eq in Ec. subst c. intros [= <- <-].
  now rewrite Hfirst in Hd.
Qed.

(** [data_url_payload] is the text behind the match of [DATA_URL_REGEX]. *)
Lemma data_url_payload_match (data : str) :
  data_url_payload data =
  option_map (fun m => slice_from (match_end m) data)
    (re_match DATA_URL_REGEX data).
Proof.
  rewrite re_match_data_url. unfold data_url_payload, scan_data_url.
  destruct (startswith Ascii.eqb (lit "data:") data) eqn:Estart;
    [|reflexivity].
  apply startswith_inv in Estart as [s ->].
  change (skipn 5 (lit "data:" ++ s)) with s.
  assert (Hrest : forall parameters rest,
             scan_parameters (dropWhile not_special s)
               = Some (parameters, rest) ->
             slice_from (len (lit "data:" ++ s) - len rest)
               (lit "data:" ++ s) = rest).
  { intros parameters rest Hp.
    apply scan_parameters_split in Hp.
    rewrite <- (takeWhile_dropWhile not_special s), Hp.
    replace (lit "data:" ++ takeWhile not_special s ++ parameters
             ++ ","%char :: rest)
      with ((lit "data:" ++ takeWhile not_special s ++ parameters
             ++ [","%char]) ++ rest)
      by (now rewrite <- !app_assoc).
    apply slice_from_suffix. }
  destruct s as [|c t].
  - cbn [dropWhile] in *.
    destruct (scan_parameters []) as [[p rest]|] eqn:Ep; [|reflexivity].
    cbn [option_map snd match_end]. now rewrite (Hrest p rest eq_refl).
  - destruct (not_special c) eqn:Ec; cbn [andb].
    + destruct (inner_slash t); cbn [negb]; [|reflexivity].
      destruct (scan_parameters (dropWhile not_special (c :: t)))
        as [[p rest]|] eqn:Ep; [|reflexivity].
      cbn [option_map snd match_end]. now rewrite (Hrest p rest eq_refl).
    + destruct (scan_parameters (dropWhile not_special (c :: t)))
        as [[p rest]|] eqn:Ep; [|reflexivity].
      cbn [option_map snd match_end]. now rewrite (Hrest p rest eq_refl).
Qed.

Section HandleDataPatterns.
Context {R : Type}.

(** The prefix of the data URL patterns, for any continuation. *)
Lemma backtrack_prefix (k : str -> option R) (data : str) :
  backtrack
    (Seq (literal (lit "data:"))
       (Seq (Optional DATA_URL_MIME_TYPE)
          (Seq DATA_URL_PARAMETERS (Char ",")))) data []
    (fun s1 _ => k s1) =
  match data_url_payload data with
  | Some rest => k rest
  | None => None
  end.
Proof.
  unfold data_url_payload.
  set (K := fun (s1 : str) (_ : groups) => k s1).
  change (backtrack
            (Seq (literal (lit "data:"))
               (Seq (Optional DATA_URL_MIME_TYPE)
                  (Seq DATA_URL_PARAMETERS (Char ",")))) data [] K)
    with (backtrack (literal (lit "data:")) data []
            (fun s1 g1 =>
               backtrack
                 (Seq (Optional DATA_URL_MIME_TYPE)
                    (Seq DATA_URL_PARAMETERS (Char ","))) s1 g1 K)).
  rewrite backtrack_literal.
  destruct (startswith Ascii.eqb (lit "data:") data); [|reflexivity].
  change (length (lit "data:")) with 5%nat.
  set (s := skipn 5 data).
  change (backtrack (Seq (Optional DATA_URL_MIME_TYPE)
                       (Seq DATA_URL_PARAMETERS (Char ","))) s [] K)
    with (orelse
            (backtrack DATA_URL_MIME_TYPE s []
               (fun s1 g1 =>
                  backtrack (Seq DATA_URL_PARAMETERS (Char ",")) s1 g1 K))
            (backtrack (Seq DATA_URL_PARAMETERS (Char ",")) s [] K)).
  rewrite mime_type_group
    by (intros; now apply parameters_then_comma_class).
  destruct s as [|c t] eqn:Es.
  - cbn [orelse dropWhile]. rewrite parameters_then_comma.
    destruct (scan_parameters []) as [[p rest]|]; reflexivity.
  - destruct (not_special c) eqn:Ec; cbn [andb].
    + rewrite (parameters_then_comma_class K c t [] Ec), orelse_none.
      destruct (inner_slash t); [|reflexivity].
      cbn [negb]. rewrite parameters_then_comma.
      destruct (scan_parameters (dropWhile not_special (c :: t)))
        as [[p rest]|]; reflexivity.
    + cbn [orelse dropWhile]. rewrite Ec, parameters_then_comma.
      destruct (scan_parameters (c :: t)) as [[p rest]|]; reflexivity.
Qed.

Lemma plus_of_class (p : ascii -> bool) (k : @cont R) s g :
  backtrack (Plus (Class p)) s g k =
  match s with
  | c :: t => if p c then greedy p t g k else None
  | [] => None
  end.
Proof.
  destruct s as [|c t]; [reflexivity|].
  change (backtrack (Plus (Class p)) (c :: t) g k)
    with (if p c
          then star (backtrack (Class p)) (length t) t g k
          else None).
  destruct (p c); [|reflexivity].
  apply (star_class p); [reflexivity | lia].
Qed.

(** A run of [[^c]] in front of [c]: the longest run. *)
Lemma plus_then_closing (closing : ascii) (k : str -> str -> option R)
  (s : str) :
  backtrack (Plus (NoneOf [closing])) s []
    (fun s1 _ => backtrack (Char closing) s1 [] (fun s2 _ => k s1 s2)) =
  match takeWhile (other_than closing) s,
        dropWhile (other_than closing) s with
  | _ :: _, c :: post => k (c :: post) post
  | _, _ => None
  end.
Proof.
  change (NoneOf [closing]) with (Class (other_than closing)).
  rewrite plus_of_class. destruct s as [|c t]; [reflexivity|].
  cbn [takeWhile dropWhile]. destruct (other_than closing c) eqn:Ec.
  2:{ destruct (c :: t); reflexivity. }
  rewrite greedy_longest.
  - destruct (dropWhile (other_than closing) t) as [|x post] eqn:Ed;
      [reflexivity|].
    apply dropWhile_head in Ed.
    cbn [backtrack Char].
    replace (Ascii.eqb closing x) with true; [reflexivity|].
    symmetry. revert Ed. unfold other_than, contains. cbn [existsb].
    rewrite orb_false_r, (Ascii.eqb_sym x closing).
    now destruct (Ascii.eqb closing x).
  - intros x t' Hx. cbn [backtrack Char].
    replace (Ascii.eqb closing x) with false; [reflexivity|].
    symmetry. revert Hx. unfold other_than, contains. cbn [existsb].
    rewrite orb_false_r, (Ascii.eqb_sym x closing).
    now destruct (Ascii.eqb closing x).
Qed.

(** The data URL of the three patterns with the character that closes it:
    the scan from left to right, with the spans of the two groups. *)
Lemma match_closed_data_url (closing : ascii) (n : Z) (s : str) (g : spans)
  (k : str -> spans -> option R) :
  match_pattern n (Then (DATA_URL_WITH_DATA closing) (Re (Char closing)))
    s g k =
  match scan_closed_data_url closing s with
  | Some (payload, post) =>
      k post
        (("data_url"%string, (n - len s, n - (len post + 1)))
         :: ("data"%string,
             (n - (len payload + len post + 1), n - (len post + 1)))
         :: g)
  | None => None
  end.
Proof.
  unfold scan_closed_data_url.
  change (match_pattern n
            (Then (DATA_URL_WITH_DATA closing) (Re (Char closing))) s g k)
    with (backtrack
            (Seq (literal (lit "data:"))
               (Seq (Optional DATA_URL_MIME_TYPE)
                  (Seq DATA_URL_PARAMETERS (Char ",")))) s []
            (fun sA _ =>
               backtrack (Plus (NoneOf [closing])) sA []
                 (fun sB _ =>
                    backtrack (Char closing) sB []
                      (fun s2 _ =>
                         k s2
                           (("data_url"%string, (n - len s, n - len sB))
                            :: ("data"%string, (n - len sA, n - len sB))
                            :: g))))).
  rewrite (backtrack_prefix
             (fun sA =>
                backtrack (Plus (NoneOf [closing])) sA []
                  (fun sB _ =>
                     backtrack (Char closing) sB []
                       (fun s2 _ =>
                          k s2
                            (("data_url"%string, (n - len s, n - len sB))
                             :: ("data"%string, (n - len sA, n - len sB))
                             :: g))))).
  destruct (data_url_payload s) as [rest|]; [|reflexivity].
  rewrite (plus_then_closing closing
             (fun sB s2 =>
                k s2
                  (("data_url"%string, (n - len s, n - len sB))
                   :: ("data"%string, (n - len rest, n - len sB)) :: g))).
  pose proof (takeWhile_dropWhile (other_than closing) rest) as Hsplit.
  destruct (takeWhile (other_than closing) rest) as [|c t]; [reflexivity|].
  destruct (dropWhile (other_than closing) rest) as [|x post];
    [reflexivity|].
  replace (len rest) with (len (c :: t) + len post + 1)
    by (rewrite <- Hsplit; unfold len; rewrite length_app; cbn [length]; lia).
  replace (len (x :: post)) with (len post + 1)
    by (unfold len; cbn [length]; lia).
  reflexivity.
Qed.
End HandleDataPatterns.

Lemma data_url_payload_width (s rest : str) :
  data_url_payload s = Some rest ->
  startswith Ascii.eqb (lit "data:") s = true
  /\ exists pre, s = pre ++ rest /\ (6 <= length pre)%nat.
Proof.
  unfold data_url_payload.
  destruct (startswith Ascii.eqb (lit "data:") s) eqn:Estart; [|discriminate].
  intros Hrest. split; [reflexivity|]. revert Hrest.
  apply startswith_inv in Estart as [t ->].
  change (skipn 5 (lit "data:" ++ t)) with t.
  destruct (match t with [] => _ | _ => _ end); [discriminate|].
  destruct (scan_parameters (dropWhile not_special t))
    as [[p r]|] eqn:Ep; [|discriminate].
  cbn [option_map snd]. intros [= <-].
  apply scan_parameters_split in Ep.
  exists (lit "data:" ++ takeWhile not_special t ++ p ++ [","%char]).
  split.
  - rewrite <- (takeWhile_dropWhile not_special t) at 1. rewrite Ep.
    now rewrite <- !app_assoc.
  - rewrite !length_app. cbn [length lit list_ascii_of_string]. lia.
Qed.

Lemma getitem_app {A : Type} (a b : list A) (x : A) :
  getitem (a ++ x :: b) (len a) = Some x.
Proof.
  assert (Hnn : (len a <? 0) = false)
    by (apply Z.ltb_ge; apply len_nonneg).
  assert (Hle : (len (a ++ x :: b) <=? len a) = false).
  { apply Z.leb_gt. unfold len. rewrite length_app. cbn [length]. lia. }
  unfold getitem. cbv zeta. rewrite Hnn. cbv iota. rewrite Hnn, Hle.
  cbn [orb]. unfold len.
  rewrite Nat2Z.id, nth_error_app2, Nat.sub_diag by lia. reflexivity.
Qed.

Lemma slice_from_app {A : Type} (a b : list A) :
  slice_from (len a) (a ++ b) = b.
Proof.
  unfold slice_from, len. rewrite Nat2Z.id.
  now rewrite skipn_app, skipn_all, Nat.sub_diag.
Qed.

(** The data URL that [scan_closed_data_url] finds at the head of the text
    [s] behind [front] is a closed data URL of the whole text. *)
Lemma scan_closed_data_url_sound (closing : ascii) (front s payload post : str) :
  scan_closed_data_url closing s = Some (payload, post) ->
  closed_data_url closing (front ++ s) (len (front ++ s) - len s)
    (len (front ++ s) - (len post + 1)).
Proof.
  unfold scan_closed_data_url.
  destruct (data_url_payload s) as [rest|] eqn:Erest; [|discriminate].
  pose proof (takeWhile_dropWhile (other_than closing) rest) as Hsplit.
  pose proof (takeWhile_all (other_than closing) rest) as Hall.
  destruct (takeWhile (other_than closing) rest) as [|c t] eqn:Etake;
    [discriminate|].
  destruct (dropWhile (other_than closing) rest) as [|x post'] eqn:Edrop;
    [discriminate|].
  cbv iota beta. intros [= <- <-].
  assert (Hx : x = closing).
  { apply dropWhile_head in Edrop. revert Edrop.
    unfold other_than, contains. cbn [existsb]. rewrite orb_false_r.
    destruct (Ascii.eqb x closing) eqn:E; [|discriminate].
    now apply Ascii.eqb_eq in E. }
  subst x.
  destruct (data_url_payload_width s rest Erest)
    as (Hstart & pre & Hs & Hpre).
  assert (Hfront : len (front ++ s) - len s = len front)
    by (unfold len; rewrite length_app; lia).
  assert (Hlen : len s = len pre + len (c :: t) + len post' + 1).
  { rewrite Hs, <- Hsplit. unfold len. rewrite !length_app.
    cbn [length]. lia. }
  unfold closed_data_url. rewrite Hfront, slice_from_app.
  repeat split.
  - apply len_nonneg.
  - unfold len in *. rewrite length_app. cbn [length] in *. lia.
  - unfold len in *. rewrite length_app. lia.
  - exact Hstart.
  - replace (len (front ++ s) - (len post' + 1))
      with (len (front ++ pre ++ c :: t)).
    + rewrite Hs, <- Hsplit.
      replace (front ++ pre ++ (c :: t) ++ closing :: post')
        with ((front ++ pre ++ c :: t) ++ closing :: post')
        by (now rewrite <- !app_assoc).
      apply getitem_app.
    + unfold len in *. rewrite !length_app in *. cbn [length] in *. lia.
  - exists (c :: t), post'. rewrite Erest, Hsplit.
    repeat split; auto. discriminate.
Qed.

(** ** Searching a text *)

Lemma slice_from_split {A : Type} (data : list A) (pos : Z) :
  0 <= pos <= len data ->
  exists front,
    data = front ++ slice_from pos data /\ len front = pos.
Proof.
  intros Hpos. exists (firstn (Z.to_nat pos) data). split.
  - unfold slice_from. now rewrite firstn_skipn.
  - unfold len in *. rewrite length_firstn. lia.
Qed.

(** A match at [pos] starts there and ends at the least width of the
    pattern behind [pos], or later, within the text. *)
Lemma match_at_bounds (p : pattern) (data : str) (pos : Z)
  (m : SpanMatch.t) :
  0 <= pos ->
  match_at p data pos = Some m ->
  SpanMatch.start m = pos
  /\ pos + Z.of_nat (min_pattern_width p) <= SpanMatch.end_ m
  /\ SpanMatch.end_ m <= len data.
Proof.
  intros Hpos. unfold match_at.
  destruct (len data <? pos) eqn:Elen; [discriminate|].
  apply Z.ltb_ge in Elen. intros Hm.
  destruct (match_pattern_consumes _ _ _ _ _ _ Hm)
    as (pre & s1 & g1 & [= <-] & Hs & Hw).
  destruct (slice_from_split data pos ltac:(lia)) as (front & Hdata & Hfront).
  cbn [SpanMatch.start SpanMatch.end_].
  assert (Hlen : len data = pos + len pre + len s1).
  { rewrite Hdata at 1. rewrite Hs. unfold len in *.
    rewrite !length_app. lia. }
  pose proof (len_nonneg s1). unfold len in *. repeat split; lia.
Qed.

Lemma finditer_from_sound (fuel : nat) (p : pattern) (data : str)
  (pos : Z) (m : SpanMatch.t) :
  0 <= pos ->
  In m (finditer_from fuel p data pos) ->
  exists q, pos <= q /\ match_at p data q = Some m.
Proof.
  revert pos. induction fuel as [|fuel IH]; intros pos Hpos; [contradiction|].
  cbn [finditer_from].
  destruct (len data <? pos); [contradiction|].
  destruct (match_at p data pos) as [m'|] eqn:Em.
  - intros [<-|Hin]; [exists pos; split; [lia | exact Em]|].
    destruct (SpanMatch.end_ m' <=? pos) eqn:Eend.
    + destruct (IH (pos + 1) ltac:(lia) Hin) as (q & Hq & Hm).
      exists q. split; [lia | exact Hm].
    + apply Z.leb_gt in Eend.
      destruct (IH (SpanMatch.end_ m') ltac:(lia) Hin) as (q & Hq & Hm).
      exists q. split; [lia | exact Hm].
  - intros Hin.
    destruct (IH (pos + 1) ltac:(lia) Hin) as (q & Hq & Hm).
    exists q. split; [lia | exact Hm].
Qed.

Lemma finditer_from_complete (fuel : nat) (p : pattern) (data : str)
  (pos q : Z) :
  0 <= pos <= q ->
  match_at p data q <> None ->
  len data - pos < Z.of_nat fuel ->
  finditer_from fuel p data pos <> [].
Proof.
  revert pos. induction fuel as [|fuel IH]; intros pos Hpos Hq Hfuel.
  - assert (Hlen : q <= len data).
    { unfold match_at in Hq. destruct (len data <? q) eqn:E;
        [contradiction|]. now apply Z.ltb_ge in E. }
    lia.
  - assert (Hlen : q <= len data).
    { unfold match_at in Hq. destruct (len data <? q) eqn:E;
        [contradiction|]. now apply Z.ltb_ge in E. }
    cbn [finditer_from].
    replace (len data <? pos) with false by (symmetry; apply Z.ltb_ge; lia).
    destruct (match_at p data pos) as [m|] eqn:Em; [discriminate|].
    apply IH; [|exact Hq|lia].
    destruct (Z.eq_dec pos q) as [->|Hne]; [contradiction|]. lia.
Qed.

(** [finditer] finds something exactly when the pattern matches somewhere
    in the text. *)
Lemma finditer_nonempty (p : pattern) (data : str) :
  finditer p data <> [] <->
  exists q, 0 <= q /\ match_at p data q <> None.
Proof.
  unfold finditer. split.
  - destruct (finditer_from (S (length data)) p data 0) as [|m ms] eqn:E;
      [contradiction|]. intros _.
    destruct (finditer_from_sound (S (length data)) p data 0 m)
      as (q & Hq & Hm); [lia | rewrite E; now left|].
    exists q. split; [exact Hq|]. now rewrite Hm.
  - intros (q & Hq & Hm).
    apply (finditer_from_complete _ p data 0 q); [lia | exact Hm|].
    unfold len. lia.
Qed.

(** ** [handle_data] *)

(** A match of one of the quote patterns: the quote at [pos], a closed data
    URL behind it, and the group [data_url] over that URL. *)
Lemma match_at_quote (closing : ascii) (data : str) (pos : Z)
  (m : SpanMatch.t) :
  0 <= pos ->
  match_at
    (Then (Re (Char closing))
       (Then (DATA_URL_WITH_DATA closing) (Re (Char closing)))) data pos
  = Some m ->
  exists b,
    SpanMatch.span m "data_url" = (pos + 1, b)
    /\ closed_data_url closing data (pos + 1) b.
Proof.
  intros Hpos. unfold match_at.
  destruct (len data <? pos) eqn:Elen; [discriminate|].
  apply Z.ltb_ge in Elen.
  destruct (slice_from_split data pos ltac:(lia)) as (front & Hdata & Hfront).
  set (final := fun (rest : str) (g : spans) =>
         Some {| SpanMatch.start := pos;
                 SpanMatch.end_ := len data - len rest;
                 SpanMatch.groups := g |}).
  change (match_pattern (len data)
            (Then (Re (Char closing))
               (Then (DATA_URL_WITH_DATA closing) (Re (Char closing))))
            (slice_from pos data) [] final)
    with (backtrack (Char closing) (slice_from pos data) []
            (fun s1 _ =>
               match_pattern (len data)
                 (Then (DATA_URL_WITH_DATA closing) (Re (Char closing)))
                 s1 [] final)).
  destruct (slice_from pos data) as [|x s1] eqn:Es; [discriminate|].
  cbn [backtrack Char]. destruct (Ascii.eqb closing x); [|discriminate].
  rewrite match_closed_data_url.
  destruct (scan_closed_data_url closing s1) as [[payload post]|] eqn:Escan;
    [|discriminate].
  intros [= <-].
  pose proof (scan_closed_data_url_sound closing (front ++ [x]) s1
                payload post Escan) as Hclosed.
  rewrite <- app_assoc in Hclosed. cbn [app] in Hclosed.
  rewrite <- Hdata in Hclosed.
  assert (Hlen : len data - len s1 = pos + 1).
  { rewrite Hdata at 1. unfold len in *. rewrite length_app.
    cbn [length]. lia. }
  rewrite Hlen in Hclosed.
  exists (len data - (len post + 1)). split; [|exact Hclosed].
  unfold SpanMatch.span. cbn [SpanMatch.groups SpanMatch.lookup String.eqb].
  cbn. now rewrite Hlen.
Qed.

Lemma match_at_quote_complete (closing : ascii) (front s payload post : str) :
  scan_closed_data_url closing s = Some (payload, post) ->
  match_at
    (Then (Re (Char closing))
       (Then (DATA_URL_WITH_DATA closing) (Re (Char closing))))
    (front ++ closing :: s) (len front) <> None.
Proof.
  intros Hscan. unfold match_at.
  replace (len (front ++ closing :: s) <? len front) with false.
  2:{ symmetry. apply Z.ltb_ge. unfold len. rewrite length_app. lia. }
  rewrite slice_from_app.
  set (final := fun (rest : str) (g : spans) =>
         Some {| SpanMatch.start := len front;
                 SpanMatch.end_ := len (front ++ closing :: s) - len rest;
                 SpanMatch.groups := g |}).
  change (match_pattern (len (front ++ closing :: s))
            (Then (Re (Char closing))
               (Then (DATA_URL_WITH_DATA closing) (Re (Char closing))))
            (closing :: s) [] final)
    with (backtrack (Char closing) (closing :: s) []
            (fun s1 _ =>
               match_pattern (len (front ++ closing :: s))
                 (Then (DATA_URL_WITH_DATA closing) (Re (Char closing)))
                 s1 [] final)).
  cbn [backtrack Char]. rewrite Ascii.eqb_refl.
  rewrite match_closed_data_url, Hscan. discriminate.
Qed.

(** A match of [DATA_URL_IN_CSS]: [url(] with a closed data URL behind it,
    and the group [data_url] over that URL. *)
Lemma match_at_css (data : str) (pos : Z) (m : SpanMatch.t) :
  0 <= pos ->
  match_at DATA_URL_IN_CSS data pos = Some m ->
  exists a b,
    SpanMatch.span m "data_url" = (a, b)
    /\ closed_data_url ")" data a b
    /\ pos + 4 <= a
    /\ slice (a - 4) a data = lit "url(".
Proof.
  intros Hpos. unfold match_at.
  destruct (len data <? pos) eqn:Elen; [discriminate|].
  apply Z.ltb_ge in Elen.
  destruct (slice_from_split data pos ltac:(lia)) as (front & Hdata & Hfront).
  set (final := fun (rest : str) (g : spans) =>
         Some {| SpanMatch.start := pos;
                 SpanMatch.end_ := len data - len rest;
                 SpanMatch.groups := g |}).
  set (tail := fun (s1 : str) (g1 : spans) =>
         backtrack (literal (lit "url(")) s1 []
           (fun s2 _ =>
              match_pattern (len data)
                (Then (DATA_URL_WITH_DATA ")") (Re (Char ")"))) s2 g1 final)).
  assert (Htail : forall pre s1 g1,
             slice_from pos data = pre ++ s1 ->
             tail s1 g1 = Some m ->
             exists a b,
               SpanMatch.span m "data_url" = (a, b)
               /\ closed_data_url ")" data a b
               /\ pos + 4 <= a
               /\ slice (a - 4) a data = lit "url(").
  { intros pre s1 g1 Hs. unfold tail. rewrite backtrack_literal.
    destruct (startswith Ascii.eqb (lit "url(") s1) eqn:Eurl; [|discriminate].
    apply startswith_inv in Eurl as [s2 ->].
    change (skipn (length (lit "url(")) (lit "url(" ++ s2)) with s2.
    rewrite match_closed_data_url.
    destruct (scan_closed_data_url ")" s2) as [[payload post]|] eqn:Escan;
      [|discriminate].
    intros [= <-].
    pose proof (scan_closed_data_url_sound ")" (front ++ pre ++ lit "url(")
                  s2 payload post Escan) as Hclosed.
    assert (Hwhole : data = (front ++ pre ++ lit "url(") ++ s2).
    { rewrite Hdata at 1. rewrite Hs. now rewrite <- !app_assoc. }
    rewrite <- Hwhole in Hclosed.
    assert (Hlen : len data - len s2 = pos + len pre + 4).
    { rewrite Hwhole at 1. unfold len in *. rewrite !length_app.
      cbn [length lit list_ascii_of_string]. lia. }
    exists (len data - len s2), (len data - (len post + 1)).
    split; [reflexivity|]. split; [exact Hclosed|].
    pose proof (len_nonneg pre). split; [lia|].
    rewrite Hlen. replace (pos + len pre + 4 - 4) with (len (front ++ pre))
      by (unfold len in *; rewrite length_app; lia).
    rewrite Hwhole. unfold slice.
    replace (pos + len pre + 4) with (len (front ++ pre ++ lit "url("))
      by (unfold len in *; rewrite !length_app;
          cbn [length lit list_ascii_of_string]; lia).
    unfold slice_to, slice_from, len. rewrite !Nat2Z.id.
    rewrite firstn_app, firstn_all, Nat.sub_diag. cbn [firstn].
    rewrite app_nil_r, app_assoc.
    now rewrite skipn_app, skipn_all, Nat.sub_diag. }
  change (match_pattern (len data) DATA_URL_IN_CSS (slice_from pos data) []
            final)
    with (orelse
            (match_pattern (len data)
               (Then (Re (literal (lit "/*savepage-url=")))
                  (Then
                     (Group "original_url" (Re (Plus (NoneOf ["*"%char]))))
                     (Re (literal (lit "*/")))))
               (slice_from pos data) [] tail)
            (tail (slice_from pos data) [])).
  destruct (match_pattern (len data) _ (slice_from pos data) [] tail)
    as [m'|] eqn:Ecomment; cbn [orelse].
  - intros [= ->].
    destruct (match_pattern_consumes _ _ _ _ _ _ Ecomment)
      as (pre & s1 & g1 & Hm & Hs & _).
    now apply (Htail pre s1 g1).
  - now apply (Htail [] (slice_from pos data) []).
Qed.

Lemma find_go_none (sub s : str) (i : Z) :
  0 <= i ->
  find_go Ascii.eqb sub s i = -1 ->
  forall k, startswith Ascii.eqb sub (skipn k s) = false.
Proof.
  revert i. induction s as [|x t IH]; intros i Hi; cbn [find_go].
  - destruct (startswith Ascii.eqb sub []) eqn:E; [lia|].
    intros _ k. now rewrite skipn_nil.
  - destruct (startswith Ascii.eqb sub (x :: t)) eqn:E; [lia|].
    intros Hfind [|k]; [exact E|].
    cbn [skipn]. apply (IH (i + 1)); [lia | exact Hfind].
Qed.

Lemma find_none (sub data : str) (a : Z) :
  find Ascii.eqb sub data 0 = -1 ->
  startswith Ascii.eqb sub (slice_from a data) = false.
Proof.
  unfold find. destruct (len data <? 0) eqn:E.
  - apply Z.ltb_lt in E. pose proof (len_nonneg data). lia.
  - intros Hfind. unfold slice_from.
    apply (find_go_none sub data 0); [lia | exact Hfind].
Qed.

Lemma closed_data_url_starts (closing : ascii) (data : str) (a b : Z) :
  closed_data_url closing data a b ->
  startswith Ascii.eqb (lit "data:") (slice_from a data) = true.
Proof. now intros (_ & _ & _ & H & _). Qed.

(** X17.  A data URL in single or double quotes in the text, as in
    [url('data:...')], makes [handle_data] raise [IndexError]: the two
    patterns for quoted URLs have no group [original_url].  The URL is what
    [DATA_URL_REGEX] matches behind the quote, with a payload that is not
    empty and ends at the next quote of the same kind. *)
Theorem handle_data_raises_for_quoted_url (self : HTMLDataURLParser.t)
  (front rest payload post : str) (quote : ascii) (m : Match) :
  quote = "'"%char \/ quote = "034"%char ->
  re_match DATA_URL_REGEX rest = Some m ->
  slice_from (match_end m) rest = payload ++ quote :: post ->
  payload <> [] ->
  forallb (other_than quote) payload = true ->
  exists self',
    HTMLDataURLParserCallbacks.handle_data self (front ++ quote :: rest) =
    HTMLDataURLParserCallbacks.RaisesIndexError self'.
Proof.
  intros Hquote Hm Hrest Hpayload Hall.
  assert (Hscan : scan_closed_data_url quote rest = Some (payload, post)).
  { unfold scan_closed_data_url.
    rewrite data_url_payload_match, Hm. cbn [option_map]. rewrite Hrest.
    assert (Hq : other_than quote quote = false).
    { unfold other_than, contains. cbn [existsb].
      now rewrite Ascii.eqb_refl. }
    rewrite (takeWhile_stop _ payload post quote Hq Hall).
    rewrite (dropWhile_app_all _ payload (quote :: post) Hall).
    cbn [dropWhile]. rewrite Hq.
    destruct payload; [contradiction|reflexivity]. }
  pose proof (match_at_quote_complete quote front rest payload post Hscan)
    as Hmatch.
  assert (Hfound : finditer
                     (Then (Re (Char quote))
                        (Then (DATA_URL_WITH_DATA quote) (Re (Char quote))))
                     (front ++ quote :: rest) <> []).
  { apply finditer_nonempty. exists (len front).
    split; [apply len_nonneg | exact Hmatch]. }
  unfold HTMLDataURLParserCallbacks.handle_data.
  destruct Hquote as [->| ->].
  - change (Then (Re (Char "'"))
              (Then (DATA_URL_WITH_DATA "'") (Re (Char "'"))))
      with DATA_URL_SINGLE_QUOTE in Hfound.
    destruct (finditer DATA_URL_SINGLE_QUOTE _); [contradiction|].
    eauto.
  - change (Then (Re (Char "034"))
              (Then (DATA_URL_WITH_DATA "034") (Re (Char "034"))))
      with DATA_URL_DOUBLE_QUOTE in Hfound.
    destruct (finditer DATA_URL_DOUBLE_QUOTE _);
      [contradiction|].
    destruct (finditer DATA_URL_SINGLE_QUOTE _); eauto.
Qed.

Lemma handle_data_raises_for_quoted_url_witness :
  exists self',
    HTMLDataURLParserCallbacks.handle_data fresh_parser quoted_style_sheet =
    HTMLDataURLParserCallbacks.RaisesIndexError self'.
Proof.
  destruct (re_match DATA_URL_REGEX (lit "data:image/png;base64,QUJD')}"))
    as [m|] eqn:Em; [|vm_compute in Em; discriminate Em].
  apply (handle_data_raises_for_quoted_url fresh_parser
           (lit "b{background:url(") (lit "data:image/png;base64,QUJD')}")
           (lit "QUJD") (lit ")}") "'"%char m).
  - now left.
  - exact Em.
  - vm_compute in Em. injection Em as <-. vm_compute. reflexivity.
  - discriminate.
  - vm_compute. reflexivity.
Defined.

(** The files behind a call of [handle_data]. *)
Lemma handle_data_files (self : HTMLDataURLParser.t) (data : str) :
  exists new,
    HTMLDataURLParser.files
      (HTMLDataURLParserCallbacks.parser_of
         (HTMLDataURLParserCallbacks.handle_data self data)) =
    HTMLDataURLParser.files (HTMLDataURLParser._update_end_offset self)
    ++ new
    /\ Forall
         (fun candidate =>
            EmbeddedFileCandidate.attribute candidate = []
            /\ exists a b,
                 EmbeddedFileCandidate.start candidate =
                   {| LineOffset.line :=
                        LineOffset.line (HTMLDataURLParser.getpos self);
                      LineOffset.offset :=
                        LineOffset.offset (HTMLDataURLParser.getpos self)
                        + a |}
                 /\ EmbeddedFileCandidate.next candidate =
                    Some {| LineOffset.line :=
                              LineOffset.line (HTMLDataURLParser.getpos self);
                            LineOffset.offset :=
                              LineOffset.offset
                                (HTMLDataURLParser.getpos self) + b |}
                 /\ closed_data_url ")" data a b
                 /\ 4 <= a
                 /\ slice (a - 4) a data = lit "url(")
         new.
Proof.
  set (self0 := HTMLDataURLParser._update_end_offset self).
  exists (map (HTMLDataURLParserCallbacks.candidate_of_match self0 data)
            (finditer DATA_URL_IN_CSS data)).
  split.
  - unfold HTMLDataURLParserCallbacks.handle_data. fold self0.
    destruct (finditer DATA_URL_SINGLE_QUOTE data),
      (finditer DATA_URL_DOUBLE_QUOTE data); reflexivity.
  - apply Forall_map, Forall_forall. intros m Hin.
    destruct (finditer_from_sound _ _ _ 0 m ltac:(lia) Hin)
      as (q & Hq & Hm).
    destruct (match_at_css data q m Hq Hm) as (a & b & Hspan & Hurl & Ha & Hs).
    unfold HTMLDataURLParserCallbacks.candidate_of_match.
    cbn [EmbeddedFileCandidate.attribute EmbeddedFileCandidate.start
           EmbeddedFileCandidate.next].
    split; [reflexivity|]. exists a, b.
    subst self0. rewrite update_end_offset_getpos, Hspan. cbn [fst snd].
    split; [reflexivity|]. split; [reflexivity|]. split; [exact Hurl|].
    split; [lia | exact Hs].
Qed.

(** ** The matches that [handle_data] turns into candidates *)

(** [finditer] misses no match: a place where the pattern matches is where
    a match that it finds begins, or lies inside one. *)
Lemma finditer_from_covers (fuel : nat) (p : pattern) (data : str)
  (pos q : Z) :
  0 <= pos <= q ->
  match_at p data q <> None ->
  len data - pos < Z.of_nat fuel ->
  exists m,
    In m (finditer_from fuel p data pos)
    /\ SpanMatch.start m <= q
    /\ (q = SpanMatch.start m \/ q < SpanMatch.end_ m).
Proof.
  intros Hpos Hq.
  assert (Hlen : q <= len data).
  { unfold match_at in Hq. destruct (len data <? q) eqn:E;
      [contradiction|]. now apply Z.ltb_ge in E. }
  revert pos Hpos. induction fuel as [|fuel IH]; intros pos Hpos Hfuel;
    [lia|].
  cbn [finditer_from].
  replace (len data <? pos) with false by (symmetry; apply Z.ltb_ge; lia).
  destruct (match_at p data pos) as [m|] eqn:Em.
  - assert (Hpos0 : 0 <= pos) by lia.
    destruct (match_at_bounds p data pos m Hpos0 Em) as (Hstart & _ & Hend).
    destruct (Z.eq_dec q pos) as [->|Hne].
    { exists m. split; [now left|]. split; [lia | left; lia]. }
    destruct (Z.lt_ge_cases q (SpanMatch.end_ m)) as [Hin|Hout].
    { exists m. split; [now left|]. split; [lia | now right]. }
    destruct (IH (if SpanMatch.end_ m <=? pos then pos + 1
                  else SpanMatch.end_ m)) as (m' & Hm' & Hcover).
    + destruct (SpanMatch.end_ m <=? pos) eqn:E; [lia|].
      apply Z.leb_gt in E. lia.
    + destruct (SpanMatch.end_ m <=? pos) eqn:E; [lia|].
      apply Z.leb_gt in E. lia.
    + exists m'. split; [now right | exact Hcover].
  - destruct (Z.eq_dec q pos) as [->|Hne]; [contradiction|].
    destruct (IH (pos + 1)) as (m' & Hm' & Hcover); [lia | lia|].
    exists m'. split; [exact Hm' | exact Hcover].
Qed.

(** A data URL behind [closing]-free payload, as [DATA_URL_REGEX] and the
    class of the payload read it, is what [scan_closed_data_url] finds. *)
Lemma scan_closed_data_url_complete (closing : ascii)
  (rest payload post : str) (m : Match) :
  re_match DATA_URL_REGEX rest = Some m ->
  slice_from (match_end m) rest = payload ++ closing :: post ->
  payload <> [] ->
  forallb (other_than closing) payload = true ->
  scan_closed_data_url closing rest = Some (payload, post).
Proof.
  intros Hm Hrest Hpayload Hall.
  unfold scan_closed_data_url.
  rewrite data_url_payload_match, Hm. cbn [option_map]. rewrite Hrest.
  assert (Hq : other_than closing closing = false).
  { unfold other_than, contains. cbn [existsb].
    now rewrite Ascii.eqb_refl. }
  rewrite (takeWhile_stop _ payload post closing Hq Hall).
  rewrite (dropWhile_app_all _ payload (closing :: post) Hall).
  cbn [dropWhile]. rewrite Hq.
  destruct payload; [contradiction|reflexivity].
Qed.

(** [DATA_URL_IN_CSS] matches where [url(] stands in front of a closed
    data URL. *)
Lemma match_at_css_complete (front s payload post : str) :
  scan_closed_data_url ")" s = Some (payload, post) ->
  match_at DATA_URL_IN_CSS (front ++ lit "url(" ++ s) (len front) <> None.
Proof.
  intros Hscan. unfold match_at.
  replace (len (front ++ lit "url(" ++ s) <? len front) with false.
  2:{ symmetry. apply Z.ltb_ge. unfold len. rewrite length_app. lia. }
  rewrite slice_from_app.
  set (data := front ++ lit "url(" ++ s).
  set (final := fun (rest : str) (g : spans) =>
         Some {| SpanMatch.start := len front;
                 SpanMatch.end_ := len data - len rest;
                 SpanMatch.groups := g |}).
  set (tail := fun (s1 : str) (g1 : spans) =>
         backtrack (literal (lit "url(")) s1 []
           (fun s2 _ =>
              match_pattern (len data)
                (Then (DATA_URL_WITH_DATA ")") (Re (Char ")"))) s2 g1 final)).
  change (match_pattern (len data) DATA_URL_IN_CSS (lit "url(" ++ s) []
            final)
    with (orelse
            (match_pattern (len data)
               (Then (Re (literal (lit "/*savepage-url=")))
                  (Then
                     (Group "original_url" (Re (Plus (NoneOf ["*"%char]))))
                     (Re (literal (lit "*/")))))
               (lit "url(" ++ s) [] tail)
            (tail (lit "url(" ++ s) [])).
  destruct (match_pattern (len data) _ (lit "url(" ++ s) [] tail)
    as [m'|]; cbn [orelse]; [discriminate|].
  unfold tail. rewrite backtrack_literal.
  change (startswith Ascii.eqb (lit "url(") (lit "url(" ++ s)) with true.
  cbv iota.
  change (skipn (length (lit "url(")) (lit "url(" ++ s)) with s.
  rewrite match_closed_data_url, Hscan. discriminate.
Qed.

(** A match of [DATA_URL_IN_CSS] ends behind the parenthesis that closes
    the data URL. *)
Lemma match_at_css_end (data : str) (pos : Z) (m : SpanMatch.t) :
  match_at DATA_URL_IN_CSS data pos = Some m ->
  SpanMatch.end_ m = snd (SpanMatch.span m "data_url") + 1.
Proof.
  unfold match_at.
  destruct (len data <? pos); [discriminate|].
  set (final := fun (rest : str) (g : spans) =>
         Some {| SpanMatch.start := pos;
                 SpanMatch.end_ := len data - len rest;
                 SpanMatch.groups := g |}).
  set (tail := fun (s1 : str) (g1 : spans) =>
         backtrack (literal (lit "url(")) s1 []
           (fun s2 _ =>
              match_pattern (len data)
                (Then (DATA_URL_WITH_DATA ")") (Re (Char ")"))) s2 g1 final)).
  assert (Htail : forall s1 g1,
             tail s1 g1 = Some m ->
             SpanMatch.end_ m = snd (SpanMatch.span m "data_url") + 1).
  { intros s1 g1. unfold tail. rewrite backtrack_literal.
    destruct (startswith Ascii.eqb (lit "url(") s1); [|discriminate].
    rewrite match_closed_data_url.
    destruct (scan_closed_data_url ")" _) as [[payload post]|];
      [|discriminate].
    intros [= <-]. unfold SpanMatch.span.
    cbn [SpanMatch.groups SpanMatch.lookup String.eqb SpanMatch.end_].
    cbn. lia. }
  change (match_pattern (len data) DATA_URL_IN_CSS (slice_from pos data) []
            final)
    with (orelse
            (match_pattern (len data)
               (Then (Re (literal (lit "/*savepage-url=")))
                  (Then
                     (Group "original_url" (Re (Plus (NoneOf ["*"%char]))))
                     (Re (literal (lit "*/")))))
               (slice_from pos data) [] tail)
            (tail (slice_from pos data) [])).
  destruct (match_pattern (len data) _ (slice_from pos data) [] tail)
    as [m'|] eqn:Ecomment; cbn [orelse].
  - intros [= ->].
    destruct (match_pattern_consumes _ _ _ _ _ _ Ecomment)
      as (pre & s1 & g1 & Hm & Hs & _).
    now apply (Htail s1 g1).
  - now apply (Htail (slice_from pos data) []).
Qed.

(** X18.  [handle_data] closes the open candidate and then adds one
    candidate for each match of [DATA_URL_IN_CSS], in the order of the
    matches and whether it returns or raises: a candidate without
    attribute, with the original URL of the comment in front when the match
    holds one, on the line of the text, from the offset of a data URL
    behind [url(] to the offset of the parenthesis that closes it; the URL
    has a payload and takes seven characters or more.  No such URL is
    passed over: where the text holds [url(], a data URL with a payload
    and the parenthesis, one of the matches begins there or before and ends
    behind. *)
Theorem handle_data_candidates (self : HTMLDataURLParser.t) (data : str) :
  exists new,
    HTMLDataURLParser.files
      (HTMLDataURLParserCallbacks.parser_of
         (HTMLDataURLParserCallbacks.handle_data self data)) =
    HTMLDataURLParser.files (HTMLDataURLParser._update_end_offset self)
    ++ new
    /\ Forall2
         (fun candidate m =>
            EmbeddedFileCandidate.original_url candidate =
              match SpanMatch.group data m "original_url" with
              | Some url => url
              | None => []
              end
            /\ EmbeddedFileCandidate.attribute candidate = []
            /\ EmbeddedFileCandidate.start candidate =
               {| LineOffset.line :=
                    LineOffset.line (HTMLDataURLParser.getpos self);
                  LineOffset.offset :=
                    LineOffset.offset (HTMLDataURLParser.getpos self)
                    + fst (SpanMatch.span m "data_url") |}
            /\ EmbeddedFileCandidate.next candidate =
               Some {| LineOffset.line :=
                         LineOffset.line (HTMLDataURLParser.getpos self);
                       LineOffset.offset :=
                         LineOffset.offset (HTMLDataURLParser.getpos self)
                         + snd (SpanMatch.span m "data_url") |})
         new (finditer DATA_URL_IN_CSS data)
    /\ Forall
         (fun m =>
            exists a b,
              SpanMatch.span m "data_url" = (a, b)
              /\ closed_data_url ")" data a b
              /\ SpanMatch.start m + 4 <= a
              /\ slice (a - 4) a data = lit "url("
              /\ SpanMatch.end_ m = b + 1)
         (finditer DATA_URL_IN_CSS data)
    /\ forall (front rest payload post : str) (url : Match),
         data = front ++ lit "url(" ++ rest ->
         re_match DATA_URL_REGEX rest = Some url ->
         slice_from (match_end url) rest = payload ++ ")"%char :: post ->
         payload <> [] ->
         forallb (other_than ")") payload = true ->
         exists m,
           In m (finditer DATA_URL_IN_CSS data)
           /\ SpanMatch.start m <= len front < SpanMatch.end_ m.
Proof.
  set (self0 := HTMLDataURLParser._update_end_offset self).
  exists (map (HTMLDataURLParserCallbacks.candidate_of_match self0 data)
            (finditer DATA_URL_IN_CSS data)).
  assert (Hfound : forall m,
             In m (finditer DATA_URL_IN_CSS data) ->
             exists a b,
               SpanMatch.span m "data_url" = (a, b)
               /\ closed_data_url ")" data a b
               /\ SpanMatch.start m + 4 <= a
               /\ slice (a - 4) a data = lit "url("
               /\ SpanMatch.end_ m = b + 1).
  { intros m Hin.
    destruct (finditer_from_sound _ _ _ 0 m ltac:(lia) Hin)
      as (q & Hq & Hm).
    destruct (match_at_css data q m Hq Hm)
      as (a & b & Hspan & Hurl & Ha & Hs).
    destruct (match_at_bounds _ _ _ _ Hq Hm) as (Hstart & _).
    pose proof (match_at_css_end data q m Hm) as Hend.
    rewrite Hspan in Hend. cbn [snd] in Hend.
    exists a, b. repeat split; try assumption; try apply Hurl. lia. }
  split; [|split; [|split]].
  - unfold HTMLDataURLParserCallbacks.handle_data. fold self0.
    destruct (finditer DATA_URL_SINGLE_QUOTE data),
      (finditer DATA_URL_DOUBLE_QUOTE data); reflexivity.
  - clear Hfound.
    induction (finditer DATA_URL_IN_CSS data) as [|m ms IH]; cbn [map];
      [constructor|]. constructor; [|exact IH].
    unfold HTMLDataURLParserCallbacks.candidate_of_match.
    cbn [EmbeddedFileCandidate.original_url EmbeddedFileCandidate.attribute
           EmbeddedFileCandidate.start EmbeddedFileCandidate.next].
    subst self0. rewrite update_end_offset_getpos. repeat split.
  - apply Forall_forall. exact Hfound.
  - intros front rest payload post url -> Hurl Hrest Hpayload Hall.
    pose proof (scan_closed_data_url_complete ")" rest payload post url
                  Hurl Hrest Hpayload Hall) as Hscan.
    pose proof (match_at_css_complete front rest payload post Hscan)
      as Hmatch.
    destruct (finditer_from_covers
                (S (length (front ++ lit "url(" ++ rest))) DATA_URL_IN_CSS
                (front ++ lit "url(" ++ rest) 0 (len front))
      as (m & Hin & Hstart & Hcover);
      [pose proof (len_nonneg front); lia | exact Hmatch
       | unfold len; lia |].
    exists m. split; [exact Hin|]. split; [exact Hstart|].
    destruct Hcover as [Hq|Hq]; [|exact Hq].
    destruct (Hfound m Hin) as (a & b & _ & Hclosed & Ha & _ & Hend).
    destruct Hclosed as (_ & Hab & _). lia.
Qed.

Lemma handle_data_candidates_witness :
  exists m,
    In m (finditer DATA_URL_IN_CSS (lit "a{src:url(data:,x)}"))
    /\ SpanMatch.start m <= 6 < SpanMatch.end_ m.
Proof.
  destruct (handle_data_candidates fresh_parser (lit "a{src:url(data:,x)}"))
    as (new & _ & _ & _ & Hcover).
  destruct (re_match DATA_URL_REGEX (lit "data:,x)}"))
    as [url|] eqn:Eurl; [|vm_compute in Eurl; discriminate Eurl].
  apply (Hcover (lit "a{src:") (lit "data:,x)}") (lit "x") (lit "}") url).
  - reflexivity.
  - exact Eurl.
  - vm_compute in Eurl. injection Eurl as <-. vm_compute. reflexivity.
  - discriminate.
  - vm_compute. reflexivity.
Defined.

(** The candidates of a style sheet with two fonts, the first one behind
    the comment that holds its original URL. *)
Example handle_data_two_fonts :
  map (fun candidate =>
         (EmbeddedFileCandidate.original_url candidate,
          LineOffset.offset (EmbeddedFileCandidate.start candidate),
          option_map LineOffset.offset
            (EmbeddedFileCandidate.next candidate)))
    (HTMLDataURLParser.files
       (HTMLDataURLParserCallbacks.parser_of
          (HTMLDataURLParserCallbacks.handle_data fresh_parser
             (lit "a{src:/*savepage-url=f.ttf*/url(data:font/ttf;base64,QUJD)}b{src:url(data:,x)}"))))
  = [ (lit "f.ttf", 32, Some 57); ([], 69, Some 76) ].
Proof. vm_compute. reflexivity. Qed.

(** X19.  A text without the characters [data:] adds no candidate and
    raises nothing: [handle_data] only closes the open candidate. *)
Theorem handle_data_without_data_url (self : HTMLDataURLParser.t)
  (data : str) :
  find Ascii.eqb (lit "data:") data 0 = -1 ->
  HTMLDataURLParserCallbacks.handle_data self data =
  HTMLDataURLParserCallbacks.Returns
    (HTMLDataURLParser._update_end_offset self).
Proof.
  intros Hfind.
  assert (Hcss : finditer DATA_URL_IN_CSS data = []).
  { destruct (finditer DATA_URL_IN_CSS data) as [|m ms] eqn:E;
      [reflexivity|].
    destruct (finditer_from_sound _ _ _ 0 m ltac:(lia)
                ltac:(unfold finditer in E; rewrite E; now left))
      as (q & Hq & Hm).
    destruct (match_at_css data q m Hq Hm) as (a & b & _ & Hurl & _).
    apply closed_data_url_starts in Hurl.
    now rewrite (find_none _ _ a Hfind) in Hurl. }
  assert (Hquote : forall quote,
             finditer
               (Then (Re (Char quote))
                  (Then (DATA_URL_WITH_DATA quote) (Re (Char quote))))
               data = []).
  { intros quote.
    destruct (finditer
                (Then (Re (Char quote))
                   (Then (DATA_URL_WITH_DATA quote) (Re (Char quote))))
                data) as [|m ms] eqn:E; [reflexivity|].
    destruct (finditer_from_sound _ _ _ 0 m ltac:(lia)
                ltac:(unfold finditer in E; rewrite E; now left))
      as (q & Hq & Hm).
    destruct (match_at_quote quote data q m Hq Hm) as (b & _ & Hurl).
    apply closed_data_url_starts in Hurl.
    now rewrite (find_none _ _ (q + 1) Hfind) in Hurl. }
  unfold HTMLDataURLParserCallbacks.handle_data.
  rewrite Hcss.
  change DATA_URL_SINGLE_QUOTE
    with (Then (Re (Char "'"))
            (Then (DATA_URL_WITH_DATA "'") (Re (Char "'")))).
  change DATA_URL_DOUBLE_QUOTE
    with (Then (Re (Char "034"))
            (Then (DATA_URL_WITH_DATA "034") (Re (Char "034")))).
  rewrite !Hquote. cbn [map]. rewrite app_nil_r.
  unfold HTMLDataURLParser.set_files.
  now destruct (HTMLDataURLParser._update_end_offset self).
Qed.

Lemma handle_data_without_data_url_witness :
  HTMLDataURLParserCallbacks.handle_data fresh_parser
    (lit "body { color: red; background: url('a.png') }") =
  HTMLDataURLParserCallbacks.Returns
    (HTMLDataURLParser._update_end_offset fresh_parser).
Proof.
  apply (handle_data_without_data_url fresh_parser). reflexivity.
Defined.

(** ** The candidates over the calls of the tokenizer *)

Lemma update_end_offset_files (self : HTMLDataURLParser.t) :
  HTMLDataURLParser.files (HTMLDataURLParser._update_end_offset self)
    = HTMLDataURLParser.files self
  \/ exists older file,
       HTMLDataURLParser.files self = older ++ [file]
       /\ EmbeddedFileCandidate.next file = None
       /\ LineOffset.eqb (HTMLDataURLParser.getpos self)
            (EmbeddedFileCandidate.start file) = false
       /\ HTMLDataURLParser.files
            (HTMLDataURLParser._update_end_offset self) =
          older ++
          [ {| EmbeddedFileCandidate.original_url :=
                 EmbeddedFileCandidate.original_url file;
               EmbeddedFileCandidate.attribute :=
                 EmbeddedFileCandidate.attribute file;
               EmbeddedFileCandidate.start :=
                 EmbeddedFileCandidate.start file;
               EmbeddedFileCandidate.next :=
                 Some (HTMLDataURLParser.getpos self) |} ].
Proof.
  unfold HTMLDataURLParser._update_end_offset.
  destruct (rev (HTMLDataURLParser.files self)) as [|file r] eqn:Erev;
    [now left|].
  assert (Hfiles : HTMLDataURLParser.files self = rev r ++ [file]).
  { rewrite <- (rev_involutive (HTMLDataURLParser.files self)), Erev.
    reflexivity. }
  destruct (EmbeddedFileCandidate.next file) as [n|] eqn:Enext;
    cbn [orb]; [now left|].
  destruct (LineOffset.eqb _ _) eqn:Epos; [now left|].
  right. exists (rev r), file.
  cbn [HTMLDataURLParser.set_files HTMLDataURLParser.files].
  rewrite Hfiles at 2. rewrite removelast_last. auto.
Qed.

Lemma Forall2_kept_refl (l : list EmbeddedFileCandidate.t) :
  Forall2 kept l l.
Proof.
  induction l; constructor; auto. unfold kept. auto.
Qed.

Lemma kept_trans (a b c : EmbeddedFileCandidate.t) :
  kept a b -> kept b c -> kept a c.
Proof.
  unfold kept. intros (-> & -> & -> & Hab) (-> & -> & -> & Hbc).
  repeat split. destruct Hab as [Ha|Hab]; [now left|].
  destruct Hbc as [Hb|Hbc]; [left; congruence | right; congruence].
Qed.

Lemma Forall2_kept_trans (a b c : list EmbeddedFileCandidate.t) :
  Forall2 kept a b -> Forall2 kept b c -> Forall2 kept a c.
Proof.
  intros Hab. revert c. induction Hab as [|x y a b Hxy Hab IH]; intros c Hbc;
    inversion Hbc; subst; constructor; eauto using kept_trans.
Qed.

Lemma extends_refl (l : list EmbeddedFileCandidate.t) : extends l l.
Proof.
  exists l, []. split; [now rewrite app_nil_r | apply Forall2_kept_refl].
Qed.

Lemma extends_trans (a b c : list EmbeddedFileCandidate.t) :
  extends a b -> extends b c -> extends a c.
Proof.
  intros (b1 & b2 & -> & Hab) (c1 & c2 & -> & Hbc).
  apply Forall2_app_inv_l in Hbc as (c11 & c12 & H1 & H2 & ->).
  exists c11, (c12 ++ c2). split; [now rewrite app_assoc|].
  now apply (Forall2_kept_trans a b1 c11).
Qed.

Lemma extends_app (l new : list EmbeddedFileCandidate.t) :
  extends l (l ++ new).
Proof. exists l, new. split; [reflexivity | apply Forall2_kept_refl]. Qed.

Lemma update_end_offset_extends (self : HTMLDataURLParser.t) :
  extends (HTMLDataURLParser.files self)
    (HTMLDataURLParser.files (HTMLDataURLParser._update_end_offset self)).
Proof.
  destruct (update_end_offset_files self)
    as [->|(older & file & Hfiles & Hnext & _ & ->)];
    [apply extends_refl|].
  rewrite Hfiles.
  exists (older ++
          [ {| EmbeddedFileCandidate.original_url :=
                 EmbeddedFileCandidate.original_url file;
               EmbeddedFileCandidate.attribute :=
                 EmbeddedFileCandidate.attribute file;
               EmbeddedFileCandidate.start :=
                 EmbeddedFileCandidate.start file;
               EmbeddedFileCandidate.next :=
                 Some (HTMLDataURLParser.getpos self) |} ]), [].
  split; [now rewrite app_nil_r|].
  apply Forall2_app; [apply Forall2_kept_refl|].
  constructor; [|constructor]. unfold kept. cbn. auto.
Qed.

Lemma update_end_offset_closed_elsewhere (self : HTMLDataURLParser.t) :
  Forall closed_elsewhere (HTMLDataURLParser.files self) ->
  Forall closed_elsewhere
    (HTMLDataURLParser.files (HTMLDataURLParser._update_end_offset self)).
Proof.
  intros Hall.
  destruct (update_end_offset_files self)
    as [->|(older & file & Hfiles & _ & Hpos & ->)]; [exact Hall|].
  rewrite Hfiles in Hall. apply Forall_app in Hall as [Holder _].
  apply Forall_app. split; [exact Holder|].
  constructor; [|constructor]. exact Hpos.
Qed.

(** The files behind a start tag. *)
Lemma starttag_files (self : HTMLDataURLParser.t) (tag : str)
  (attrs : list (str * str)) :
  HTMLDataURLParser.files (HTMLDataURLParser.handle_starttag self tag attrs) =
  HTMLDataURLParser.files (HTMLDataURLParser._update_end_offset self) ++
  map (candidate_of (dict attrs) (HTMLDataURLParser.getpos self))
    (filter (fun item => is_data_url_with_payload (snd item)) (dict attrs)).
Proof.
  unfold HTMLDataURLParser.handle_starttag.
  match goal with
  | |- context [existsb ?f attrs] => destruct (existsb f attrs) eqn:Eany
  end; cbn [negb].
  - rewrite fold_visit_attribute. now rewrite update_end_offset_getpos.
  - replace (filter _ (dict attrs)) with (@nil (str * str));
      [now rewrite app_nil_r|].
    symmetry. apply filter_none. intros item Hin.
    destruct (dict_values attrs item Hin) as [k Hk].
    unfold is_data_url_with_payload.
    replace (startswith Ascii.eqb (lit "data:") (snd item)) with false;
      [reflexivity|].
    symmetry. apply not_true_is_false. intros Hs.
    assert (Hex : existsb
                    (fun kv => startswith Ascii.eqb (lit "data:") (snd kv))
                    attrs = true)
      by (apply existsb_exists; exists (k, snd item); auto).
    congruence.
Qed.

(** What a single call does to the files. *)
Lemma dispatch_files (self : HTMLDataURLParser.t)
  (call : LineOffset.t * callback) :
  extends (HTMLDataURLParser.files self)
    (HTMLDataURLParser.files
       (HTMLDataURLParserCallbacks.parser_of (dispatch self call)))
  /\ (Forall closed_elsewhere (HTMLDataURLParser.files self) ->
      Forall closed_elsewhere
        (HTMLDataURLParser.files
           (HTMLDataURLParserCallbacks.parser_of (dispatch self call)))).
Proof.
  destruct call as [pos [tag attrs|tag|data|data|name|name]];
    unfold dispatch; cbn [fst snd HTMLDataURLParserCallbacks.parser_of].
  - pose proof (starttag_files (at_position self pos) tag attrs) as Hfiles.
    cbn [at_position HTMLDataURLParser.getpos] in Hfiles.
    rewrite Hfiles. split.
    + eapply extends_trans;
        [apply (update_end_offset_extends (at_position self pos))
        |apply extends_app].
    + intros Hall. apply Forall_app. split.
      * now apply (update_end_offset_closed_elsewhere (at_position self pos)).
      * apply Forall_map, Forall_forall. intros item _.
        unfold closed_elsewhere, candidate_of. cbn. exact I.
  - split; [apply (update_end_offset_extends (at_position self pos))
           |apply (update_end_offset_closed_elsewhere (at_position self pos))].
  - destruct (handle_data_files (at_position self pos) data)
      as (new & -> & Hnew).
    split.
    + eapply extends_trans;
        [apply (update_end_offset_extends (at_position self pos))
        |apply extends_app].
    + intros Hall. apply Forall_app. split.
      * now apply (update_end_offset_closed_elsewhere (at_position self pos)).
      * revert Hnew. apply Forall_impl.
        intros c (_ & a & b & Hstart & Hnext & (_ & Hab & _) & _).
        unfold closed_elsewhere. rewrite Hnext, Hstart.
        unfold LineOffset.eqb. cbn [LineOffset.line LineOffset.offset].
        apply andb_false_iff. right. apply Z.eqb_neq. lia.
  - split; [apply (update_end_offset_extends (at_position self pos))
           |apply (update_end_offset_closed_elsewhere (at_position self pos))].
  - split; [apply extends_refl | auto].
  - split; [apply extends_refl | auto].
Qed.

Lemma run_callbacks_files (calls : list (LineOffset.t * callback)) :
  forall self,
    extends (HTMLDataURLParser.files self)
      (HTMLDataURLParser.files
         (HTMLDataURLParserCallbacks.parser_of (run_callbacks self calls)))
    /\ (Forall closed_elsewhere (HTMLDataURLParser.files self) ->
        Forall closed_elsewhere
          (HTMLDataURLParser.files
             (HTMLDataURLParserCallbacks.parser_of
                (run_callbacks self calls)))).
Proof.
  induction calls as [|call calls IH]; intros self; cbn [run_callbacks].
  - split; [apply extends_refl | auto].
  - destruct (dispatch_files self call) as [Hext Hclosed].
    destruct (dispatch self call) as [self'|self'];
      cbn [HTMLDataURLParserCallbacks.parser_of] in *.
    + destruct (IH self') as [Hext' Hclosed']. split.
      * now apply (extends_trans _ (HTMLDataURLParser.files self')).
      * auto.
    + split; assumption.
Qed.

(** X20.  Whatever the tokenizer reports, and whether a call raises or
    not, the parser never drops, moves or rewrites a candidate: the files
    after the calls are the files before them, each with its URL, attribute
    and start, and with its end once it has one, followed by the new
    ones. *)
Theorem candidates_are_kept (self : HTMLDataURLParser.t)
  (calls : list (LineOffset.t * callback)) :
  extends (HTMLDataURLParser.files self)
    (HTMLDataURLParser.files
       (HTMLDataURLParserCallbacks.parser_of (run_callbacks self calls))).
Proof. apply run_callbacks_files. Qed.

(** X21.  No candidate gets an end that equals its start: when this holds
    before the calls of the tokenizer, as for a new parser, it holds after
    them. *)
Theorem candidates_end_elsewhere (self : HTMLDataURLParser.t)
  (calls : list (LineOffset.t * callback)) :
  Forall closed_elsewhere (HTMLDataURLParser.files self) ->
  Forall closed_elsewhere
    (HTMLDataURLParser.files
       (HTMLDataURLParserCallbacks.parser_of (run_callbacks self calls))).
Proof. apply run_callbacks_files. Qed.

Lemma candidates_end_elsewhere_witness :
  Forall closed_elsewhere
    (HTMLDataURLParser.files
       (HTMLDataURLParserCallbacks.parser_of
          (run_callbacks fresh_parser page_calls)))
  /\ length
       (HTMLDataURLParser.files
          (HTMLDataURLParserCallbacks.parser_of
             (run_callbacks fresh_parser page_calls))) = 4%nat.
Proof.
  split; [|vm_compute; reflexivity].
  apply (candidates_end_elsewhere fresh_parser page_calls). constructor.
Defined.

Example page_calls_files :
  map (fun c => (EmbeddedFileCandidate.attribute c,
                 EmbeddedFileCandidate.start c,
                 EmbeddedFileCandidate.next c))
    (HTMLDataURLParser.files
       (HTMLDataURLParserCallbacks.parser_of
          (run_callbacks fresh_parser page_calls))) =
  [ (lit "src", {| LineOffset.line := 1; LineOffset.offset := 0 |},
     Some {| LineOffset.line := 2; LineOffset.offset := 0 |});
    ([], {| LineOffset.line := 2; LineOffset.offset := 33 |},
     Some {| LineOffset.line := 2; LineOffset.offset := 58 |});
    ([], {| LineOffset.line := 2; LineOffset.offset := 77 |},
     Some {| LineOffset.line := 2; LineOffset.offset := 103 |});
    (lit "src", {| LineOffset.line := 3; LineOffset.offset := 4 |},
     Some {| LineOffset.line := 3; LineOffset.offset := 26 |}) ].
Proof. vm_compute. reflexivity. Qed.

(** ** The spans of the groups *)

Lemma spans_within_weaken (lo hi lo' hi' : Z) (g : spans) :
  lo' <= lo -> hi <= hi' ->
  spans_within lo hi g -> spans_within lo' hi' g.
Proof.
  intros Hlo Hhi. unfold spans_within. apply Forall_impl.
  intros group. lia.
Qed.

(** The groups of a match lie in the piece of the text that the match
    takes. *)
Lemma match_pattern_spans {R : Type} (n : Z) (p : pattern) :
  forall s g (k : str -> spans -> option R) m,
    match_pattern n p s g k = Some m ->
    exists pre s1 new,
      k s1 (new ++ g) = Some m /\ s = pre ++ s1
      /\ spans_within (n - len s) (n - len s1) new.
Proof.
  induction p as [r|p1 IH1 p2 IH2|p1 IH1 p2 IH2|p1 IH1|name p1 IH1];
    intros s g k m; cbn [match_pattern].
  - intros Hm.
    destruct (backtrack_consumes r _ _ _ _ Hm)
      as (pre & s1 & g1 & Hk & -> & _).
    exists pre, s1, []. repeat split; auto. constructor.
  - destruct (match_pattern n p1 s g k) as [m'|] eqn:Efirst; cbn [orelse].
    + intros [= ->]. now apply IH1.
    + apply IH2.
  - intros Hm.
    destruct (IH1 _ _ _ _ Hm) as (pre1 & s1 & new1 & Hm2 & -> & Hw1).
    destruct (IH2 _ _ _ _ Hm2) as (pre2 & s2 & new2 & Hk & -> & Hw2).
    exists (pre1 ++ pre2), s2, (new2 ++ new1).
    rewrite <- !app_assoc. split; [exact Hk|]. split; [reflexivity|].
    unfold spans_within in *. apply Forall_app. split.
    + revert Hw2. apply Forall_impl. intros group.
      unfold len. rewrite !length_app. lia.
    + revert Hw1. apply Forall_impl. intros group.
      unfold len. rewrite !length_app. lia.
  - destruct (match_pattern n p1 s g k) as [m'|] eqn:Efirst; cbn [orelse].
    + intros [= ->]. now apply IH1.
    + intros Hk. exists [], s, []. repeat split; auto. constructor.
  - intros Hm.
    destruct (IH1 _ _ _ _ Hm) as (pre & s1 & new & Hk & -> & Hw).
    exists pre, s1, ((name, (n - len (pre ++ s1), n - len s1)) :: new).
    split; [exact Hk|]. split; [reflexivity|].
    constructor; [|exact Hw]. cbn [fst snd].
    unfold len. rewrite length_app. lia.
Qed.

Lemma match_at_spans (p : pattern) (data : str) (pos : Z)
  (m : SpanMatch.t) :
  0 <= pos ->
  match_at p data pos = Some m ->
  spans_within pos (SpanMatch.end_ m) (SpanMatch.groups m).
Proof.
  intros Hpos. unfold match_at.
  destruct (len data <? pos) eqn:Elen; [discriminate|].
  apply Z.ltb_ge in Elen. intros Hm.
  destruct (match_pattern_spans _ _ _ _ _ _ Hm)
    as (pre & s1 & new & [= <-] & Hs & Hw).
  cbn [SpanMatch.end_ SpanMatch.groups]. rewrite app_nil_r.
  replace (len data - len (slice_from pos data)) with pos in Hw;
    [exact Hw|].
  rewrite len_slice_from by lia. lia.
Qed.

Lemma lookup_within (name : string) (lo hi : Z) (g : spans) (a b : Z) :
  spans_within lo hi g ->
  SpanMatch.lookup name g = Some (a, b) ->
  lo <= a /\ a <= b /\ b <= hi.
Proof.
  induction 1 as [|[n [x y]] g Hx Hg IH]; cbn [SpanMatch.lookup];
    [discriminate|].
  destruct (String.eqb n name); [|exact IH].
  intros [= <- <-]. exact Hx.
Qed.

(** ** [_find_tag_attribute_spans] *)

Lemma attribute_loop_result (fuel : nat) (data attribute : str)
  (position : Z) :
  0 <= position <= len data ->
  len data - position < Z.of_nat fuel ->
  exists r,
    attribute_loop fuel data attribute position = Some r
    /\ match r with
       | Span a b => a < b -> position <= a /\ b <= len data
       | IndexError => True
       end.
Proof.
  revert position. induction fuel as [|fuel IH]; intros position Hpos Hfuel;
    [lia|].
  cbn [attribute_loop].
  destruct (match_at HTML_ATTRIBUTE_REGEX data position) as [m|] eqn:Em.
  2:{ exists (Span 0 0). split; [reflexivity | lia]. }
  assert (Hp0 : 0 <= position) by lia.
  destruct (match_at_bounds _ _ _ _ Hp0 Em) as (_ & Hlow & Hhigh).
  change (Z.of_nat (min_pattern_width HTML_ATTRIBUTE_REGEX)) with 2 in Hlow.
  pose proof (match_at_spans _ _ _ _ Hp0 Em) as Hspans.
  destruct (match SpanMatch.group data m "attribute" with
            | Some name => str_eqb name attribute
            | None => false
            end).
  - unfold SpanMatch.span.
    destruct (SpanMatch.lookup "value" (SpanMatch.groups m))
      as [[a b]|] eqn:Evalue; cbn [fst snd].
    + destruct (lookup_within _ _ _ _ _ _ Hspans Evalue) as (Ha & Hab & Hb).
      destruct (getitem data a) as [c|] eqn:Ec;
        [|exists IndexError; split; [reflexivity | exact I]].
      destruct (Ascii.eqb c "'" || Ascii.eqb c "034");
        eexists; (split; [reflexivity|]); cbv beta iota; lia.
    + destruct (getitem data (-1)) as [c|];
        [|exists IndexError; split; [reflexivity | exact I]].
      destruct (Ascii.eqb c "'" || Ascii.eqb c "034");
        eexists; (split; [reflexivity|]); cbv beta iota; lia.
  - assert (Hnext : 0 <= SpanMatch.end_ m <= len data) by lia.
    assert (Hfuel' : len data - SpanMatch.end_ m < Z.of_nat fuel) by lia.
    destruct (IH (SpanMatch.end_ m) Hnext Hfuel') as (r & Hr & Hbound).
    exists r. split; [exact Hr|].
    destruct r; [|exact I]. intros Hab. specialize (Hbound Hab). lia.
Qed.

(** X22.  [_find_tag_attribute_spans] always comes to an end.  It returns
    [(0, 0)] for a text that does not begin with [<] and a letter; a span
    that is not empty lies within the text, behind the name of the tag; an
    [IndexError] is what is left. *)
Theorem find_tag_attribute_spans_result (data attribute : str) :
  exists r,
    _find_tag_attribute_spans data attribute = Some r
    /\ match r with
       | Span a b => a < b -> 2 <= a /\ b <= len data
       | IndexError => True
       end
    /\ (match_at HTML_START_TAG_REGEX data 0 = None -> r = Span 0 0).
Proof.
  unfold _find_tag_attribute_spans.
  destruct (match_at HTML_START_TAG_REGEX data 0) as [startTag|] eqn:Etag.
  - assert (H0 : 0 <= 0) by lia.
    destruct (match_at_bounds _ _ _ _ H0 Etag) as (_ & Hlow & Hhigh).
    change (Z.of_nat (min_pattern_width HTML_START_TAG_REGEX)) with 2 in Hlow.
    destruct (attribute_loop_result (S (length data)) data attribute
                (SpanMatch.end_ startTag))
      as (r & Hr & Hbound); [lia | unfold len; lia|].
    exists r. split; [exact Hr|]. split; [|discriminate].
    destruct r; [|exact I]. intros Hab. specialize (Hbound Hab). lia.
  - exists (Span 0 0). split; [reflexivity|]. split; [lia | reflexivity].
Qed.

Example find_tag_attribute_spans_examples :
  _find_tag_attribute_spans (lit "<img alt=x src='data:,abc' >") (lit "src")
    = Some (Span 16 25)
  /\ _find_tag_attribute_spans (lit "<img alt=x src='data:,abc' >") (lit "alt")
     = Some (Span 9 10)
  /\ _find_tag_attribute_spans (lit "<img hidden src='data:,abc'>")
       (lit "hidden") = Some (Span (-1) (-1))
  /\ _find_tag_attribute_spans (lit "<img hidden src='data:,abc'")
       (lit "hidden") = Some (Span 0 (-2))
  /\ _find_tag_attribute_spans (lit "<img src=") (lit "src")
     = Some IndexError
  /\ _find_tag_attribute_spans (lit "</img src='data:,abc'>") (lit "src")
     = Some (Span 0 0).
Proof. vm_compute. repeat split; reflexivity. Qed.

Section GreedyFacts.
Context {R : Type}.
Implicit Types (k : @cont R) (s : str) (g : groups).

(** The longest run wins when the continuation accepts what follows it. *)
Lemma greedy_first p s g k m :
  k (dropWhile p s) g = Some m -> greedy p s g k = Some m.
Proof.
  induction s as [|c t IH]; cbn [greedy dropWhile]; [auto|].
  destruct (p c); [|auto].
  intros Hk. now rewrite (IH Hk).
Qed.

Lemma star_of_class_first p s g k m :
  k (dropWhile p s) g = Some m ->
  backtrack (Star (Class p)) s g k = Some m.
Proof.
  intros Hk. cbn [backtrack].
  rewrite (star_class p) by (reflexivity || lia).
  now apply greedy_first.
Qed.

Lemma plus_of_class_first p c t g k m :
  p c = true ->
  k (dropWhile p t) g = Some m ->
  backtrack (Plus (Class p)) (c :: t) g k = Some m.
Proof.
  intros Hc Hk. rewrite plus_of_class, Hc. now apply greedy_first.
Qed.

Lemma name_first c t rest g k m :
  is_letter c = true ->
  forallb is_name_character t = true ->
  match rest with x :: _ => is_name_character x = false | [] => True end ->
  k rest g = Some m ->
  backtrack HTML_NAME_PATTERN (c :: t ++ rest) g k = Some m.
Proof.
  intros Hc Ht Hrest Hk.
  change (backtrack HTML_NAME_PATTERN (c :: t ++ rest) g k)
    with (if is_letter c
          then backtrack (Star (Class is_name_character)) (t ++ rest) g k
          else None).
  rewrite Hc. apply star_of_class_first.
  rewrite dropWhile_app_all by exact Ht.
  destruct rest as [|x rest']; [exact Hk|].
  cbn [dropWhile]. now rewrite Hrest.
Qed.

Lemma quoted_first (quote : ascii) value rest g k m :
  forallb (other_than quote) value = true ->
  k rest g = Some m ->
  backtrack
    (Seq (Char quote) (Seq (Star (NoneOf [quote])) (Char quote)))
    (quote :: value ++ quote :: rest) g k = Some m.
Proof.
  intros Hvalue Hk.
  change (backtrack
            (Seq (Char quote) (Seq (Star (NoneOf [quote])) (Char quote)))
            (quote :: value ++ quote :: rest) g k)
    with (if Ascii.eqb quote quote
          then backtrack (Star (Class (other_than quote)))
                 (value ++ quote :: rest) g
                 (fun s1 g1 => backtrack (Char quote) s1 g1 k)
          else None).
  rewrite Ascii.eqb_refl. apply star_of_class_first.
  rewrite dropWhile_app_all by exact Hvalue.
  assert (Hq : other_than quote quote = false).
  { unfold other_than, contains. cbn [existsb]. now rewrite Ascii.eqb_refl. }
  cbn [dropWhile]. rewrite Hq. cbn [backtrack Char].
  now rewrite Ascii.eqb_refl.
Qed.
End GreedyFacts.

Lemma space_is_no_name_character (c : ascii) :
  isspace c = true -> is_name_character c = false.
Proof.
  destruct c as [[] [] [] [] [] [] [] []]; vm_compute; congruence.
Qed.

Lemma letter_is_no_space (c : ascii) :
  is_letter c = true -> isspace c = false.
Proof.
  destruct c as [[] [] [] [] [] [] [] []]; vm_compute; congruence.
Qed.

Lemma backtrack_seq {R : Type} (r1 r2 : regex) (s : str) (g : groups)
  (k : @cont R) :
  backtrack (Seq r1 r2) s g k =
  backtrack r1 s g (fun s1 g1 => backtrack r2 s1 g1 k).
Proof. reflexivity. Qed.

Lemma slice_middle {A : Type} (a b c : list A) :
  slice (len a) (len a + len b) (a ++ b ++ c) = b.
Proof.
  unfold slice, slice_to, slice_from, len.
  replace (Z.to_nat (Z.of_nat (length a) + Z.of_nat (length b)))
    with (length a + length b)%nat by lia.
  rewrite Nat2Z.id, app_assoc.
  rewrite <- length_app, firstn_app, firstn_all, Nat.sub_diag.
  cbn [firstn]. rewrite app_nil_r.
  now rewrite skipn_app, skipn_all, Nat.sub_diag.
Qed.

(** The first attribute of a start tag with a quoted value, as
    [HTML_ATTRIBUTE_REGEX] matches it behind the name of the tag. *)
Lemma match_at_first_attribute (tag blank name : str) (quote : ascii)
  (value rest : str) :
  blank <> [] ->
  forallb isspace blank = true ->
  is_html_name name = true ->
  quote = "'"%char \/ quote = "034"%char ->
  forallb (other_than quote) value = true ->
  let data := start_tag_with tag blank name quote value rest in
  match_at HTML_ATTRIBUTE_REGEX data (len ("<"%char :: tag)) =
  Some {| SpanMatch.start := len ("<"%char :: tag);
          SpanMatch.end_ := len data - len rest;
          SpanMatch.groups :=
            [ ("value"%string,
               (len data - len (quote :: value ++ quote :: rest),
                len data - len rest));
              ("attribute"%string,
               (len data
                - len (name ++ "="%char :: quote :: value ++ quote :: rest),
                len data
                - len ("="%char :: quote :: value ++ quote :: rest))) ] |}.
Proof.
  intros Hblank Hspace Hname Hquote Hvalue data.
  destruct blank as [|b0 blank']; [contradiction|].
  cbn [forallb] in Hspace. apply andb_true_iff in Hspace as [Hb0 Hspace].
  destruct name as [|c name']; [discriminate|].
  cbn [is_html_name] in Hname. apply andb_true_iff in Hname as [Hc Hname].
  unfold match_at.
  replace (len data <? len ("<"%char :: tag)) with false.
  2:{ symmetry. apply Z.ltb_ge. subst data. unfold start_tag_with, len.
      cbn [length]. rewrite !length_app. lia. }
  replace (slice_from (len ("<"%char :: tag)) data)
    with ((b0 :: blank') ++ (c :: name')
          ++ "="%char :: quote :: value ++ quote :: rest).
  2:{ subst data. unfold start_tag_with.
      change ("<"%char :: tag ++ (b0 :: blank') ++ (c :: name')
              ++ "="%char :: quote :: value ++ quote :: rest)
        with (("<"%char :: tag) ++ (b0 :: blank') ++ (c :: name')
              ++ "="%char :: quote :: value ++ quote :: rest).
      now rewrite slice_from_app. }
  set (n := len data).
  unfold HTML_ATTRIBUTE_REGEX, HTML_ATTRIBUTE_PATTERN,
    HTML_ATTRIBUTE_VALUE_PATTERN.
  cbn [match_pattern app].
  apply plus_of_class_first; [exact Hb0|].
  rewrite dropWhile_app_all by exact Hspace.
  cbn [dropWhile app]. rewrite (letter_is_no_space c Hc).
  apply name_first; [exact Hc | exact Hname | reflexivity|].
  match goal with
  | |- orelse ?x _ = ?rhs => assert (Hx : x = rhs); [|now rewrite Hx]
  end.
  rewrite !backtrack_seq. apply star_of_class_first.
  cbn [dropWhile]. change (isspace "=") with false. cbv iota.
  cbn [backtrack Char]. rewrite Ascii.eqb_refl.
  apply star_of_class_first.
  destruct Hquote as [->| ->]; cbn [dropWhile].
  - change (isspace "'") with false. cbv iota.
    match goal with
    | |- orelse ?x _ = ?rhs => assert (Hy : x = rhs); [|now rewrite Hy]
    end.
    now apply quoted_first.
  - change (isspace "034") with false. cbv iota.
    cbn [backtrack Char].
    change (Ascii.eqb "'" "034") with false. cbv iota. cbn [orelse].
    match goal with
    | |- orelse ?x _ = ?rhs => assert (Hy : x = rhs); [|now rewrite Hy]
    end.
    now apply quoted_first.
Qed.

Lemma match_at_start_tag (tag rest : str) :
  is_html_name tag = true ->
  match rest with x :: _ => is_name_character x = false | [] => True end ->
  match_at HTML_START_TAG_REGEX ("<"%char :: tag ++ rest) 0 =
  Some {| SpanMatch.start := 0;
          SpanMatch.end_ := len ("<"%char :: tag ++ rest) - len rest;
          SpanMatch.groups := [] |}.
Proof.
  intros Htag Hrest. destruct tag as [|c tag']; [discriminate|].
  cbn [is_html_name] in Htag. apply andb_true_iff in Htag as [Hc Htag].
  unfold match_at.
  replace (len ("<"%char :: (c :: tag') ++ rest) <? 0) with false
    by (symmetry; apply Z.ltb_ge; apply len_nonneg).
  change (slice_from 0 ("<"%char :: (c :: tag') ++ rest))
    with ("<"%char :: c :: tag' ++ rest).
  unfold HTML_START_TAG_REGEX. cbn [match_pattern].
  rewrite backtrack_seq. cbn [backtrack Char].
  change (Ascii.eqb "<" "<") with true. cbv iota.
  now apply name_first.
Qed.

(** Equations between the lengths of lists that are put together. *)
Ltac list_lengths :=
  unfold len;
  repeat first [rewrite length_app | progress cbn [length]];
  lia.

(** X23.  For a start tag whose first attribute is the one asked for, with
    a value in single or double quotes, [_find_tag_attribute_spans] returns
    the span of the value between the quotes: the characters of the text
    from the first offset up to the second are the value. *)
Theorem find_quoted_attribute_value (tag blank name : str) (quote : ascii)
  (value rest : str) :
  is_html_name tag = true ->
  blank <> [] ->
  forallb isspace blank = true ->
  is_html_name name = true ->
  quote = "'"%char \/ quote = "034"%char ->
  forallb (other_than quote) value = true ->
  let data := start_tag_with tag blank name quote value rest in
  let a := len ("<"%char :: tag ++ blank ++ name) + 2 in
  _find_tag_attribute_spans data name = Some (Span a (a + len value))
  /\ slice a (a + len value) data = value.
Proof.
  intros Htag Hblank Hspace Hname Hquote Hvalue data a.
  assert (Hlens : len data = a + len value + 1 + len rest
                  /\ a = len ("<"%char :: tag) + len blank + len name + 2).
  { subst data a. unfold start_tag_with. list_lengths. }
  destruct Hlens as [Hdata Ha].
  split.
  - unfold _find_tag_attribute_spans.
    assert (Hstart : match_at HTML_START_TAG_REGEX data 0 =
                     Some {| SpanMatch.start := 0;
                             SpanMatch.end_ := len ("<"%char :: tag);
                             SpanMatch.groups := [] |}).
    { subst data. unfold start_tag_with.
      rewrite (match_at_start_tag tag
                 (blank ++ name
                  ++ "="%char :: quote :: value ++ quote :: rest) Htag).
      - repeat f_equal. list_lengths.
      - destruct blank as [|b0 blank']; [contradiction|].
        cbn [forallb] in Hspace. apply andb_true_iff in Hspace as [Hb0 _].
        now apply space_is_no_name_character. }
    rewrite Hstart. cbn [SpanMatch.end_ attribute_loop].
    pose proof (match_at_first_attribute tag blank name quote value rest
                  Hblank Hspace Hname Hquote Hvalue) as Hattr.
    cbv zeta in Hattr. fold data in Hattr. rewrite Hattr.
    unfold SpanMatch.group, SpanMatch.span.
    cbn [SpanMatch.end_ SpanMatch.groups SpanMatch.lookup].
    change (String.eqb "value" "attribute") with false.
    change (String.eqb "attribute" "attribute") with true.
    change (String.eqb "value" "value") with true.
    cbv iota. cbn [fst snd].
    replace (slice
               (len data
                - len (name ++ "="%char :: quote :: value ++ quote :: rest))
               (len data
                - len ("="%char :: quote :: value ++ quote :: rest)) data)
      with name.
    2:{ symmetry.
        replace (len data
                 - len (name ++ "="%char :: quote :: value ++ quote :: rest))
          with (len ("<"%char :: tag ++ blank)).
        2:{ rewrite Hdata, Ha. list_lengths. }
        replace (len data
                 - len ("="%char :: quote :: value ++ quote :: rest))
          with (len ("<"%char :: tag ++ blank) + len name).
        2:{ rewrite Hdata, Ha. list_lengths. }
        subst data. unfold start_tag_with.
        change ("<"%char :: tag ++ blank ++ name
                ++ "="%char :: quote :: value ++ quote :: rest)
          with (("<"%char :: tag) ++ blank ++ name
                ++ "="%char :: quote :: value ++ quote :: rest).
        rewrite (app_assoc ("<"%char :: tag) blank).
        apply slice_middle. }
    rewrite str_eqb_refl.
    replace (len data - len (quote :: value ++ quote :: rest))
      with (len ("<"%char :: tag ++ blank ++ name ++ ["="%char])).
    2:{ rewrite Hdata, Ha. list_lengths. }
    replace data
      with (("<"%char :: tag ++ blank ++ name ++ ["="%char])
            ++ quote :: value ++ quote :: rest) at 1.
    2:{ subst data. unfold start_tag_with. cbn [app].
        now rewrite <- !app_assoc. }
    rewrite getitem_app.
    replace (Ascii.eqb quote "'" || Ascii.eqb quote "034") with true
      by (destruct Hquote as [->| ->]; reflexivity).
    f_equal. f_equal.
    + subst a. list_lengths.
    + rewrite Hdata. lia.
  - subst data. unfold start_tag_with.
    replace ("<"%char :: tag ++ blank ++ name
             ++ "="%char :: quote :: value ++ quote :: rest)
      with (("<"%char :: tag ++ blank ++ name ++ ["="%char; quote])
            ++ value ++ quote :: rest)
      by (cbn [app]; now rewrite <- !app_assoc).
    replace a with (len ("<"%char :: tag ++ blank ++ name
                         ++ ["="%char; quote])).
    + apply slice_middle.
    + subst a. list_lengths.
Qed.

Lemma find_quoted_attribute_value_witness :
  _find_tag_attribute_spans (lit "<img src='data:,abc' alt=x>") (lit "src")
    = Some (Span 10 19)
  /\ slice 10 19 (lit "<img src='data:,abc' alt=x>") = lit "data:,abc".
Proof.
  apply (find_quoted_attribute_value (lit "img") (lit " ") (lit "src")
           "'"%char (lit "data:,abc") (lit " alt=x>"));
    try reflexivity; [discriminate | now left].
Defined.

(** ** The offsets of the lines *)

Lemma offsets_behind_newlines_app (a b : str) (i : Z) :
  offsets_behind_newlines (a ++ b) i =
  offsets_behind_newlines a i ++ offsets_behind_newlines b (i + len a).
Proof.
  revert i. induction a as [|c a IH]; intros i; cbn [app offsets_behind_newlines].
  - unfold len. cbn [length]. now rewrite Z.add_0_r.
  - rewrite IH.
    replace (i + 1 + len a) with (i + len (c :: a)) by list_lengths.
    now destruct (Ascii.eqb "010" c).
Qed.

Lemma offsets_behind_newlines_none (s : str) (i : Z) :
  forallb (fun x => negb (Ascii.eqb "010" x)) s = true ->
  offsets_behind_newlines s i = [].
Proof.
  revert i. induction s as [|c s IH]; intros i; [reflexivity|].
  cbn [forallb offsets_behind_newlines]. intros Hall.
  apply andb_true_iff in Hall as [Hc Hall].
  apply negb_true_iff in Hc. rewrite Hc. now apply IH.
Qed.

(** The inner loop adds the offsets behind the newlines from [position]
    on. *)
Lemma line_starts_spec (fuel : nat) (data : str) (position : Z)
  (processed_data_size : Z) (lineOffsets : list Z) :
  0 <= position <= len data ->
  len data - position < Z.of_nat fuel ->
  line_starts fuel data position processed_data_size lineOffsets =
  lineOffsets
  ++ offsets_behind_newlines (slice_from position data)
       (processed_data_size + position).
Proof.
  revert position lineOffsets.
  induction fuel as [|fuel IH]; intros position lineOffsets Hpos Hfuel; [lia|].
  cbn [line_starts]. unfold find.
  replace (len data <? position) with false by (symmetry; apply Z.ltb_ge; lia).
  rewrite find_go_char.
  set (p := fun x => negb (Ascii.eqb "010" x)).
  pose proof (takeWhile_dropWhile p (slice_from position data)) as Hsplit.
  pose proof (takeWhile_all p (slice_from position data)) as Hall.
  pose proof (len_slice_from position data ltac:(lia)) as Hlen.
  destruct (dropWhile p (slice_from position data)) as [|x rest] eqn:Edrop.
  - cbn [Z.geb Z.compare]. rewrite app_nil_r in Hsplit.
    rewrite <- Hsplit. rewrite offsets_behind_newlines_none by exact Hall.
    now rewrite app_nil_r.
  - assert (Hx : Ascii.eqb "010" x = true).
    { apply dropWhile_head in Edrop. subst p. cbv beta in Edrop.
      now apply negb_false_iff in Edrop. }
    set (q := position + len (takeWhile p (slice_from position data))).
    pose proof (len_nonneg (takeWhile p (slice_from position data))) as Hq.
    assert (Hwhole : len (slice_from position data) =
                     len (takeWhile p (slice_from position data))
                     + 1 + len rest).
    { rewrite <- Hsplit at 1. list_lengths. }
    pose proof (len_nonneg rest) as Hrest.
    replace (q >=? 0) with true by (symmetry; apply Z.geb_le; lia).
    rewrite IH by lia.
    rewrite <- app_assoc. f_equal.
    rewrite <- Hsplit at 1.
    rewrite offsets_behind_newlines_app.
    rewrite (offsets_behind_newlines_none
               (takeWhile p (slice_from position data))) by exact Hall.
    cbn [app offsets_behind_newlines]. rewrite Hx.
    replace (processed_data_size + position
             + len (takeWhile p (slice_from position data)) + 1)
      with (processed_data_size + (q + 1)) by lia.
    f_equal. f_equal.
    unfold slice_from in *.
    replace (Z.to_nat (q + 1))
      with (length (takeWhile p (skipn (Z.to_nat position) data)) + 1
            + Z.to_nat position)%nat
      by (subst q; unfold len; lia).
    rewrite <- skipn_skipn.
    set (line := takeWhile p (skipn (Z.to_nat position) data)) in *.
    rewrite <- Hsplit, skipn_app.
    replace (length line + 1 - length line)%nat with 1%nat by lia.
    rewrite skipn_all2 by lia. reflexivity.
Qed.

Lemma scan_chunk_spec (lineOffsets : list Z) (processed_data_size : Z)
  (data : str) :
  scan_chunk (lineOffsets, processed_data_size) data =
  (lineOffsets ++ offsets_behind_newlines data processed_data_size,
   processed_data_size + len data).
Proof.
  unfold scan_chunk. rewrite line_starts_spec.
  - now rewrite Z.add_0_r.
  - pose proof (len_nonneg data). lia.
  - unfold len. lia.
Qed.

Lemma fold_scan_chunk (chunks : list str) (lineOffsets : list Z)
  (processed_data_size : Z) :
  fold_left scan_chunk chunks (lineOffsets, processed_data_size) =
  (lineOffsets
   ++ offsets_behind_newlines (concat chunks) processed_data_size,
   processed_data_size + len (concat chunks)).
Proof.
  revert lineOffsets processed_data_size.
  induction chunks as [|data chunks IH]; intros lineOffsets processed_data_size.
  - cbn. now rewrite app_nil_r, Z.add_0_r.
  - cbn [fold_left concat]. rewrite scan_chunk_spec, IH.
    rewrite offsets_behind_newlines_app, <- app_assoc.
    f_equal. list_lengths.
Qed.

(** X24.  The offsets of the lines do not depend on how the reads cut the
    text into chunks: behind the loop, [lineOffsets] is 0 followed by the
    offset behind every newline of the whole text, in the order of the
    text, and [file_size] is the length of the text. *)
Theorem line_offsets_of_text (chunks : list str) :
  line_offsets chunks =
  (0 :: offsets_behind_newlines (concat chunks) 0, len (concat chunks)).
Proof. unfold line_offsets. now rewrite fold_scan_chunk. Qed.

Example line_offsets_three_lines :
  line_offsets three_line_chunks = ([0; 7; 14], 21).
Proof. vm_compute. reflexivity. Qed.

Lemma split_go_lines (c : ascii) (s cur : str) :
  split_go Ascii.eqb [c] s cur 0 =
  match dropWhile (fun x => negb (Ascii.eqb c x)) s with
  | [] => [rev cur ++ s]
  | _ :: rest =>
      (rev cur ++ takeWhile (fun x => negb (Ascii.eqb c x)) s)
      :: split_go Ascii.eqb [c] rest [] 0
  end.
Proof.
  revert cur. induction s as [|x t IH]; intros cur.
  - cbn. now rewrite app_nil_r.
  - cbn [split_go startswith dropWhile takeWhile length Nat.sub].
    destruct (Ascii.eqb c x); cbn [andb negb].
    + now rewrite app_nil_r.
    + rewrite IH. cbn [rev]. rewrite <- !app_assoc. cbn [app].
      now destruct (dropWhile _ t).
Qed.

Lemma split_go_length (s cur : str) (i : Z) :
  length (split_go Ascii.eqb ["010"%char] s cur 0) =
  S (length (offsets_behind_newlines s i)).
Proof.
  revert cur i. induction s as [|x t IH]; intros cur i; [reflexivity|].
  cbn [split_go startswith offsets_behind_newlines length Nat.sub].
  destruct (Ascii.eqb "010" x); cbn [andb length]; now rewrite (IH _ (i + 1)).
Qed.

Lemma slice_behind {A : Type} (front s : list A) (a b : Z) :
  0 <= a -> 0 <= b ->
  slice (len front + a) (len front + b) (front ++ s) = slice a b s.
Proof.
  intros Ha Hb. unfold slice, slice_to, slice_from, len.
  replace (Z.to_nat (Z.of_nat (length front) + b))
    with (length front + Z.to_nat b)%nat by lia.
  replace (Z.to_nat (Z.of_nat (length front) + a))
    with (length front + Z.to_nat a)%nat by lia.
  rewrite firstn_app_2, skipn_app.
  rewrite skipn_all2 by lia.
  replace (length front + Z.to_nat a - length front)%nat
    with (Z.to_nat a) by lia.
  reflexivity.
Qed.

(** The line with the index [k] starts at the entry [k] of the offsets. *)
Lemma line_offset_locates (k : nat) :
  forall (text : str) (i col : Z),
    (k < length (split Ascii.eqb ["010"%char] text))%nat ->
    0 <= col <= len (nth k (split Ascii.eqb ["010"%char] text) []) ->
    let line := nth k (split Ascii.eqb ["010"%char] text) [] in
    let off := nth k (i :: offsets_behind_newlines text i) 0 in
    i <= off
    /\ slice (off - i + col) (off - i + len line) text = slice_from col line.
Proof.
  set (p := fun x => negb (Ascii.eqb "010" x)).
  induction k as [|k IH]; intros text i col; unfold split;
    rewrite (split_go_lines "010" text []);
    pose proof (takeWhile_dropWhile p text) as Hsplit;
    pose proof (takeWhile_all p text) as Hall;
    fold p; cbn [rev app];
    set (first_line := takeWhile p text) in *.
  - intros _. destruct (dropWhile p text) as [|x rest] eqn:Edrop;
      cbn [nth]; intros Hcol; cbv zeta; (split; [lia|]);
      rewrite Z.sub_diag, !Z.add_0_l.
    + unfold slice. unfold slice_to at 1.
      rewrite firstn_all2 by (unfold len; lia). reflexivity.
    + rewrite <- Hsplit.
      unfold slice, slice_to, slice_from, len.
      rewrite Nat2Z.id, firstn_app, firstn_all, Nat.sub_diag.
      cbn [firstn]. now rewrite app_nil_r.
  - destruct (dropWhile p text) as [|x rest] eqn:Edrop;
      cbn [nth length]; [lia|].
    intros Hk Hcol.
    assert (Hx : Ascii.eqb "010" x = true).
    { apply dropWhile_head in Edrop. subst p. cbv beta in Edrop.
      now apply negb_false_iff in Edrop. }
    assert (Hoffsets : offsets_behind_newlines text i =
                       (i + len first_line + 1)
                       :: offsets_behind_newlines rest
                            (i + len first_line + 1)).
    { rewrite <- Hsplit. rewrite offsets_behind_newlines_app.
      rewrite (offsets_behind_newlines_none first_line) by exact Hall.
      cbn [app offsets_behind_newlines]. now rewrite Hx. }
    rewrite Hoffsets.
    assert (Hk' : (k < length (split Ascii.eqb ["010"%char] rest))%nat)
      by (unfold split; lia).
    destruct (IH rest (i + len first_line + 1) col Hk' Hcol)
      as [Hle Hslice].
    cbv zeta in *.
    change (split_go Ascii.eqb ["010"%char] rest [] 0)
      with (split Ascii.eqb ["010"%char] rest) in *.
    pose proof (len_nonneg first_line) as Hline.
    split; [lia|].
    set (off := nth k
                  ((i + len first_line + 1)
                   :: offsets_behind_newlines rest (i + len first_line + 1))
                  0) in *.
    set (line := nth k (split Ascii.eqb ["010"%char] rest) []) in *.
    rewrite <- Hslice. rewrite <- Hsplit.
    replace (first_line ++ x :: rest) with ((first_line ++ [x]) ++ rest)
      by (now rewrite <- app_assoc).
    replace (off - i + col)
      with (len (first_line ++ [x]) + (off - (i + len first_line + 1) + col))
      by list_lengths.
    replace (off - i + len line)
      with (len (first_line ++ [x])
            + (off - (i + len first_line + 1) + len line))
      by list_lengths.
    pose proof (len_nonneg line).
    apply slice_behind; lia.
Qed.

Lemma getitem_nth {A : Type} (l : list A) (i : Z) (d : A) :
  0 <= i < len l -> getitem l i = Some (nth (Z.to_nat i) l d).
Proof.
  intros Hi.
  assert (Hnn : (i <? 0) = false) by (apply Z.ltb_ge; lia).
  assert (Hle : (len l <=? i) = false) by (apply Z.leb_gt; lia).
  unfold getitem. cbv zeta. rewrite Hnn. cbv iota. rewrite Hnn, Hle.
  cbn [orb]. apply nth_error_nth'. unfold len in Hi. lia.
Qed.

(** X25.  [to_char_offset] turns the position of the parser, a line counted
    from 1 and an offset in that line, into the offset of the same
    character in the whole text: the text from there to the end of the line
    is the line from the offset on. *)
Theorem to_char_offset_locates (chunks : list str) (line col : Z) :
  let text := concat chunks in
  let lines := split Ascii.eqb ["010"%char] text in
  let line_text := nth (Z.to_nat (line - 1)) lines [] in
  1 <= line <= len lines ->
  0 <= col <= len line_text ->
  exists offset,
    to_char_offset (fst (line_offsets chunks))
      {| LineOffset.line := line; LineOffset.offset := col |} = Some offset
    /\ col <= offset
    /\ slice offset (offset - col + len line_text) text
       = slice_from col line_text.
Proof.
  intros text lines line_text Hline Hcol.
  unfold line_offsets. rewrite fold_scan_chunk. cbn [fst app].
  fold text.
  assert (Hk : (Z.to_nat (line - 1) < length lines)%nat)
    by (unfold len in Hline; lia).
  destruct (line_offset_locates (Z.to_nat (line - 1)) text 0 col Hk Hcol)
    as [Hle Hslice].
  cbv zeta in Hslice. fold lines in Hslice. fold line_text in Hslice.
  set (off := nth (Z.to_nat (line - 1))
                (0 :: offsets_behind_newlines text 0) 0) in *.
  exists (off + col).
  assert (Hlen : length (0 :: offsets_behind_newlines text 0) = length lines).
  { subst lines. unfold split. rewrite (split_go_length text [] 0).
    reflexivity. }
  split.
  - unfold to_char_offset. cbn [LineOffset.line LineOffset.offset].
    rewrite (getitem_nth _ _ 0)
      by (unfold len in *; rewrite Hlen; lia).
    reflexivity.
  - split; [lia|].
    rewrite <- Hslice. f_equal; lia.
Qed.

Lemma to_char_offset_locates_witness :
  exists offset,
    to_char_offset (fst (line_offsets three_line_chunks))
      {| LineOffset.line := 2; LineOffset.offset := 1 |} = Some offset
    /\ 1 <= offset
    /\ slice offset (offset - 1 + 6) (concat three_line_chunks)
       = lit "body>".
Proof.
  apply (to_char_offset_locates three_line_chunks 2 1);
    vm_compute; split; discriminate.
Defined.

(** ** The original URL of a candidate *)

Lemma str_eqb_trans_false (a b c : str) :
  str_eqb a b = true -> str_eqb a c = false -> str_eqb b c = false.
Proof.
  intros Hab Hac. apply str_eqb_eq in Hab. subst b. exact Hac.
Qed.

Lemma dict_get_set (d : list (str * str)) (k v k' default : str) :
  dict_get (dict_set d k v) k' default =
  if str_eqb k k' then v else dict_get d k' default.
Proof.
  induction d as [|[k0 v0] d IH]; cbn [dict_set dict_get].
  - reflexivity.
  - destruct (str_eqb k0 k) eqn:E0; cbn [dict_get].
    + apply str_eqb_eq in E0. subst k0. now destruct (str_eqb k k').
    + destruct (str_eqb k0 k') eqn:E1.
      * destruct (str_eqb k k') eqn:E2; [|reflexivity].
        apply str_eqb_eq in E1, E2. subst. now rewrite str_eqb_refl in E0.
      * exact IH.
Qed.

Lemma dict_get_last_value (attrs : list (str * str)) (k default : str) :
  dict_get (dict attrs) k default = last_value attrs k default.
Proof.
  unfold dict, last_value.
  assert (Hgen : forall d,
             dict_get
               (fold_left (fun d kv => dict_set d (fst kv) (snd kv)) attrs d)
               k default =
             fold_left
               (fun value kv => if str_eqb (fst kv) k then snd kv else value)
               attrs (dict_get d k default)).
  { induction attrs as [|[k0 v0] attrs IH]; intros d; cbn [fold_left];
      [reflexivity|].
    rewrite IH. cbn [fst snd]. now rewrite dict_get_set. }
  apply (Hgen []).
Qed.

(** X26.  The original URL of a candidate that a start tag gives is the
    value of the last attribute [data-savepage-] followed by the name of
    its attribute, and empty when the tag has no such attribute. *)
Theorem original_url_of_candidates (self : HTMLDataURLParser.t) (tag : str)
  (attrs : list (str * str)) :
  exists new,
    HTMLDataURLParser.files
      (HTMLDataURLParser.handle_starttag self tag attrs) =
    HTMLDataURLParser.files (HTMLDataURLParser._update_end_offset self)
    ++ new
    /\ Forall
         (fun candidate =>
            EmbeddedFileCandidate.original_url candidate =
            last_value attrs
              (lit "data-savepage-"
               ++ EmbeddedFileCandidate.attribute candidate) [])
         new.
Proof.
  rewrite starttag_files. eexists. split; [reflexivity|].
  apply Forall_map, Forall_forall. intros item _.
  unfold candidate_of.
  cbn [EmbeddedFileCandidate.original_url EmbeddedFileCandidate.attribute].
  apply dict_get_last_value.
Qed.

Example twice_saved_src_candidate :
  map EmbeddedFileCandidate.original_url
    (HTMLDataURLParser.files
       (HTMLDataURLParser.handle_starttag fresh_parser (lit "img")
          twice_saved_src)) = [lit "b.png"].
Proof. vm_compute. reflexivity. Qed.

(** ** The number of rows *)

Lemma sorted_rows_fit (rows : list TarInfo.t) :
  StronglySorted
    (fun a b => TarInfo.offset a + HEADER_SIZE <= TarInfo.offset b) rows ->
  forall lo hi,
    lo <= hi ->
    Forall (fun info => lo <= TarInfo.offset info
                        /\ TarInfo.offset info + HEADER_SIZE <= hi) rows ->
    HEADER_SIZE * len rows <= hi - lo.
Proof.
  induction 1 as [|a rows Hsorted IH Ha]; intros lo hi Hlohi Hbounds.
  - unfold len, HEADER_SIZE. cbn [length]. lia.
  - inversion Hbounds as [|? ? [Hlo Hhi] Hrest]; subst.
    assert (Hfit : HEADER_SIZE * len rows
                   <= hi - (TarInfo.offset a + HEADER_SIZE)).
    { apply IH; [lia|].
      rewrite Forall_forall in *. intros info Hin.
      specialize (Ha info Hin). destruct (Hrest info Hin). lia. }
    unfold len, HEADER_SIZE in *. cbn [length]. lia.
Qed.

Lemma startswith_length (prefix s : bytes) :
  startswith Byte.eqb prefix s = true -> (length prefix <= length s)%nat.
Proof.
  revert s. induction prefix as [|p prefix IH]; intros s; cbn [length];
    [lia|].
  destruct s as [|c s]; [discriminate|]. cbn [startswith length].
  intros Hs. apply andb_true_iff in Hs as [_ Hs]. specialize (IH s Hs). lia.
Qed.

Lemma parsed_rows_in_stream (data : bytes) (rows : list TarInfo.t) :
  _parse_ar_archive (BytesIO data) = Some (Ok rows) ->
  8 <= len data /\ Forall (offsets_in_stream data) rows.
Proof.
  rewrite parse_ar_archive_magic.
  destruct (negb (startswith Byte.eqb (blit "!<arch>" ++ [newline]) data)
            && negb (is_thin_archive data)) eqn:Emagic; [discriminate|].
  assert (Hlen : 8 <= len data).
  { apply andb_false_iff in Emagic as [E|E]; apply negb_false_iff in E;
      apply startswith_length in E; cbn [length app blit] in E;
      unfold len; cbn in E; lia. }
  intros Hloop. split; [exact Hlen|].
  destruct (parse_loop_rows (is_thin_archive data) (S (length data))
              {| fileObject :=
                   {| FileObject.data := data; FileObject.pos := 8 |};
                 files := []; long_names := None |})
    as (outcome & Hout & Hrows);
    cbn [fileObject files FileObject.pos FileObject.data];
    try lia; [unfold len; lia | constructor|].
  rewrite Hloop in Hout. injection Hout as <-. exact Hrows.
Qed.

(** X27.  An archive has room for its rows: the magic bytes and one header
    of 60 bytes for each row fit into the stream, so that an archive of [n]
    bytes has [(n - 8) / 60] rows at most. *)
Theorem rows_fit_into_stream (data : bytes) (rows : list TarInfo.t) :
  _parse_ar_archive (BytesIO data) = Some (Ok rows) ->
  8 + HEADER_SIZE * len rows <= len data.
Proof.
  intros Hparse.
  destruct (parsed_rows_in_stream data rows Hparse) as [Hlen Hstream].
  pose proof (sorted_rows_fit rows (parsed_rows_sorted data rows Hparse)
                8 (len data) Hlen) as Hfit.
  assert (Hbounds : Forall
                      (fun info => 8 <= TarInfo.offset info
                                   /\ TarInfo.offset info + HEADER_SIZE
                                      <= len data) rows).
  { revert Hstream. apply Forall_impl.
    intros info (Hlow & _ & Hhigh & Hdata). unfold HEADER_SIZE.
    destruct (bsd_name_size _) as [N|]; lia. }
  specialize (Hfit Hbounds). lia.
Qed.

Lemma rows_fit_into_stream_witness :
  _parse_ar_archive (BytesIO thin_archive_with_table) =
    Some (Ok thin_rows_with_table)
  /\ 8 + HEADER_SIZE * len thin_rows_with_table
     <= len thin_archive_with_table.
Proof.
  assert (Hparse : _parse_ar_archive (BytesIO thin_archive_with_table) =
                   Some (Ok thin_rows_with_table))
    by (vm_compute; reflexivity).
  split; [exact Hparse|].
  exact (rows_fit_into_stream thin_archive_with_table thin_rows_with_table
           Hparse).
Defined.
